(** * hue26: colour derivation and the interaction controller

    A shallow embedding of the scene browser of hue26 (the [ink] program
    that lists the scenes of a Hue bridge): the colorimetry functions
    [xyBriToHex] and [mirekToHex], the colour extraction [dedupeColors] and
    [extractColors], and the [SceneList] component with its state, its
    asynchronous handlers and its key dispatch.

    JavaScript numbers are IEEE 754 binary64 values; they are modelled by
    Rocq's primitive floats, which are the same format with the same
    rounding.  [Math.log] and [Math.pow] are implementation-approximated in
    ECMAScript: their results on ordinary arguments are parameters of the
    development, their results on the special arguments fixed by the
    standard are written out. *)

From Stdlib Require Import ZArith List String Ascii Bool Lia.
From Stdlib Require Import Floats.
From Stdlib Require Import Sorting.Sorted Sorting.Permutation.
Import ListNotations.

Set Warnings "-inexact-float".

Local Open Scope list_scope.
Local Open Scope string_scope.

(** ** JavaScript values and numbers *)

(** The values a field of a bridge reply can hold once the reply went
    through [res.json()], plus [undefined] for a field that is missing. *)
Inductive JSValue : Type :=
| JSUndefined
| JSNull
| JSBoolean (b : bool)
| JSNumber (n : float)
| JSString (s : string)
| JSObject.

Definition typeof (v : JSValue) : string :=
  match v with
  | JSUndefined => "undefined"
  | JSNull => "object"
  | JSBoolean _ => "boolean"
  | JSNumber _ => "number"
  | JSString _ => "string"
  | JSObject => "object"
  end.

Module Number.

(** [+0] as opposed to [-0]; [==] does not tell them apart. *)
Definition is_pos_zero (x : float) : bool := is_zero x && negb (get_sign x).
Definition is_neg_zero (x : float) : bool := is_zero x && get_sign x.

(** An integral Number, as [Math.round] returns them: every integral
    double is an integer, so [Int z] carries it exactly (the sign of a
    zero apart, which [toString] does not print). *)
Inductive integral : Type :=
| NaN
| Inf (negative : bool)
| Int (z : Z).

Definition hex_digit (d : N) : ascii :=
  match d with
  | 0%N => "0" | 1%N => "1" | 2%N => "2" | 3%N => "3"
  | 4%N => "4" | 5%N => "5" | 6%N => "6" | 7%N => "7"
  | 8%N => "8" | 9%N => "9" | 10%N => "a" | 11%N => "b"
  | 12%N => "c" | 13%N => "d" | 14%N => "e" | _ => "f"
  end%char.

(** The digits of [n] in base 16, most significant first, in front of
    [acc]; [fuel] bounds the number of digits. *)
Fixpoint hex_digits (fuel : nat) (n : N) (acc : string) : string :=
  match fuel with
  | O => acc
  | S fuel' =>
      let acc' := String (hex_digit (N.modulo n 16)) acc in
      if N.ltb n 16 then acc' else hex_digits fuel' (N.div n 16) acc'
  end.

Definition N_toString16 (n : N) : string :=
  hex_digits (S (N.to_nat (N.log2 n))) n "".

(** [Number.prototype.toString(16)] on an integral Number. *)
Definition toString16 (v : integral) : string :=
  match v with
  | NaN => "NaN"
  | Inf false => "Infinity"
  | Inf true => "-Infinity"
  | Int z =>
      match z with
      | Z0 => "0"
      | Zpos p => N_toString16 (Npos p)
      | Zneg p => "-" ++ N_toString16 (Npos p)
      end
  end.

End Number.

Module JSString.

Fixpoint repeat_char (c : ascii) (n : nat) : string :=
  match n with
  | O => EmptyString
  | S n' => String c (repeat_char c n')
  end.

(** [s.padStart(n, "0")] for a one-character pad. *)
Definition padStart (n : nat) (c : ascii) (s : string) : string :=
  repeat_char c (n - String.length s) ++ s.

Definition lower_char (c : ascii) : ascii :=
  let n := nat_of_ascii c in
  if (Nat.leb 65 n && Nat.leb n 90)%bool then ascii_of_nat (n + 32) else c.

(** [s.toLowerCase()]; the strings of this program are ASCII. *)
Fixpoint toLowerCase (s : string) : string :=
  match s with
  | EmptyString => EmptyString
  | String c s' => String (lower_char c) (toLowerCase s')
  end.

End JSString.

(** ** The [Math] object *)

Module Math.

Import Number.

(** [Math.max(a, b)]: NaN if either is, [+0] above [-0]. *)
Definition max (a b : float) : float :=
  if (is_nan a || is_nan b)%bool then nan
  else if (is_neg_zero a && is_pos_zero b)%bool then b
  else if (a <? b)%float then b else a.

(** [Math.min(a, b)]: NaN if either is, [-0] below [+0]. *)
Definition min (a b : float) : float :=
  if (is_nan a || is_nan b)%bool then nan
  else if (is_pos_zero a && is_neg_zero b)%bool then b
  else if (b <? a)%float then b else a.

(** [Math.round(v)]: the integer nearest to [v], a tie going up. *)
Definition round (v : float) : integral :=
  match Prim2SF v with
  | S754_nan => NaN
  | S754_infinity s => Inf s
  | S754_zero _ => Int 0
  | S754_finite s m e =>
      let n := if s then Zneg m else Zpos m in
      match e with
      | Zneg p => Int (Z.div (2 * n + Z.pow_pos 2 p) (Z.pow_pos 2 (p + 1)))
      | _ => Int (n * 2 ^ e)
      end
  end.

(** [Math.max] and [Math.min] on integral Numbers. *)
Definition max_integral (a b : integral) : integral :=
  match a, b with
  | NaN, _ | _, NaN => NaN
  | Inf false, _ | _, Inf false => Inf false
  | Inf true, x | x, Inf true => x
  | Int x, Int y => Int (Z.max x y)
  end.

Definition min_integral (a b : integral) : integral :=
  match a, b with
  | NaN, _ | _, NaN => NaN
  | Inf true, _ | _, Inf true => Inf true
  | Inf false, x | x, Inf false => x
  | Int x, Int y => Int (Z.min x y)
  end.

Section Libm.

(** What the engine's numeric library returns on ordinary arguments. *)
Variable libm_log : float -> float.
Variable libm_pow : float -> float -> float.

(** [Math.log(x)], with the results ECMAScript fixes. *)
Definition log (x : float) : float :=
  if is_nan x then nan
  else if (x <? 0)%float then nan
  else if is_zero x then neg_infinity
  else if (x =? 1)%float then 0%float
  else if is_infinity x then infinity
  else libm_log x.

(** [Math.pow(base, exponent)]: NaN for a NaN exponent, 1 for a zero
    exponent, NaN for a NaN base; the other cases are the library's. *)
Definition pow (base exponent : float) : float :=
  if is_nan exponent then nan
  else if is_zero exponent then 1%float
  else if is_nan base then nan
  else libm_pow base exponent.

End Libm.

End Math.

(** ** A numeric library

    A logarithm and a power computed with double arithmetic, accurate to
    a few units in the last place: what an engine supplies, for running
    the program on examples.  The statements below hold for any library. *)

Module Libm.

Definition ln2 : float := 0.6931471805599453.

Definition of_Z (z : Z) : float :=
  match z with
  | Z0 => 0
  | Zpos p => of_uint63 (Uint63.of_Z (Zpos p))
  | Zneg p => - of_uint63 (Uint63.of_Z (Zpos p))
  end.

(** [1/(2k+1) + t2/(2k+3) + ...], [n] terms. *)
Fixpoint atanh_series (n : nat) (k : float) (t2 : float) : float :=
  match n with
  | O => 0
  | S n' => (1 / (2 * k + 1) + t2 * atanh_series n' (k + 1) t2)%float
  end.

(** The logarithm of a finite [x > 0]. *)
Definition log (x : float) : float :=
  let '(m, e) := Z.frexp x in
  let '(m, e) :=
    if (m <? 0.7071067811865476)%float then ((2 * m)%float, (e - 1)%Z)
    else (m, e) in
  let t := ((m - 1) / (m + 1))%float in
  (2 * t * atanh_series 14 0 (t * t) + of_Z e * ln2)%float.

(** [1 + r/k (1 + r/(k+1) (...))], [n] terms. *)
Fixpoint exp_series (n : nat) (k : float) (r : float) : float :=
  match n with
  | O => 1
  | S n' => (1 + r / k * exp_series n' (k + 1) r)%float
  end.

Definition nearest (y : float) : Z :=
  match Prim2SF (y + 0.5)%float with
  | S754_finite s m e =>
      let n := if s then Zneg m else Zpos m in
      match e with
      | Zneg p => Z.div n (Z.pow_pos 2 p)
      | _ => (n * 2 ^ e)%Z
      end
  | _ => 0%Z
  end.

Definition exp (y : float) : float :=
  let k := nearest (y / ln2) in
  let r := (y - of_Z k * ln2)%float in
  Z.ldexp (exp_series 22 1 r) k.

(** The power of a base [b >= 0]. *)
Definition pow (b e : float) : float :=
  if (0 <? b)%float then
    if is_infinity b then (if (0 <? e)%float then infinity else 0%float)
    else exp (e * log b)
  else if is_zero b then (if (0 <? e)%float then 0%float else infinity)
  else nan.

End Libm.

(** ** Colorimetry *)

Section Colorimetry.

Variable libm_log : float -> float.
Variable libm_pow : float -> float -> float.

Definition gamma (c : float) : float :=
  if (c <=? 0.0031308)%float then (12.92 * c)%float
  else (1.055 * Math.pow libm_pow c (1 / 2.4) - 0.055)%float.

Definition clamp (c : float) : float := Math.max 0 (Math.min 1 c).

(** One channel of [xyBriToHex]:
    [Math.round(v * 255).toString(16).padStart(2, "0")]. *)
Definition channel (v : float) : string :=
  JSString.padStart 2 "0" (Number.toString16 (Math.round (v * 255)%float)).

(** [xyBriToHex(x, y, bri = 254)].  [x] and [y] are any values, the
    function tests them; [bri] is a Number, as the bridge's schema has
    [dimming.brightness], or [None] for [undefined], the field being
    absent, which the default replaces by 254. *)
Definition xyBriToHex (x y : JSValue) (bri : option float) : option string :=
  match x, y with
  | JSNumber x, JSNumber y =>
      if (y =? 0)%float then None
      else
        let bri := match bri with Some b => b | None => 254%float end in
        let z := (1 - x - y)%float in
        let Y := (bri / 254)%float in
        let X := ((Y / y) * x)%float in
        let Z := ((Y / y) * z)%float in
        let r := (X * 1.656492 - Y * 0.354851 - Z * 0.255038)%float in
        let g := (- X * 0.707196 + Y * 1.655397 + Z * 0.036152)%float in
        let b := (X * 0.051713 - Y * 0.121364 + Z * 1.01153)%float in
        let r := clamp (gamma r) in
        let g := clamp (gamma g) in
        let b := clamp (gamma b) in
        Some ("#" ++ channel r ++ channel g ++ channel b)
  | _, _ => None
  end.

(** The [toHex] of [mirekToHex]. *)
Definition toHex (v : float) : string :=
  JSString.padStart 2 "0"
    (Number.toString16
       (Math.max_integral (Number.Int 0)
          (Math.min_integral (Number.Int 255) (Math.round v)))).

Definition mirekToHex (mirek : JSValue) : option string :=
  match mirek with
  | JSNumber mirek =>
      if (mirek <=? 0)%float then None
      else
        let kelvin := (1000000 / mirek)%float in
        let temp := (kelvin / 100)%float in
        let '(r, g, b) :=
          if (temp <=? 66)%float then
            (255%float,
             (99.4708025861 * Math.log libm_log temp - 161.1195681661)%float,
             if (temp <=? 19)%float then 0%float
             else (138.5177312231 * Math.log libm_log (temp - 10)
                   - 305.0447927307)%float)
          else
            ((329.698727446 * Math.pow libm_pow (temp - 60) (-0.1332047592))%float,
             (288.1221695283 * Math.pow libm_pow (temp - 60) (-0.0755148492))%float,
             255%float) in
        Some ("#" ++ toHex r ++ toHex g ++ toHex b)
  | _ => None
  end.

End Colorimetry.

(** ** Colour extraction *)

(** A sample of [palette.color]: [entry?.color?.xy?.x], [entry?.color?.xy?.y]
    and [entry?.dimming?.brightness]; a link of the chain that is missing
    leaves the value [undefined]. *)
Record PaletteColor : Type := {
  color_xy_x : JSValue;
  color_xy_y : JSValue;
  dimming_brightness : option float
}.

(** A sample of [palette.color_temperature]:
    [entry?.color_temperature?.mirek]. *)
Record PaletteTemperature : Type := {
  color_temperature_mirek : JSValue
}.

Record Palette : Type := {
  color : option (list PaletteColor);
  color_temperature : option (list PaletteTemperature)
}.

(** An element [a] of [scene.actions], read through [a?.action]. *)
Record Action : Type := {
  action_color_xy_x : JSValue;
  action_color_xy_y : JSValue;
  action_dimming_brightness : option float;
  action_color_temperature_mirek : JSValue
}.

(** A scene as the bridge lists it. *)
Record SceneRecord : Type := {
  scene_id : string;
  metadata_name : option string;
  palette : option Palette;
  actions : option (list Action)
}.

(** [a || []] *)
Definition or_empty {A : Type} (a : option (list A)) : list A :=
  match a with
  | Some l => l
  | None => []
  end.

Definition Set_has (key : string) (seen : list string) : bool :=
  existsb (String.eqb key) seen.

(** The loop of [dedupeColors]; [seen] is the [Set] of keys, [out] the
    array built so far. *)
Fixpoint dedupe_loop (limit : nat) (colors : list (option string))
    (seen : list string) (out : list string) : list string :=
  match colors with
  | [] => out
  | None :: rest => dedupe_loop limit rest seen out
  | Some "" :: rest => dedupe_loop limit rest seen out
  | Some color :: rest =>
      let key := JSString.toLowerCase color in
      if Set_has key seen then dedupe_loop limit rest seen out
      else
        let out := (out ++ [color])%list in
        if Nat.leb limit (List.length out) then out
        else dedupe_loop limit rest (key :: seen) out
  end.

Definition dedupeColors (colors : list (option string)) (limit : nat)
  : list string :=
  dedupe_loop limit colors [] [].

Section ColorExtraction.

Variable libm_log : float -> float.
Variable libm_pow : float -> float -> float.

Definition paletteColors (scene : SceneRecord) : list (option string) :=
  match palette scene with
  | Some p =>
      map (fun entry =>
             xyBriToHex libm_pow (color_xy_x entry) (color_xy_y entry)
               (dimming_brightness entry))
          (or_empty (color p))
  | None => []
  end.

Definition paletteTemperatures (scene : SceneRecord) : list (option string) :=
  match palette scene with
  | Some p =>
      map (fun entry =>
             mirekToHex libm_log libm_pow (color_temperature_mirek entry))
          (or_empty (color_temperature p))
  | None => []
  end.

Definition actionColors (scene : SceneRecord) : list (option string) :=
  map (fun a =>
         xyBriToHex libm_pow (action_color_xy_x a) (action_color_xy_y a)
           (action_dimming_brightness a))
      (or_empty (actions scene)).

Definition actionTemperatures (scene : SceneRecord) : list (option string) :=
  map (fun a => mirekToHex libm_log libm_pow (action_color_temperature_mirek a))
      (or_empty (actions scene)).

Definition extractColors (scene : SceneRecord) : list string :=
  let combined :=
    (paletteColors scene ++ paletteTemperatures scene
     ++ actionColors scene ++ actionTemperatures scene)%list in
  let deduped := dedupeColors combined 6 in
  match List.length deduped with
  | O => ["#444444"]
  | _ => deduped
  end.

End ColorExtraction.

(** ** The bridge gateway *)

(** A light as the bridge lists it: [l.id], [l.on?.on] and
    [l.dimming?.brightness]. *)
Record Light : Type := {
  light_id : string;
  on_on : option bool;
  light_dimming_brightness : option float
}.

Record SmartSceneRecord : Type := {
  smart_scene_id : string;
  smart_metadata_name : option string
}.

(** What [res.json()] gives: an object whose [data] is a list of
    resources, or something else. *)
Inductive Payload : Type :=
| SceneData (data : option (list SceneRecord))
| SmartSceneData (data : option (list SmartSceneRecord))
| LightData (data : option (list Light))
| OtherData.

Record Response : Type := {
  ok : bool;
  status : string;
  statusText : string;
  text : string;
  json : Payload
}.

Inductive Body : Type :=
| OnBody (on : bool)
| DimmingBody (brightness : float)
| RecallBody (action : string).

Inductive Request : Type :=
| GET (path : string)
| PUT (path : string) (body : Body).

(** How a [fetch] settles: rejected (the network failed) or fulfilled with
    a response, whatever its HTTP status. *)
Inductive Outcome : Type :=
| Rejected (message : string)
| Fulfilled (res : Response).

(** [fetchJson] and [activateScene] throw on a response that is not ok. *)
Definition http_error (res : Response) : string :=
  "HTTP " ++ status res ++ ": "
  ++ (match text res with "" => statusText res | t => t end).

Definition checked (o : Outcome) : string + Payload :=
  match o with
  | Rejected message => inl message
  | Fulfilled res => if ok res then inr (json res) else inl (http_error res)
  end.

(** A bare [fetch] only throws when it is rejected. *)
Definition unchecked (o : Outcome) : string + Payload :=
  match o with
  | Rejected message => inl message
  | Fulfilled res => inr (json res)
  end.

(** [Promise.all]: the values in array order, or the reason of a
    rejection.  The program gets the reason of the promise that is
    rejected first in time; here the promises of one [Promise.all] settle
    in array order, so that it is the reason of the first rejected one of
    the array.  What the theorems say of such a reason they say of some
    rejected promise, whichever it is. *)
Fixpoint Promise_all {A : Type} (settled : list (string + A)) : string + list A :=
  match settled with
  | [] => inr []
  | inl message :: _ => inl message
  | inr v :: rest =>
      match Promise_all rest with
      | inl message => inl message
      | inr vs => inr (v :: vs)
      end
  end.

Definition light_path (id : string) : string := "/clip/v2/resource/light/" ++ id.

(** The request of [activateScene(sceneId, sceneType)]. *)
Definition activateScene (sceneId sceneType : string) : Request :=
  let resourceType :=
    if String.eqb sceneType "smart_scene" then "smart_scene" else "scene" in
  let action :=
    if String.eqb sceneType "smart_scene" then "activate" else "active" in
  PUT ("/clip/v2/resource/" ++ resourceType ++ "/" ++ sceneId) (RecallBody action).

(** ** The state of [SceneList] *)

Record Scene : Type := {
  id : string;
  name : string;
  colors : list string;
  type : string
}.

Record State : Type := {
  scenes : list Scene;
  loading : bool;
  error : option string;
  selected : Z;
  message : string;
  setMode : bool;
  brightnessMode : bool;
  brightness : float;
  lights : list Light;
  lightsOn : bool
}.

Definition initial_state : State := {|
  scenes := [];
  loading := true;
  error := None;
  selected := 0;
  message := "";
  setMode := false;
  brightnessMode := false;
  brightness := 100;
  lights := [];
  lightsOn := false
|}.

Definition setScenes (v : list Scene) (s : State) : State :=
  {| scenes := v; loading := loading s; error := error s;
     selected := selected s; message := message s; setMode := setMode s;
     brightnessMode := brightnessMode s; brightness := brightness s;
     lights := lights s; lightsOn := lightsOn s |}.

Definition setLoading (v : bool) (s : State) : State :=
  {| scenes := scenes s; loading := v; error := error s;
     selected := selected s; message := message s; setMode := setMode s;
     brightnessMode := brightnessMode s; brightness := brightness s;
     lights := lights s; lightsOn := lightsOn s |}.

Definition setError (v : option string) (s : State) : State :=
  {| scenes := scenes s; loading := loading s; error := v;
     selected := selected s; message := message s; setMode := setMode s;
     brightnessMode := brightnessMode s; brightness := brightness s;
     lights := lights s; lightsOn := lightsOn s |}.

Definition setSelected (v : Z) (s : State) : State :=
  {| scenes := scenes s; loading := loading s; error := error s;
     selected := v; message := message s; setMode := setMode s;
     brightnessMode := brightnessMode s; brightness := brightness s;
     lights := lights s; lightsOn := lightsOn s |}.

Definition setMessage (v : string) (s : State) : State :=
  {| scenes := scenes s; loading := loading s; error := error s;
     selected := selected s; message := v; setMode := setMode s;
     brightnessMode := brightnessMode s; brightness := brightness s;
     lights := lights s; lightsOn := lightsOn s |}.

(** [setSetMode] and [setBrightnessMode] take the new value or, as in
    [setSetMode((m) => !m)], a function of the current one. *)
Definition setSetMode (f : bool -> bool) (s : State) : State :=
  {| scenes := scenes s; loading := loading s; error := error s;
     selected := selected s; message := message s; setMode := f (setMode s);
     brightnessMode := brightnessMode s; brightness := brightness s;
     lights := lights s; lightsOn := lightsOn s |}.

Definition setBrightnessMode (f : bool -> bool) (s : State) : State :=
  {| scenes := scenes s; loading := loading s; error := error s;
     selected := selected s; message := message s; setMode := setMode s;
     brightnessMode := f (brightnessMode s); brightness := brightness s;
     lights := lights s; lightsOn := lightsOn s |}.

Definition setBrightness (v : float) (s : State) : State :=
  {| scenes := scenes s; loading := loading s; error := error s;
     selected := selected s; message := message s; setMode := setMode s;
     brightnessMode := brightnessMode s; brightness := v;
     lights := lights s; lightsOn := lightsOn s |}.

Definition setLights (v : list Light) (s : State) : State :=
  {| scenes := scenes s; loading := loading s; error := error s;
     selected := selected s; message := message s; setMode := setMode s;
     brightnessMode := brightnessMode s; brightness := brightness s;
     lights := v; lightsOn := lightsOn s |}.

Definition setLightsOn (v : bool) (s : State) : State :=
  {| scenes := scenes s; loading := loading s; error := error s;
     selected := selected s; message := message s; setMode := setMode s;
     brightnessMode := brightnessMode s; brightness := brightness s;
     lights := lights s; lightsOn := v |}.

(** ** Asynchronous code *)

(** What a handler or an [async] function does, in order: calls of state
    setters, awaited [fetch]es (one [Promise.all] per [Await]; the
    continuation gets how each settled), awaited delays ([Sleep]: the
    timer behind [await new Promise((r) => setTimeout(r, ms))], which has
    fired when the task goes on), timers left running with a callback of
    their own ([SetTimeout]), and [exit()]. *)
Inductive Task : Type :=
| Done
| Update (setter : State -> State) (next : Task)
| Await (requests : list Request) (next : list Outcome -> Task)
| Sleep (ms : Z) (next : Task)
| SetTimeout (callback : Task) (ms : Z) (next : Task)
| Exit (next : Task).

Definition the_outcome (outcomes : list Outcome) : Outcome :=
  hd (Rejected "") outcomes.

(** [l.on?.on] as a condition. *)
Definition is_on (l : Light) : bool :=
  match on_on l with
  | Some true => true
  | _ => false
  end.

(** [l.dimming?.brightness ?? 100] *)
Definition brightness_or_100 (l : Light) : float :=
  match light_dimming_brightness l with
  | Some b => b
  | None => 100
  end.

Definition length_Number {A : Type} (l : list A) : float :=
  of_uint63 (Uint63.of_Z (Z.of_nat (List.length l))).

Definition averageBrightness (onLights : list Light) : float :=
  (fold_left (fun sum l => sum + brightness_or_100 l) onLights 0
   / length_Number onLights)%float.

(** [lightData?.data ?? []] *)
Definition lights_of (lightData : Payload) : list Light :=
  match lightData with
  | LightData (Some data) => data
  | _ => []
  end.

(** The code that stores a reloaded roster, written out twice in the
    source (in the load and in [doActivate]). *)
Definition storeLights (lightsArray : list Light) (next : Task) : Task :=
  Update (setLights lightsArray)
    (match lightsArray with
     | [] => next
     | _ =>
         let anyOn := existsb is_on lightsArray in
         Update (setLightsOn anyOn)
           (let onLights := filter is_on lightsArray in
            match onLights with
            | [] => next
            | _ => Update (setBrightness (averageBrightness onLights)) next
            end)
     end).

(** [Array.prototype.sort(compareFn)]: the order ECMAScript fixes for a
    consistent comparator, elements that compare equal keeping their
    order. *)
Section ArraySort.

Context {A : Type}.
Variable compareFn : A -> A -> Z.

Fixpoint sort_insert (x : A) (sorted : list A) : list A :=
  match sorted with
  | [] => [x]
  | y :: rest =>
      if (compareFn x y <=? 0)%Z then x :: sorted
      else y :: sort_insert x rest
  end.

Definition Array_sort (l : list A) : list A := fold_right sort_insert [] l.

End ArraySort.

(** ** The component *)

Record Key : Type := {
  upArrow : bool;
  downArrow : bool;
  return_ : bool;
  escape : bool
}.

(** [scenes[i]] *)
Definition at_index {A : Type} (l : list A) (i : Z) : option A :=
  if (i <? 0)%Z then None else nth_error l (Z.to_nat i).

Definition truthy {A : Type} (v : option A) : bool :=
  match v with
  | Some _ => true
  | None => false
  end.

(** [metadata?.name || "Untitled"] *)
Definition name_or_untitled (n : option string) : string :=
  match n with
  | None => "Untitled"
  | Some "" => "Untitled"
  | Some s => s
  end.

Section SceneList.

Variable libm_log : float -> float.
Variable libm_pow : float -> float -> float.

(** [String.prototype.localeCompare] in the locale of the process. *)
Variable localeCompare : string -> string -> Z.

Definition regularScenes (sceneData : Payload) : list Scene :=
  match sceneData with
  | SceneData (Some data) =>
      map (fun scene =>
             {| id := scene_id scene;
                name := name_or_untitled (metadata_name scene);
                colors := extractColors libm_log libm_pow scene;
                type := "scene" |})
          data
  | _ => []
  end.

Definition smartScenes (smartSceneData : Payload) : list Scene :=
  match smartSceneData with
  | SmartSceneData (Some data) =>
      map (fun scene =>
             {| id := smart_scene_id scene;
                name := name_or_untitled (smart_metadata_name scene);
                colors := ["#6366f1"; "#8b5cf6"];
                type := "smart_scene" |})
          data
  | _ => []
  end.

Definition sortScenes (allScenes : list Scene) : list Scene :=
  Array_sort (fun a b => localeCompare (name a) (name b)) allScenes.

(** The effect run once when the component mounts. *)
Definition load : Task :=
  Await [GET "/clip/v2/resource/scene";
         GET "/clip/v2/resource/smart_scene";
         GET "/clip/v2/resource/light"]
    (fun outcomes =>
       let scene := checked (nth 0 outcomes (Rejected "")) in
       let smart :=
         match checked (nth 1 outcomes (Rejected "")) with
         | inl _ => inr (SmartSceneData (Some []))
         | fulfilled => fulfilled
         end in
       let light := checked (nth 2 outcomes (Rejected "")) in
       match Promise_all [scene; smart; light] with
       | inr (sceneData :: smartSceneData :: lightData :: _) =>
           let allScenes :=
             (regularScenes sceneData ++ smartScenes smartSceneData)%list in
           Update (setScenes (sortScenes allScenes))
             (storeLights (lights_of lightData)
                (Update (setLoading false) Done))
       | inr _ => Update (setLoading false) Done
       | inl message =>
           Update (setError (Some message)) (Update (setLoading false) Done)
       end).

Definition reloadLights : Request := GET "/clip/v2/resource/light".

Definition doActivate (scene : option Scene) : Task :=
  match scene with
  | None => Done
  | Some scene =>
      Update (setMessage "")
        (Await [activateScene (id scene) (type scene)]
           (fun outcomes =>
              match checked (the_outcome outcomes) with
              | inl message =>
                  Update (setMessage ("Failed to activate: " ++ message)) Done
              | inr _ =>
                  Sleep 200
                    (Await [reloadLights]
                       (fun outcomes =>
                          match checked (the_outcome outcomes) with
                          | inl message =>
                              Update
                                (setMessage ("Failed to activate: " ++ message))
                                Done
                          | inr lightData =>
                              storeLights (lights_of lightData) Done
                          end))
              end))
  end.

(** The handlers below are closures of one render: [st] is the state
    that render saw. *)
Section Render.

Variable st : State.

Definition doSetBrightness (level : float) : Task :=
  let clampedLevel := Math.max 1 (Math.min 100 level) in
  Update (setBrightness clampedLevel)
    (Await (map (fun light =>
                   PUT (light_path (light_id light)) (DimmingBody clampedLevel))
                (lights st))
       (fun outcomes =>
          match Promise_all (map unchecked outcomes) with
          | inl message =>
              Update (setMessage ("Failed to set brightness: " ++ message)) Done
          | inr _ => Done
          end)).

Definition toggleAllLights : Task :=
  let anyLightsOn := existsb is_on (lights st) in
  let targetState := negb anyLightsOn in
  Await (map (fun light =>
                PUT (light_path (light_id light)) (OnBody targetState))
             (lights st))
    (fun outcomes =>
       match Promise_all (map unchecked outcomes) with
       | inl message =>
           Update (setMessage ("Failed to toggle lights: " ++ message)) Done
       | inr _ =>
           Await [reloadLights]
             (fun outcomes =>
                match checked (the_outcome outcomes) with
                | inl message =>
                    Update
                      (setMessage ("Failed to toggle lights: " ++ message))
                      Done
                | inr lightData =>
                    Update (setLights (lights_of lightData))
                      (Update (setLightsOn targetState)
                         (Update
                            (setMessage (if targetState then "On" else "Off"))
                            (SetTimeout (Update (setMessage "") Done) 2000
                               Done)))
                end)
       end).

(** The callback given to [useInput]. *)
Definition useInput (input : string) (key : Key) : Task :=
  if (escape key || String.eqb input "q")%bool then Exit Done
  else if (String.eqb input "s" || String.eqb input "S")%bool then
    Update (setSetMode negb) (Update (setBrightnessMode (fun _ => false)) Done)
  else if (String.eqb input "b" || String.eqb input "B")%bool then
    Update (setBrightnessMode negb) (Update (setSetMode (fun _ => false)) Done)
  else if (String.eqb input "o" || String.eqb input "O")%bool then
    toggleAllLights
  else if brightnessMode st then
    if upArrow key then doSetBrightness (brightness st + 1)%float
    else if downArrow key then doSetBrightness (brightness st - 1)%float
    else Done
  else if downArrow key then
    let newIdx :=
      Z.min (selected st + 1)
        (Z.max 0 (Z.of_nat (List.length (scenes st)) - 1)) in
    Update (setSelected newIdx)
      (if (setMode st && truthy (at_index (scenes st) newIdx))%bool
       then doActivate (at_index (scenes st) newIdx)
       else Done)
  else if upArrow key then
    let newIdx := Z.max (selected st - 1) 0 in
    Update (setSelected newIdx)
      (if (setMode st && truthy (at_index (scenes st) newIdx))%bool
       then doActivate (at_index (scenes st) newIdx)
       else Done)
  else if (return_ key && negb (Nat.eqb (List.length (scenes st)) 0))%bool then
    doActivate (at_index (scenes st) (selected st))
  else Done.

End Render.

End SceneList.

(** ** Running the component against a bridge *)

Section Runtime.

(** The bridge: a state and how it settles a request. *)
Variable B : Type.
Variable respond : B -> Request -> B * Outcome.

(** The component's state, the bridge, the requests sent so far, the
    timers that the tasks run so far have left running ([SetTimeout];
    an awaited delay is over when its task ends) and whether [exit()]
    was called.  A task runs to its end before the next event is taken:
    the runs of [step] are the runs of the program in which every event
    finds the earlier handlers settled and the component rendered.  An
    event after [exit()] does not occur in the program. *)
Record World : Type := {
  ui : State;
  bridge : B;
  sent : list Request;
  timers : list (Z * Task);
  exited : bool
}.

Fixpoint fetch_all (b : B) (requests : list Request) : B * list Outcome :=
  match requests with
  | [] => (b, [])
  | r :: rest =>
      let '(b1, o) := respond b r in
      let '(b2, os) := fetch_all b1 rest in
      (b2, o :: os)
  end.

Fixpoint run (t : Task) (w : World) : World :=
  match t with
  | Done => w
  | Update setter next =>
      run next
        {| ui := setter (ui w); bridge := bridge w; sent := sent w;
           timers := timers w; exited := exited w |}
  | Await requests next =>
      let '(b, outcomes) := fetch_all (bridge w) requests in
      run (next outcomes)
        {| ui := ui w; bridge := b; sent := (sent w ++ requests)%list;
           timers := timers w; exited := exited w |}
  | Sleep _ next => run next w
  | SetTimeout callback ms next =>
      run next
        {| ui := ui w; bridge := bridge w; sent := sent w;
           timers := (timers w ++ [(ms, callback)])%list; exited := exited w |}
  | Exit next =>
      run next
        {| ui := ui w; bridge := bridge w; sent := sent w;
           timers := timers w; exited := true |}
  end.

Definition boot (b : B) : World :=
  {| ui := initial_state; bridge := b; sent := []; timers := [];
     exited := false |}.

Inductive Event : Type :=
| KeyPress (input : string) (key : Key)
| TimerFires.

Definition step (w : World) (e : Event) : World :=
  match e with
  | KeyPress input key => run (useInput (ui w) input key) w
  | TimerFires =>
      match timers w with
      | [] => w
      | (_, callback) :: rest =>
          run callback
            {| ui := ui w; bridge := bridge w; sent := sent w;
               timers := rest; exited := exited w |}
      end
  end.

Definition steps (w : World) (events : list Event) : World :=
  fold_left step events w.

(** Key presses that can come before the component has rendered again:
    a key press is taken by the handler of the last render, a closure
    of the state [fst c] that this render saw, and [Rerender] brings
    the handler up to date with the state.  [step] is a key press
    after a render. *)
Inductive Input : Type :=
| Press (input : string) (key : Key)
| Rerender.

Definition take (c : State * World) (i : Input) : State * World :=
  match i with
  | Press input key => (fst c, run (useInput (fst c) input key) (snd c))
  | Rerender => (ui (snd c), snd c)
  end.

Definition takes (c : State * World) (inputs : list Input)
  : State * World :=
  fold_left take inputs c.

End Runtime.

Arguments ui {B} _.
Arguments bridge {B} _.
Arguments sent {B} _.
Arguments timers {B} _.
Arguments exited {B} _.
Arguments fetch_all {B} respond b requests.
Arguments run {B} respond t w.
Arguments step {B} respond w e.
Arguments steps {B} respond w events.
Arguments take {B} respond c i.
Arguments takes {B} respond c inputs.
Arguments boot {B} b.

(** What the state is before any [fetch] of the task settles. *)
Fixpoint immediately (t : Task) (s : State) : State :=
  match t with
  | Update setter next => immediately next (setter s)
  | SetTimeout _ _ next => immediately next s
  | Exit next => immediately next s
  | Done | Await _ _ | Sleep _ _ => s
  end.

(** ** Presentation *)

Inductive View : Type :=
| LoadingView
| ErrorView (error : string)
| NoScenesView
| ScenesView (hint : string) (level : float) (adjusting : bool)
    (status : option string) (rows : list (bool * Scene)).

Fixpoint rows_from (idx : Z) (selected : Z) (l : list Scene)
  : list (bool * Scene) :=
  match l with
  | [] => []
  | scene :: rest => (Z.eqb idx selected, scene) :: rows_from (idx + 1) selected rest
  end.

Definition render (s : State) : View :=
  if loading s then LoadingView
  else
    match error s with
    | Some (String c e) => ErrorView (String c e)
    | _ =>
        match scenes s with
        | [] => NoScenesView
        | _ =>
            ScenesView
              (if brightnessMode s then "brightness"
               else if setMode s then "sets active" else "to move")
              (brightness s)
              (brightnessMode s)
              (if brightnessMode s then None
               else Some (match message s with
                          | "" => if lightsOn s then "On" else "Off"
                          | m => m
                          end))
              (rows_from 0 (selected s) (scenes s))
        end
    end.

(** [Swatches]: the colours given to [Gradient], a single colour being
    given twice. *)
Definition gradientColors (colors : list string) : list string :=
  if Nat.ltb (List.length colors) 2 then (colors ++ colors)%list else colors.

(** [ToIntegerOrInfinity] of a Number: the fraction dropped, NaN read as
    0. *)
Definition ToIntegerOrInfinity (x : float) : Number.integral :=
  match Prim2SF x with
  | S754_nan => Number.Int 0
  | S754_zero _ => Number.Int 0
  | S754_infinity s => Number.Inf s
  | S754_finite s m e =>
      let n :=
        match e with
        | Zneg p => (Zpos m / Z.pow_pos 2 p)%Z
        | _ => (Zpos m * 2 ^ e)%Z
        end in
      Number.Int (if s then (- n)%Z else n)
  end.

(** The Number that an integral Number is, for the arithmetic that
    follows a [Math.round]: every result of [Math.round] is a double, so
    the conversion is exact on it (the sign of a zero apart). *)
Definition Number_of_integral (v : Number.integral) : float :=
  match v with
  | Number.NaN => nan
  | Number.Inf true => neg_infinity
  | Number.Inf false => infinity
  | Number.Int z => SF2Prim (binary_normalize prec emax z 0 false)
  end.

(** [s.repeat(count)]: a RangeError, here [None], for a count that is
    negative or infinite. *)
Definition String_repeat (s : string) (count : float) : option string :=
  match ToIntegerOrInfinity count with
  | Number.Int n =>
      if (n <? 0)%Z then None
      else Some (String.concat "" (List.repeat s (Z.to_nat n)))
  | _ => None
  end.

(** What [BrightnessBar] draws: the filled cells, the empty cells and the
    Number in front of the percent sign. *)
Record Bar : Type := {
  filled_cells : string;
  empty_cells : string;
  percent : Number.integral
}.

(** The two cell texts, as the source has them. *)
Definition filled_cell : string := "â–ˆ".
Definition empty_cell : string := "â–‘".

(** [BrightnessBar]; [None] when a [repeat] throws. *)
Definition BrightnessBar (level : float) : option Bar :=
  let barWidth := 20%float in
  let filled := Number_of_integral (Math.round (level / 100 * barWidth)%float) in
  let empty := (barWidth - filled)%float in
  match String_repeat filled_cell filled, String_repeat empty_cell empty with
  | Some f, Some e =>
      Some {| filled_cells := f; empty_cells := e; percent := Math.round level |}
  | _, _ => None
  end.

(** The keys as [ink] reports them. *)
Definition no_key : Key :=
  {| upArrow := false; downArrow := false; return_ := false; escape := false |}.
Definition up_key : Key :=
  {| upArrow := true; downArrow := false; return_ := false; escape := false |}.
Definition down_key : Key :=
  {| upArrow := false; downArrow := true; return_ := false; escape := false |}.
Definition letter (c : string) : Event := KeyPress c no_key.
Definition up : Event := KeyPress "" up_key.
Definition down : Event := KeyPress "" down_key.

(** The arrow of a press: up when [true], down when [false]. *)
Definition arrow (upwards : bool) : Event := if upwards then up else down.
Definition arrow_key (upwards : bool) : Key :=
  if upwards then up_key else down_key.

(** An arrow key, or a render where there is none. *)
Definition arrow_or_render (a : option bool) : Input :=
  match a with
  | Some upwards => Press "" (arrow_key upwards)
  | None => Rerender
  end.

(** ** Vocabulary of the statements *)

(** [v === 0] *)
Definition strictly_zero (v : JSValue) : bool :=
  match v with
  | JSNumber n => (n =? 0)%float
  | _ => false
  end.

(** [v <= 0] for a Number [v] *)
Definition at_most_zero (v : JSValue) : bool :=
  match v with
  | JSNumber n => (n <=? 0)%float
  | _ => false
  end.

(** The two lowercase hexadecimal digits of a byte. *)
Definition hex2 (n : Z) : string :=
  String (Number.hex_digit (Z.to_N (n / 16)))
    (String (Number.hex_digit (Z.to_N (n mod 16))) EmptyString).

Definition is_lower_hex (c : ascii) : bool :=
  let n := nat_of_ascii c in
  ((Nat.leb 48 n && Nat.leb n 57) || (Nat.leb 97 n && Nat.leb n 102))%bool.

(** A colour value: [#] and six lowercase hexadecimal digits. *)
Definition is_color (s : string) : bool :=
  match s with
  | String "#" digits =>
      (Nat.eqb (String.length digits) 6
       && forallb is_lower_hex (list_ascii_of_string digits))%bool
  | _ => false
  end.

(** What a channel is written as: two hexadecimal digits, or [NaN]. *)
Definition channel_text (c : string) : Prop :=
  c = "NaN" \/ exists n, (0 <= n <= 255)%Z /\ c = hex2 n.

(** What a colour is written as: [#] and three channels. *)
Definition channels (s : string) : Prop :=
  exists r g b,
    s = "#" ++ r ++ g ++ b
    /\ channel_text r /\ channel_text g /\ channel_text b.

(** The colours among the results of the conversions: the no-colour
    results dropped. *)
Definition present (results : list (option string)) : list string :=
  flat_map (fun r => match r with
                     | Some (String c s) => [String c s]
                     | _ => []
                     end)
           results.

(** Deduplication that is blind to case and keeps what is seen first, read
    from the end: the last colour stays when none before it has its
    letters. *)
Fixpoint first_seen_rev (r : list string) : list string :=
  match r with
  | [] => []
  | x :: before =>
      if Set_has (JSString.toLowerCase x) (map JSString.toLowerCase before)
      then first_seen_rev before
      else x :: first_seen_rev before
  end.

Definition first_seen (l : list string) : list string :=
  rev (first_seen_rev (rev l)).

(** The same from the front, given the keys seen so far. *)
Fixpoint dedupe_from (seen : list string) (l : list string) : list string :=
  match l with
  | [] => []
  | x :: rest =>
      let key := JSString.toLowerCase x in
      if Set_has key seen then dedupe_from seen rest
      else x :: dedupe_from (key :: seen) rest
  end.

(** A run of the program: the events that arrive before the load has
    settled, the load, the events after it. *)
Definition session (libm_log : float -> float) (libm_pow : float -> float -> float)
    (localeCompare : string -> string -> Z) {B : Type}
    (respond : B -> Request -> B * Outcome) (b : B)
    (early late : list Event) : World B :=
  steps respond
    (run respond (load libm_log libm_pow localeCompare)
       (steps respond (boot b) early))
    late.

(** The callback of the timer [toggleAllLights] sets. *)
Definition clear_message : Task := Update (setMessage "") Done.

(** No setter that the task calls changes the part [part] of the state. *)
Fixpoint keeps {A : Type} (part : State -> A) (t : Task) : Prop :=
  match t with
  | Done => True
  | Update setter next => (forall s, part (setter s) = part s) /\ keeps part next
  | Await _ next => forall outcomes, keeps part (next outcomes)
  | Sleep _ next => keeps part next
  | SetTimeout _ _ next => keeps part next
  | Exit next => keeps part next
  end.

(** Every timer that the task sets has the callback [clear_message]. *)
Fixpoint tidy (t : Task) : Prop :=
  match t with
  | Done => True
  | Update _ next => tidy next
  | Await _ next => forall outcomes, tidy (next outcomes)
  | Sleep _ next => tidy next
  | SetTimeout callback _ next => callback = clear_message /\ tidy next
  | Exit next => tidy next
  end.

Definition tidy_world {B : Type} (w : World B) : Prop :=
  Forall (fun timer => snd timer = clear_message) (timers w).

(** The two mode flags. *)
Definition modes (s : State) : bool * bool := (setMode s, brightnessMode s).

(** What the cursor ranges over. *)
Definition cursor (s : State) : Z * list Scene := (selected s, scenes s).

(** The mode flags as a machine of their own: what an event does to the
    pair ([set], [brightness]). *)
Definition mode_step (m : bool * bool) (e : Event) : bool * bool :=
  match e with
  | KeyPress input key =>
      if (escape key || String.eqb input "q")%bool then m
      else if (String.eqb input "s" || String.eqb input "S")%bool then
        (negb (fst m), false)
      else if (String.eqb input "b" || String.eqb input "B")%bool then
        (false, negb (snd m))
      else m
  | TimerFires => m
  end.

(** The cursor is on a scene, or at 0 when there is none. *)
Definition valid_cursor (s : State) : Prop :=
  (0 <= selected s <= Z.max 0 (Z.of_nat (List.length (scenes s)) - 1))%Z.


(** The fields that show a failed load. *)
Definition failure (s : State) : option string * bool := (error s, loading s).

(** The task never calls [exit()]. *)
Fixpoint stays (t : Task) : Prop :=
  match t with
  | Done => True
  | Update _ next => stays next
  | Await _ next => forall outcomes, stays (next outcomes)
  | Sleep _ next => stays next
  | SetTimeout _ _ next => stays next
  | Exit _ => False
  end.

(** Every request that the task sends is one of [P]. *)
Fixpoint asks (P : Request -> Prop) (t : Task) : Prop :=
  match t with
  | Done => True
  | Update _ next => asks P next
  | Await requests next =>
      Forall P requests /\ forall outcomes, asks P (next outcomes)
  | Sleep _ next => asks P next
  | SetTimeout _ _ next => asks P next
  | Exit next => asks P next
  end.

(** The key presses that end the program. *)
Definition is_quit (e : Event) : bool :=
  match e with
  | KeyPress input key => (escape key || String.eqb input "q")%bool
  | TimerFires => false
  end.

Definition return_key : Key :=
  {| upArrow := false; downArrow := false; return_ := true; escape := false |}.
Definition enter : Event := KeyPress "" return_key.

(** A scene as the load lists it: a regular scene with the colours of
    [extractColors], or a smart scene with the two placeholders. *)
Definition listed (libm_log : float -> float) (libm_pow : float -> float -> float)
    (sc : Scene) : Prop :=
  (type sc = "scene"
   /\ exists record, id sc = scene_id record
                     /\ colors sc = extractColors libm_log libm_pow record)
  \/ (type sc = "smart_scene" /\ colors sc = ["#6366f1"; "#8b5cf6"]).

(** The requests of the program: the three listings, a light switched or
    dimmed to a level within 1..100, and the recall of a scene of the list
    at the resource of its kind. *)
Definition expected_request (l : list Scene) (r : Request) : Prop :=
  In r [GET "/clip/v2/resource/scene"; GET "/clip/v2/resource/smart_scene";
        GET "/clip/v2/resource/light"]
  \/ (exists i on, r = PUT (light_path i) (OnBody on))
  \/ (exists i level,
        r = PUT (light_path i) (DimmingBody level)
        /\ (1 <=? level)%float = true /\ (level <=? 100)%float = true)
  \/ (exists sc,
        In sc l
        /\ ((type sc = "scene"
             /\ r = PUT ("/clip/v2/resource/scene/" ++ id sc) (RecallBody "active"))
            \/ (type sc = "smart_scene"
                /\ r = PUT ("/clip/v2/resource/smart_scene/" ++ id sc)
                         (RecallBody "activate")))).

(** [x] is a Number that is not negative and at most the integer [c]. *)
Definition below (c : Z) (x : spec_float) : Prop :=
  match x with
  | S754_zero _ => True
  | S754_finite false m e => (e <= 0)%Z /\ (Zpos m <= c * 2 ^ (- e))%Z
  | _ => False
  end.

(** A level within 0..100. *)
Definition in_range (v : float) : bool := ((0 <=? v) && (v <=? 100))%float.

(** A light whose level, when it has one, is within 0..100, as the schema
    of the bridge has it. *)
Definition schema_light (l : Light) : Prop :=
  match light_dimming_brightness l with
  | Some v => in_range v = true
  | None => True
  end.

(** A reply that, when it lists lights, lists fewer than [2 ^ 32] of them
    with levels within 0..100. *)
Definition schema_outcome (o : Outcome) : Prop :=
  forall payload,
    checked o = inr payload ->
    Forall schema_light (lights_of payload)
    /\ (Z.of_nat (List.length (lights_of payload)) < 2 ^ 32)%Z.

Definition schema_bridge {B : Type} (respond : B -> Request -> B * Outcome)
  : Prop :=
  forall (b : B) (r : Request), schema_outcome (snd (respond b r)).

(** The setters that the task calls keep [P], when what the [fetch]es
    settle with is [good]. *)
Fixpoint maintains (good : Outcome -> Prop) (P : State -> Prop) (t : Task)
  : Prop :=
  match t with
  | Done => True
  | Update setter next =>
      (forall s, P s -> P (setter s)) /\ maintains good P next
  | Await _ next =>
      forall outcomes, Forall good outcomes -> maintains good P (next outcomes)
  | Sleep _ next => maintains good P next
  | SetTimeout _ _ next => maintains good P next
  | Exit next => maintains good P next
  end.

(** The texts the message takes: none, the power after a toggle, or the
    report of a failure with its reason. *)
Definition status_text (m : string) : Prop :=
  m = "" \/ m = "On" \/ m = "Off"
  \/ exists reason,
       m = "Failed to activate: " ++ reason
       \/ m = "Failed to set brightness: " ++ reason
       \/ m = "Failed to toggle lights: " ++ reason.

(** ** A bridge for the examples

    A bridge that holds scenes and lights and does what it is asked: it
    lists its resources, switches and dims the light a [PUT] names, and
    accepts a recall.  A listing it does not have ([None]) is answered
    with 404. *)

Record Hub : Type := {
  hub_scenes : option (list SceneRecord);
  hub_smart_scenes : option (list SmartSceneRecord);
  hub_lights : list Light
}.

Definition response_ok (payload : Payload) : Outcome :=
  Fulfilled {| ok := true; status := "200"; statusText := "OK"; text := "";
               json := payload |}.

Definition response_not_found : Outcome :=
  Fulfilled {| ok := false; status := "404"; statusText := "Not Found";
               text := ""; json := OtherData |}.

Definition hub_put (path : string) (body : Body) (l : Light) : Light :=
  if String.eqb (light_path (light_id l)) path then
    match body with
    | OnBody on =>
        {| light_id := light_id l; on_on := Some on;
           light_dimming_brightness := light_dimming_brightness l |}
    | DimmingBody level =>
        {| light_id := light_id l; on_on := on_on l;
           light_dimming_brightness := Some level |}
    | RecallBody _ => l
    end
  else l.

Definition hub_respond (h : Hub) (r : Request) : Hub * Outcome :=
  match r with
  | GET path =>
      if String.eqb path "/clip/v2/resource/scene" then
        match hub_scenes h with
        | Some data => (h, response_ok (SceneData (Some data)))
        | None => (h, response_not_found)
        end
      else if String.eqb path "/clip/v2/resource/smart_scene" then
        match hub_smart_scenes h with
        | Some data => (h, response_ok (SmartSceneData (Some data)))
        | None => (h, response_not_found)
        end
      else if String.eqb path "/clip/v2/resource/light" then
        (h, response_ok (LightData (Some (hub_lights h))))
      else (h, response_not_found)
  | PUT path body =>
      ({| hub_scenes := hub_scenes h;
          hub_smart_scenes := hub_smart_scenes h;
          hub_lights := map (hub_put path body) (hub_lights h) |},
       response_ok OtherData)
  end.

(** A bridge that cannot be reached: every [fetch] is rejected. *)
Definition unreachable (b : unit) (r : Request) : unit * Outcome :=
  (b, Rejected "fetch failed").

(** A bridge that answers every request with the status 500. *)
Definition refusing (b : unit) (r : Request) : unit * Outcome :=
  (b, Fulfilled {| ok := false; status := "500";
                   statusText := "Internal Server Error"; text := "";
                   json := OtherData |}).

(** A bridge that does as [hub_respond] does, but is out of reach for
    every recall of a scene. *)
Definition no_recall (h : Hub) (r : Request) : Hub * Outcome :=
  match r with
  | PUT _ (RecallBody _) => (h, Rejected "fetch failed")
  | _ => hub_respond h r
  end.

(** A bridge that answers as [h] does and takes no orders. *)
Definition idle (h : Hub) (b : unit) (r : Request) : unit * Outcome :=
  (b, snd (hub_respond h r)).

Definition named_scene (i n : string) : SceneRecord :=
  {| scene_id := i; metadata_name := Some n; palette := None; actions := None |}.

(** A comparison of strings by their code units, for the examples: the
    order [localeCompare] gives to unaccented words of one case. *)
Fixpoint compare_code_units (a b : string) : Z :=
  match a, b with
  | EmptyString, EmptyString => 0
  | EmptyString, String _ _ => -1
  | String _ _, EmptyString => 1
  | String x a', String y b' =>
      let d := (Z.of_nat (nat_of_ascii x) - Z.of_nat (nat_of_ascii y))%Z in
      if (d =? 0)%Z then compare_code_units a' b' else d
  end.

Definition example_light (i : string) (on : bool) (level : float) : Light :=
  {| light_id := i; on_on := Some on; light_dimming_brightness := Some level |}.

(** Two scenes listed out of order, one light on at 40 and one off. *)
Definition example_hub : Hub :=
  {| hub_scenes := Some [named_scene "1" "Evening"; named_scene "2" "Bright"];
     hub_smart_scenes := None;
     hub_lights := [example_light "a" true 40; example_light "b" false 70] |}.

(** All lights off, dimmed to 50. *)
Definition dark_hub : Hub :=
  {| hub_scenes := Some [named_scene "1" "Evening"];
     hub_smart_scenes := Some [];
     hub_lights := [example_light "a" false 50; example_light "b" false 50] |}.


(** Two scenes and a smart scene. *)
Definition cinema_hub : Hub :=
  {| hub_scenes := Some [named_scene "1" "Evening"; named_scene "2" "Bright"];
     hub_smart_scenes :=
       Some [{| smart_scene_id := "3"; smart_metadata_name := Some "Cinema" |}];
     hub_lights := [example_light "a" true 40] |}.

(** Two lights on whose levels are what [JSON.parse] makes of [1e999] and
    of [-1e999]. *)
Definition glare_hub : Hub :=
  {| hub_scenes := Some [named_scene "1" "Evening"];
     hub_smart_scenes := Some [];
     hub_lights := [example_light "a" true infinity;
                    example_light "b" true neg_infinity] |}.

(** A bridge whose scene listing fails. *)
Definition broken_hub : Hub :=
  {| hub_scenes := None;
     hub_smart_scenes := Some [];
     hub_lights := [example_light "a" true 40] |}.

Definition example_session (h : Hub) (events : list Event) : World Hub :=
  session Libm.log Libm.pow compare_code_units hub_respond h [] events.

(** ** Tactics *)

(** Goals [keeps part t] and [tidy t] for the tasks of the component. *)
Ltac task_cases :=
  repeat (simpl; intros;
          match goal with
          | |- _ /\ _ => split
          | |- True => exact I
          | |- _ = _ => reflexivity
          | |- context [match ?x with _ => _ end] => destruct x
          end).

(** * Properties *)

(** ** Comparisons of Numbers *)

Section FloatFacts.

Lemma SFcompare_antisym (x y : spec_float) :
  SFcompare y x = option_map CompOpp (SFcompare x y).
Proof.
  destruct x as [sx|sx| |sx mx ex], y as [sy|sy| |sy my ey]; simpl;
    try destruct sx; try destruct sy; try reflexivity;
    rewrite (Z.compare_antisym ex ey); destruct (ex ?= ey)%Z; simpl;
    try reflexivity;
    change (Pos.compare_cont Eq my mx) with (Pos.compare my mx);
    change (Pos.compare_cont Eq mx my) with (Pos.compare mx my);
    rewrite (Pos.compare_antisym mx my);
    destruct (Pos.compare mx my); reflexivity.
Qed.

Lemma ltb_asym (x y : float) : (x <? y)%float = true -> (y <? x)%float = false.
Proof.
  rewrite !ltb_spec. unfold SFltb. rewrite (SFcompare_antisym (Prim2SF x) (Prim2SF y)).
  destruct (SFcompare (Prim2SF x) (Prim2SF y)) as [[]|]; simpl; congruence.
Qed.

Lemma ltb_leb (x y : float) : (x <? y)%float = true -> (x <=? y)%float = true.
Proof.
  rewrite ltb_spec, leb_spec. unfold SFltb, SFleb.
  destruct (SFcompare (Prim2SF x) (Prim2SF y)) as [[]|]; simpl; congruence.
Qed.

Lemma ltb_not_leb (x y : float) : (x <? y)%float = true -> (y <=? x)%float = false.
Proof.
  rewrite ltb_spec, leb_spec. unfold SFltb, SFleb.
  rewrite (SFcompare_antisym (Prim2SF x) (Prim2SF y)).
  destruct (SFcompare (Prim2SF x) (Prim2SF y)) as [[]|]; simpl; congruence.
Qed.

Lemma is_nan_spec (x : float) : is_nan x = true <-> Prim2SF x = S754_nan.
Proof.
  unfold is_nan. rewrite eqb_spec. unfold SFeqb.
  destruct (Prim2SF x) as [s|s| |s m e]; simpl; try destruct s; simpl;
    try (split; congruence).
  - rewrite Z.compare_refl, Pos.compare_cont_refl. simpl. split; congruence.
  - rewrite Z.compare_refl, Pos.compare_cont_refl. simpl. split; congruence.
Qed.

(** Two Numbers neither of which is NaN compare one way or the other. *)
Lemma not_leb_ltb (x y : float) :
  is_nan x = false -> is_nan y = false ->
  (x <=? y)%float = false -> (y <? x)%float = true.
Proof.
  intros Hx Hy. rewrite ltb_spec, leb_spec. unfold SFltb, SFleb.
  rewrite (SFcompare_antisym (Prim2SF x) (Prim2SF y)).
  assert (Prim2SF x <> S754_nan) by (rewrite <- is_nan_spec; congruence).
  assert (Prim2SF y <> S754_nan) by (rewrite <- is_nan_spec; congruence).
  destruct (SFcompare (Prim2SF x) (Prim2SF y)) as [[]|] eqn:E; simpl;
    try congruence.
  destruct (Prim2SF x) as [sx|sx| |sx mx ex], (Prim2SF y) as [sy|sy| |sy my ey];
    simpl in E; congruence.
Qed.

End FloatFacts.

(** ** Operations that do not produce NaN *)

Section RoundingFacts.

Lemma shr_1_nonneg (mrs : shr_record) :
  (0 <= shr_m mrs)%Z -> (0 <= shr_m (shr_1 mrs))%Z.
Proof.
  destruct mrs as [m r s]. destruct m as [|p|p]; simpl; intros H;
    try destruct p; simpl; lia.
Qed.

Lemma iter_shr_1_nonneg (p : positive) :
  forall mrs, (0 <= shr_m mrs)%Z -> (0 <= shr_m (iter_pos shr_1 p mrs))%Z.
Proof.
  induction p as [p IH|p IH|]; simpl; intros mrs H.
  - apply IH, IH, shr_1_nonneg, H.
  - apply IH, IH, H.
  - apply shr_1_nonneg, H.
Qed.

Lemma shr_fexp_nonneg (m e : Z) (l : location) :
  (0 <= m)%Z -> (0 <= shr_m (fst (shr_fexp prec emax m e l)))%Z.
Proof.
  intros H. unfold shr_fexp, shr.
  assert (H0 : (0 <= shr_m (shr_record_of_loc m l))%Z)
    by (destruct l as [|[]]; simpl; exact H).
  destruct (fexp prec emax (Zdigits2 m + e) - e)%Z; simpl;
    auto using iter_shr_1_nonneg.
Qed.

Lemma round_nearest_even_nonneg (m : Z) (l : location) :
  (0 <= m)%Z -> (0 <= round_nearest_even m l)%Z.
Proof.
  intros H. destruct l as [|[]]; simpl; try lia.
  destruct (Z.even m); lia.
Qed.

Lemma binary_round_aux_not_nan (s : bool) (m e : Z) (l : location) :
  (0 <= m)%Z -> binary_round_aux prec emax s m e l <> S754_nan.
Proof.
  intros H. unfold binary_round_aux.
  pose proof (shr_fexp_nonneg m e l H) as H1.
  destruct (shr_fexp prec emax m e l) as [mrs' e']. simpl in H1.
  pose proof
    (shr_fexp_nonneg
       (round_nearest_even (shr_m mrs') (loc_of_shr_record mrs')) e' loc_Exact
       (round_nearest_even_nonneg _ _ H1)) as H2.
  destruct (shr_fexp prec emax
              (round_nearest_even (shr_m mrs') (loc_of_shr_record mrs')) e'
              loc_Exact) as [mrs'' e''].
  simpl in H2. destruct (shr_m mrs''); try lia; try discriminate.
  destruct (e'' <=? emax - prec)%Z; discriminate.
Qed.

Lemma binary_normalize_not_nan (m e : Z) (szero : bool) :
  binary_normalize prec emax m e szero <> S754_nan.
Proof.
  unfold binary_normalize, binary_round.
  destruct m as [|p|p]; try discriminate.
  - destruct (shl_align p e (fexp prec emax (Z.pos (digits2_pos p) + e))).
    apply binary_round_aux_not_nan. lia.
  - destruct (shl_align p e (fexp prec emax (Z.pos (digits2_pos p) + e))).
    apply binary_round_aux_not_nan. lia.
Qed.

Lemma SFdiv_finite_not_nan (x y : spec_float) :
  x <> S754_nan -> y <> S754_nan ->
  (exists s m e, x = S754_finite s m e) \/ (exists s m e, y = S754_finite s m e) ->
  SF64div x y <> S754_nan.
Proof.
  intros Hx Hy Hfin. unfold SF64div, SFdiv.
  destruct x as [sx|sx| |sx mx ex], y as [sy|sy| |sy my ey];
    try congruence; try discriminate;
    try (destruct Hfin as [(?&?&?&?)|(?&?&?&?)]; discriminate).
  unfold SFdiv_core_binary.
  set (m' := match _ with Z0 => Z.pos mx | Zpos _ => _ | Zneg _ => 0%Z end).
  assert (Hm' : (0 <= m')%Z).
  { subst m'. destruct (_ - _ - _)%Z; try lia. apply Z.shiftl_nonneg. lia. }
  pose proof (Z_div_mod m' (Z.pos my) eq_refl) as Hdiv.
  destruct (Z.div_eucl m' (Z.pos my)) as [q r].
  apply binary_round_aux_not_nan. nia.
Qed.

Lemma SFadd_finite_not_nan (x : spec_float) (s : bool) (m : positive) (e : Z) :
  x <> S754_nan -> SF64add x (S754_finite s m e) <> S754_nan.
Proof.
  intros Hx. unfold SF64add, SFadd.
  destruct x as [sx|sx| |sx mx ex]; try congruence; try discriminate.
  apply binary_normalize_not_nan.
Qed.

Lemma SFsub_finite_not_nan (x : spec_float) (s : bool) (m : positive) (e : Z) :
  x <> S754_nan -> SF64sub x (S754_finite s m e) <> S754_nan.
Proof.
  intros Hx. unfold SF64sub, SFsub.
  destruct x as [sx|sx| |sx mx ex]; try congruence; try discriminate.
  apply binary_normalize_not_nan.
Qed.

Lemma is_nan_false (x : float) : is_nan x = false <-> Prim2SF x <> S754_nan.
Proof.
  rewrite <- is_nan_spec. destruct (is_nan x); split; congruence.
Qed.

Lemma ltb_not_nan_r (x y : float) : (x <? y)%float = true -> is_nan y = false.
Proof.
  rewrite ltb_spec, is_nan_false. unfold SFltb. intros H E. rewrite E in H.
  destruct (Prim2SF x); discriminate.
Qed.

(** [1000000 / mirek / 100] is a Number for a positive [mirek]. *)
Lemma temp_not_nan (mirek : float) :
  (0 <? mirek)%float = true -> is_nan (1000000 / mirek / 100)%float = false.
Proof.
  intros H. apply ltb_not_nan_r in H. rewrite is_nan_false in *.
  rewrite !div_spec. apply SFdiv_finite_not_nan.
  - apply SFdiv_finite_not_nan; [discriminate | exact H |].
    left. vm_compute. eauto.
  - discriminate.
  - right. vm_compute. eauto.
Qed.

Lemma add_one_not_nan (b : float) : is_nan b = false -> is_nan (b + 1)%float = false.
Proof.
  rewrite !is_nan_false, add_spec. intros H.
  change (Prim2SF 1) with (S754_finite false 4503599627370496 (-52)).
  apply SFadd_finite_not_nan, H.
Qed.

Lemma sub_one_not_nan (b : float) : is_nan b = false -> is_nan (b - 1)%float = false.
Proof.
  rewrite !is_nan_false, sub_spec. intros H.
  change (Prim2SF 1) with (S754_finite false 4503599627370496 (-52)).
  apply SFsub_finite_not_nan, H.
Qed.

End RoundingFacts.

(** ** The product with 255 *)

Section ByteFacts.

Lemma digits2_size (p : positive) : digits2_pos p = Pos.size p.
Proof. induction p; simpl; congruence. Qed.

Lemma digits2_gt (p : positive) : (Zpos p < 2 ^ Zpos (digits2_pos p))%Z.
Proof.
  rewrite digits2_size. pose proof (Pos.size_gt p) as H.
  apply Pos2Z.pos_lt_pos in H. rewrite Pos2Z.inj_pow in H. exact H.
Qed.

Lemma digits2_le_of_lt (p : positive) (k : Z) :
  (0 <= k)%Z -> (Zpos p < 2 ^ k)%Z -> (Zpos (digits2_pos p) <= k)%Z.
Proof.
  intros Hk H. rewrite digits2_size.
  pose proof (Pos.size_le p) as L.
  apply Pos2Z.pos_le_pos in L. rewrite Pos2Z.inj_pow in L.
  change (Zpos p~0) with (2 * Zpos p)%Z in L.
  destruct (Z_lt_le_dec k (Zpos (Pos.size p))) as [C|C]; [| exact C].
  exfalso.
  assert (2 ^ (k + 1) <= 2 ^ Zpos (Pos.size p))%Z
    by (apply Z.pow_le_mono_r; lia).
  rewrite Z.pow_add_r in H0 by lia. lia.
Qed.

Lemma shr_1_div (mrs : shr_record) :
  (0 <= shr_m mrs)%Z -> shr_m (shr_1 mrs) = (shr_m mrs / 2)%Z.
Proof.
  destruct mrs as [m r s]. simpl. intros H.
  destruct m as [|p|p]; [reflexivity | | lia].
  destruct p as [p|p|]; simpl.
  - rewrite Pos2Z.inj_xI. apply Z.div_unique with 1%Z; lia.
  - rewrite Pos2Z.inj_xO. apply Z.div_unique with 0%Z; lia.
  - reflexivity.
Qed.

Lemma pow2_xI (p : positive) :
  (2 ^ Zpos p~1 = 2 * (2 ^ Zpos p * 2 ^ Zpos p))%Z.
Proof.
  assert (E : (Zpos p~1 = 1 + Zpos p + Zpos p)%Z) by lia.
  rewrite E, !Z.pow_add_r by lia. change (2 ^ 1)%Z with 2%Z. ring.
Qed.

Lemma pow2_xO (p : positive) : (2 ^ Zpos p~0 = 2 ^ Zpos p * 2 ^ Zpos p)%Z.
Proof.
  assert (E : (Zpos p~0 = Zpos p + Zpos p)%Z) by lia.
  rewrite E, Z.pow_add_r by lia. reflexivity.
Qed.

Lemma iter_shr_1_div (p : positive) :
  forall mrs, (0 <= shr_m mrs)%Z ->
    shr_m (iter_pos shr_1 p mrs) = (shr_m mrs / 2 ^ Zpos p)%Z.
Proof.
  induction p as [p IH|p IH|]; intros mrs H; simpl iter_pos.
  - rewrite IH by (apply iter_shr_1_nonneg, shr_1_nonneg, H).
    rewrite IH by (apply shr_1_nonneg, H).
    rewrite shr_1_div by exact H.
    rewrite !Z.div_div by lia. rewrite pow2_xI. reflexivity.
  - rewrite IH by (apply iter_shr_1_nonneg, H).
    rewrite IH by exact H.
    rewrite !Z.div_div by lia. rewrite pow2_xO. reflexivity.
  - rewrite shr_1_div by exact H. reflexivity.
Qed.

Lemma Zdigits2_le (m k : Z) :
  (0 <= m)%Z -> (0 <= k)%Z -> (m < 2 ^ k)%Z -> (Zdigits2 m <= k)%Z.
Proof.
  intros Hm Hk H. destruct m as [|p|p]; simpl; [exact Hk | | lia].
  apply digits2_le_of_lt; assumption.
Qed.

Lemma round_nearest_even_le (m : Z) (l : location) :
  (round_nearest_even m l <= m + 1)%Z.
Proof. destruct l as [|[]]; simpl; try lia. destruct (Z.even m); lia. Qed.

Lemma pow2_split (a b : Z) :
  (0 <= a)%Z -> (0 <= b)%Z -> (2 ^ (a + b) = 2 ^ a * 2 ^ b)%Z.
Proof. intros. apply Z.pow_add_r; assumption. Qed.

(** [fexp] of a mantissa below [255 * 2 ^ (- e)]. *)
Lemma fexp_below (m e : Z) :
  (0 <= m)%Z -> (e <= 0)%Z -> (m < 256 * 2 ^ (- e))%Z ->
  (fexp prec emax (Zdigits2 m + e) <= 0)%Z.
Proof.
  intros Hm He H.
  assert (D : (Zdigits2 m <= 8 - e)%Z).
  { apply Zdigits2_le; [exact Hm | lia |].
    replace (8 - e)%Z with (8 + - e)%Z by lia.
    rewrite Z.pow_add_r by lia. change (2 ^ 8)%Z with 256%Z. exact H. }
  unfold fexp, emin, prec, emax. lia.
Qed.

(** One [shr_fexp]: a mantissa at most [255 * 2 ^ (- e)] stays so. *)
Lemma shr_fexp_below (m e : Z) (l : location) (strict : bool) :
  (0 <= m)%Z -> (e <= 0)%Z ->
  (if strict then m < 255 * 2 ^ (- e) else m <= 255 * 2 ^ (- e))%Z ->
  let r := shr_fexp prec emax m e l in
  (0 <= shr_m (fst r))%Z /\ (snd r <= 0)%Z
  /\ (if strict then shr_m (fst r) < 255 * 2 ^ (- snd r)
      else shr_m (fst r) <= 255 * 2 ^ (- snd r))%Z.
Proof.
  intros Hm He H r.
  assert (H256 : (m < 256 * 2 ^ (- e))%Z).
  { assert (0 < 2 ^ (- e))%Z by (apply Z.pow_pos_nonneg; lia).
    destruct strict; lia. }
  pose proof (fexp_below m e Hm He H256) as F.
  split; [apply shr_fexp_nonneg, Hm |].
  subst r. unfold shr_fexp, shr in *.
  set (f := fexp prec emax (Zdigits2 m + e)) in *.
  assert (S0 : shr_m (shr_record_of_loc m l) = m) by (destruct l as [|[]]; reflexivity).
  destruct (f - e)%Z as [|p|p] eqn:E; cbn [fst snd].
  - rewrite S0. split; [exact He | exact H].
  - rewrite iter_shr_1_div by (rewrite S0; exact Hm). rewrite S0.
    replace (e + Z.pos p)%Z with f by lia.
    split; [exact F |].
    assert (P : (2 ^ (- e) = 2 ^ Z.pos p * 2 ^ (- f))%Z).
    { rewrite <- Z.pow_add_r by lia. f_equal. lia. }
    assert (0 < 2 ^ Z.pos p)%Z by (apply Z.pow_pos_nonneg; lia).
    destruct strict.
    + apply Z.div_lt_upper_bound; [assumption |]. rewrite P in H. lia.
    + apply Z.div_le_upper_bound; [assumption |]. rewrite P in H. lia.
  - rewrite S0. split; [exact He | exact H].
Qed.

(** Rounding a value below 255 gives zero or a Number at most 255. *)
Lemma binary_round_aux_below (m e : Z) :
  (0 <= m)%Z -> (e <= 0)%Z -> (m < 255 * 2 ^ (- e))%Z ->
  binary_round_aux prec emax false m e loc_Exact = S754_zero false
  \/ exists m' e',
      binary_round_aux prec emax false m e loc_Exact = S754_finite false m' e'
      /\ (e' <= 0)%Z /\ (Z.pos m' <= 255 * 2 ^ (- e'))%Z.
Proof.
  intros Hm He H. unfold binary_round_aux.
  pose proof (shr_fexp_below m e loc_Exact true Hm He H) as (A1 & A2 & A3).
  cbv zeta in A1, A2, A3.
  destruct (shr_fexp prec emax m e loc_Exact) as [mrs' e']. cbn [fst snd] in *.
  set (m1 := round_nearest_even (shr_m mrs') (loc_of_shr_record mrs')).
  assert (B1 : (0 <= m1)%Z) by (apply round_nearest_even_nonneg, A1).
  assert (B2 : (m1 <= 255 * 2 ^ (- e'))%Z)
    by (pose proof (round_nearest_even_le (shr_m mrs') (loc_of_shr_record mrs'));
        subst m1; lia).
  pose proof (shr_fexp_below m1 e' loc_Exact false B1 A2 B2) as (C1 & C2 & C3).
  cbv zeta in C1, C2, C3.
  destruct (shr_fexp prec emax m1 e' loc_Exact) as [mrs'' e'']. cbn [fst snd] in *.
  destruct (shr_m mrs'') as [|p|p]; [left; reflexivity | right | lia].
  exists p, e''.
  replace (e'' <=? emax - prec)%Z with true
    by (symmetry; apply Z.leb_le; unfold emax, prec; lia).
  auto.
Qed.

(** A valid mantissa has at most 53 bits. *)
Lemma valid_mantissa (s : bool) (m : positive) (e : Z) :
  valid_binary (S754_finite s m e) = true -> (Z.pos m < 2 ^ 53)%Z.
Proof.
  unfold valid_binary, bounded, canonical_mantissa, fexp, emin, prec, emax.
  intros H. apply andb_true_iff in H. destruct H as [H _].
  apply Z.eqb_eq in H.
  pose proof (digits2_gt m) as G.
  assert (D : (Z.pos (digits2_pos m) <= 53)%Z) by lia.
  eapply Z.lt_le_trans; [exact G |]. apply Z.pow_le_mono_r; lia.
Qed.

Lemma SFleb_finite (m c : positive) (e ec : Z) :
  SFleb (S754_finite false m e) (S754_finite false c ec) = true ->
  (e < ec)%Z \/ (e = ec /\ Z.pos m <= Z.pos c)%Z.
Proof.
  unfold SFleb. cbn [SFcompare].
  destruct (e ?= ec)%Z eqn:C.
  - apply Z.compare_eq in C. intros H. right. split; [exact C |].
    destruct (PosDef.Pos.compare_cont Eq m c) eqn:Q; try discriminate.
    + apply Pos.compare_eq in Q. subst. lia.
    + apply (proj1 (Pos.compare_lt_iff m c)) in Q. lia.
  - intros _. left. apply Z.compare_lt_iff in C. exact C.
  - discriminate.
Qed.

(** [Math.round(v * 255)] is a byte for [v] between 0 and 1. *)
Lemma round_times_255 (v : float) :
  (0 <=? v)%float = true -> (v <=? 1)%float = true ->
  exists z, Math.round (v * 255)%float = Number.Int z /\ (0 <= z <= 255)%Z.
Proof.
  rewrite !leb_spec. intros H0 H1.
  pose proof (Prim2SF_valid v) as V.
  unfold Math.round. rewrite mul_spec.
  change (Prim2SF 255) with (S754_finite false 8972014882652160 (-45)).
  change (Prim2SF 0) with (S754_zero false) in H0.
  change (Prim2SF 1) with (S754_finite false 4503599627370496 (-52)) in H1.
  destruct (Prim2SF v) as [s|s| |s m e] eqn:E.
  - exists 0%Z. split; [reflexivity | lia].
  - destruct s; discriminate.
  - discriminate.
  - assert (s = false) by (destruct s; [discriminate | reflexivity]). subst s.
    assert (Hm : (Z.pos m < 2 ^ 53)%Z) by (eapply valid_mantissa, V).
    apply SFleb_finite in H1.
    assert (Cases : (Z.pos m < 2 ^ (- e))%Z \/ (e = -52 /\ Z.pos m = 2 ^ 52)%Z).
    { destruct H1 as [C | [C1 C2]].
      - left. eapply Z.lt_le_trans; [exact Hm |].
        apply Z.pow_le_mono_r; lia.
      - subst e. change (2 ^ (- -52))%Z with (Z.pos 4503599627370496).
        change (2 ^ 52)%Z with (Z.pos 4503599627370496). lia. }
    destruct Cases as [C | (C1 & C2)].
    + unfold SF64mul, SFmul. cbn [xorb].
      destruct (binary_round_aux_below (Z.pos (m * 8972014882652160)) (e + -45))
        as [-> | (m' & e' & -> & R1 & R2)].
      * lia.
      * destruct H1; lia.
      * replace (- (e + -45))%Z with (45 + - e)%Z by lia.
        rewrite Z.pow_add_r by (destruct H1; lia).
        change (2 ^ 45)%Z with 35184372088832%Z.
        rewrite Pos2Z.inj_mul. nia.
      * exists 0%Z. split; [reflexivity | lia].
      * destruct e' as [|p|p]; [| lia |].
        -- exists (Z.pos m' * 2 ^ 0)%Z. split; [reflexivity |].
           change (2 ^ (- 0))%Z with 1%Z in R2. lia.
        -- exists ((2 * Z.pos m' + Z.pow_pos 2 p) / Z.pow_pos 2 (p + 1))%Z.
           split; [reflexivity |].
           change (- Z.neg p)%Z with (Z.pos p) in R2.
           change (Z.pow_pos 2 p) with (2 ^ Z.pos p)%Z.
           change (Z.pow_pos 2 (p + 1)) with (2 ^ Z.pos (p + 1))%Z.
           rewrite Pos2Z.inj_add, Z.pow_add_r by lia. change (2 ^ 1)%Z with 2%Z.
           assert (0 < 2 ^ Z.pos p)%Z by (apply Z.pow_pos_nonneg; lia).
           split.
           ++ apply Z.div_pos; lia.
           ++ apply Z.lt_succ_r. apply Z.div_lt_upper_bound; lia.
    + subst e. apply Pos2Z.inj in C2 || idtac.
      assert (m = 4503599627370496%positive) by lia. subst m.
      exists 255%Z. split; [vm_compute; reflexivity | lia].
Qed.

End ByteFacts.

(** ** Numbers between 0 and a bound *)

Section BoundFacts.

Lemma loc_of_shr_record_of_loc (m : Z) (l : location) :
  loc_of_shr_record (shr_record_of_loc m l) = l.
Proof. destruct l as [|[]]; reflexivity. Qed.

Lemma shr_m_of_loc (m : Z) (l : location) : shr_m (shr_record_of_loc m l) = m.
Proof. destruct l as [|[]]; reflexivity. Qed.

Lemma shr_1_exact (k : Z) :
  (0 <= k)%Z ->
  shr_1 {| shr_m := 2 * k; shr_r := false; shr_s := false |}
  = {| shr_m := k; shr_r := false; shr_s := false |}.
Proof. destruct k as [|p|p]; intros H; [reflexivity | reflexivity | lia]. Qed.

Lemma iter_shr_1_exact (p : positive) :
  forall k : Z,
    (0 <= k)%Z ->
    iter_pos shr_1 p {| shr_m := k * 2 ^ Zpos p; shr_r := false; shr_s := false |}
    = {| shr_m := k; shr_r := false; shr_s := false |}.
Proof.
  induction p as [p IH|p IH|]; intros k H; cbn [iter_pos].
  - rewrite pow2_xI.
    replace (k * (2 * (2 ^ Z.pos p * 2 ^ Z.pos p)))%Z
      with (2 * (k * 2 ^ Z.pos p * 2 ^ Z.pos p))%Z by ring.
    assert (0 < 2 ^ Z.pos p)%Z by (apply Z.pow_pos_nonneg; lia).
    rewrite shr_1_exact by nia. rewrite IH by nia. apply IH, H.
  - rewrite pow2_xO.
    replace (k * (2 ^ Z.pos p * 2 ^ Z.pos p))%Z
      with (k * 2 ^ Z.pos p * 2 ^ Z.pos p)%Z by ring.
    assert (0 < 2 ^ Z.pos p)%Z by (apply Z.pow_pos_nonneg; lia).
    rewrite IH by nia. apply IH, H.
  - change (2 ^ 1)%Z with 2%Z. rewrite Z.mul_comm. apply shr_1_exact, H.
Qed.

Variable c : Z.
Hypothesis c_nonneg : (0 <= c)%Z.
Hypothesis c_small : (c < 2 ^ 53)%Z.

Lemma fexp_le_0 (m e : Z) :
  (0 <= m)%Z -> (e <= 0)%Z -> (m <= c * 2 ^ (- e))%Z ->
  (fexp prec emax (Zdigits2 m + e) <= 0)%Z.
Proof.
  intros Hm He H.
  assert (P : (0 < 2 ^ (- e))%Z) by (apply Z.pow_pos_nonneg; lia).
  assert (D : (Zdigits2 m <= 53 - e)%Z).
  { apply Zdigits2_le; [exact Hm | lia |].
    replace (53 - e)%Z with (53 + - e)%Z by lia.
    rewrite Z.pow_add_r by lia. nia. }
  unfold fexp, emin, prec, emax. lia.
Qed.

Lemma shr_fexp_le (m e : Z) (l : location) :
  (0 <= m)%Z -> (e <= 0)%Z ->
  (m < c * 2 ^ (- e) \/ (m = c * 2 ^ (- e) /\ l = loc_Exact))%Z ->
  let r := shr_fexp prec emax m e l in
  (0 <= shr_m (fst r))%Z /\ (snd r <= 0)%Z
  /\ (shr_m (fst r) < c * 2 ^ (- snd r)
      \/ (shr_m (fst r) = c * 2 ^ (- snd r)
          /\ loc_of_shr_record (fst r) = loc_Exact))%Z.
Proof.
  intros Hm He H r.
  assert (Hle : (m <= c * 2 ^ (- e))%Z) by (destruct H as [H | [H _]]; lia).
  pose proof (fexp_le_0 m e Hm He Hle) as F.
  split; [apply shr_fexp_nonneg, Hm |].
  subst r. unfold shr_fexp, shr in *.
  set (f := fexp prec emax (Zdigits2 m + e)) in *.
  destruct (f - e)%Z as [|p|p] eqn:E; cbn [fst snd].
  - rewrite shr_m_of_loc, loc_of_shr_record_of_loc. split; [exact He | exact H].
  - replace (e + Z.pos p)%Z with f by lia.
    split; [exact F |].
    assert (P : (2 ^ (- e) = 2 ^ Z.pos p * 2 ^ (- f))%Z).
    { rewrite <- Z.pow_add_r by lia. f_equal. lia. }
    assert (0 < 2 ^ Z.pos p)%Z by (apply Z.pow_pos_nonneg; lia).
    assert (0 < 2 ^ (- f))%Z by (apply Z.pow_pos_nonneg; lia).
    destruct H as [H | [H ->]].
    + left. rewrite iter_shr_1_div by (rewrite shr_m_of_loc; exact Hm).
      rewrite shr_m_of_loc.
      apply Z.div_lt_upper_bound; [assumption |]. rewrite P in H. lia.
    + right. cbn [shr_record_of_loc].
      replace m with (c * 2 ^ (- f) * 2 ^ Z.pos p)%Z by (rewrite H, P; ring).
      rewrite iter_shr_1_exact by nia. split; reflexivity.
  - rewrite shr_m_of_loc, loc_of_shr_record_of_loc. split; [exact He | exact H].
Qed.

Lemma round_nearest_even_bound (mrs : shr_record) (bound : Z) :
  (0 <= shr_m mrs)%Z ->
  (shr_m mrs < bound
   \/ (shr_m mrs = bound /\ loc_of_shr_record mrs = loc_Exact))%Z ->
  (0 <= round_nearest_even (shr_m mrs) (loc_of_shr_record mrs) <= bound)%Z.
Proof.
  intros H0 H. split; [apply round_nearest_even_nonneg, H0 |].
  destruct H as [H | [H ->]]; [| simpl; lia].
  pose proof (round_nearest_even_le (shr_m mrs) (loc_of_shr_record mrs)). lia.
Qed.

(** Rounding a value that is at most [c] gives a Number at most [c]. *)
Lemma binary_round_aux_le (m e : Z) (l : location) :
  (0 <= m)%Z -> (e <= 0)%Z ->
  (m < c * 2 ^ (- e) \/ (m = c * 2 ^ (- e) /\ l = loc_Exact))%Z ->
  below c (binary_round_aux prec emax false m e l).
Proof.
  intros Hm He H. unfold binary_round_aux.
  pose proof (shr_fexp_le m e l Hm He H) as (A1 & A2 & A3).
  cbv zeta in A1, A2, A3.
  destruct (shr_fexp prec emax m e l) as [mrs' e']. cbn [fst snd] in *.
  pose proof (round_nearest_even_bound mrs' _ A1 A3) as [B1 B2].
  set (m1 := round_nearest_even (shr_m mrs') (loc_of_shr_record mrs')) in *.
  assert (B3 : (m1 < c * 2 ^ (- e')
                \/ (m1 = c * 2 ^ (- e') /\ loc_Exact = loc_Exact))%Z).
  { destruct (Z_lt_le_dec m1 (c * 2 ^ (- e'))) as [L|L]; [left; exact L |].
    right. split; [lia | reflexivity]. }
  pose proof (shr_fexp_le m1 e' loc_Exact B1 A2 B3) as (C1 & C2 & C3).
  cbv zeta in C1, C2, C3.
  destruct (shr_fexp prec emax m1 e' loc_Exact) as [mrs'' e'']. cbn [fst snd] in *.
  destruct (shr_m mrs'') as [|p|p]; [exact I | | lia].
  replace (e'' <=? emax - prec)%Z with true
    by (symmetry; apply Z.leb_le; unfold emax, prec; lia).
  simpl. split; [exact C2 | lia].
Qed.

End BoundFacts.

Section OperationFacts.

Lemma below_mono (a c : Z) (x : spec_float) :
  (a <= c)%Z -> below a x -> below c x.
Proof.
  intros H. destruct x as [s|s| |[] m e]; simpl; try tauto.
  intros [He Hm]. split; [exact He |].
  assert (0 < 2 ^ (- e))%Z by (apply Z.pow_pos_nonneg; lia). nia.
Qed.

Lemma below_not_nan (c : Z) (x : spec_float) : below c x -> x <> S754_nan.
Proof. destruct x; simpl; try discriminate. tauto. Qed.

Lemma pow2_pos (n : Z) : (0 <= n)%Z -> (0 < 2 ^ n)%Z.
Proof. intros H. apply Z.pow_pos_nonneg; lia. Qed.

(** The product with a Number that is at most [cy]. *)
Lemma SFmul_below (a cy : Z) (x : spec_float) (my : positive) (ey : Z) :
  (0 <= a)%Z -> (0 <= cy)%Z -> (a * cy < 2 ^ 53)%Z ->
  below a x ->
  (ey <= 0)%Z -> (Zpos my <= cy * 2 ^ (- ey))%Z ->
  below (a * cy) (SF64mul x (S754_finite false my ey)).
Proof.
  intros Ha Hc Hs Hx He Hy. unfold SF64mul, SFmul.
  destruct x as [s|s| |[] mx ex]; simpl in Hx; try tauto; try exact I.
  destruct Hx as [Hex Hmx]. cbn [xorb].
  apply binary_round_aux_le; try lia.
  pose proof (pow2_pos (- ex) ltac:(lia)). pose proof (pow2_pos (- ey) ltac:(lia)).
  assert (L : (Z.pos (mx * my) <= a * cy * 2 ^ (- (ex + ey)))%Z).
  { replace (- (ex + ey))%Z with (- ex + - ey)%Z by lia.
    rewrite Z.pow_add_r by lia. rewrite Pos2Z.inj_mul. nia. }
  destruct (Z_lt_le_dec (Z.pos (mx * my)) (a * cy * 2 ^ (- (ex + ey)))) as [C|C];
    [left; exact C | right; split; [lia | reflexivity]].
Qed.

Lemma new_location_exact (n : Z) : new_location n 0 = loc_Exact.
Proof.
  unfold new_location, new_location_even, new_location_odd.
  destruct (Z.even n); reflexivity.
Qed.

(** The quotient by a Number that is exactly [cy]. *)
Lemma SFdiv_below (a cy : Z) (x : spec_float) (my : positive) (ey : Z) :
  (0 <= a)%Z -> (a < 2 ^ 53)%Z -> (1 <= cy)%Z ->
  below (a * cy) x ->
  (ey <= 0)%Z -> Zpos my = (cy * 2 ^ (- ey))%Z ->
  below a (SF64div x (S754_finite false my ey)).
Proof.
  intros Ha Hs Hc Hx He Hy. unfold SF64div, SFdiv.
  destruct x as [s|s| |[] mx ex]; simpl in Hx; try tauto; try exact I.
  destruct Hx as [Hex Hmx]. unfold SFdiv_core_binary.
  set (d1 := Zdigits2 (Z.pos mx)). set (d2 := Zdigits2 (Z.pos my)).
  set (e' := Z.min (fexp prec emax (d1 + ex - (d2 + ey))) (ex - ey)).
  set (s := (ex - ey - e')%Z).
  pose proof (pow2_pos (- ex) ltac:(lia)) as Pex.
  pose proof (pow2_pos (- ey) ltac:(lia)) as Pey.
  assert (D : (d1 + ex - (d2 + ey) <= 53)%Z).
  { pose proof (digits2_gt my) as G. fold (Zdigits2 (Z.pos my)) in G. fold d2 in G.
    assert (D2 : (0 < d2)%Z) by (subst d2; simpl; lia).
    pose proof (pow2_pos d2 ltac:(lia)) as Pd2.
    assert (T1 : (Z.pos mx * 2 ^ (- ey) <= a * Z.pos my * 2 ^ (- ex))%Z)
      by (rewrite Hy; nia).
    assert (T2 : (a * Z.pos my < 2 ^ 53 * 2 ^ d2)%Z).
    { apply Z.le_lt_trans with (a * 2 ^ d2)%Z; [nia |].
      apply Z.mul_lt_mono_pos_r; assumption. }
    assert (T3 : (Z.pos mx * 2 ^ (- ey) < 2 ^ (53 + d2 - ex))%Z).
    { replace (53 + d2 - ex)%Z with (53 + d2 + - ex)%Z by lia.
      rewrite !Z.pow_add_r by lia.
      eapply Z.le_lt_trans; [exact T1 |].
      apply Z.mul_lt_mono_pos_r; assumption. }
    destruct (Z_lt_le_dec (53 + d2 + ey - ex) 0) as [K|K].
    - exfalso.
      assert (2 ^ (53 + d2 - ex) <= 2 ^ (- ey))%Z
        by (apply Z.pow_le_mono_r; lia).
      nia.
    - assert (Z.pos mx < 2 ^ (53 + d2 + ey - ex))%Z.
      { apply Z.mul_lt_mono_pos_r with (2 ^ (- ey))%Z; [assumption |].
        rewrite <- (Z.pow_add_r 2 (53 + d2 + ey - ex)) by lia.
        replace (53 + d2 + ey - ex + - ey)%Z with (53 + d2 - ex)%Z by lia.
        exact T3. }
      assert (d1 <= 53 + d2 + ey - ex)%Z
        by (apply Zdigits2_le; [lia | lia | assumption]).
      lia. }
  assert (E' : (e' <= 0)%Z).
  { subst e'. unfold fexp, emin, prec, emax. lia. }
  assert (S0 : (0 <= s)%Z) by (subst s e'; lia).
  set (m' := match s with
             | 0%Z => Z.pos mx
             | Z.pos _ => Z.shiftl (Z.pos mx) s
             | Z.neg _ => 0%Z
             end).
  assert (M' : m' = (Z.pos mx * 2 ^ s)%Z).
  { subst m'. destruct s as [|p|p] eqn:Es; [rewrite Z.mul_1_r; reflexivity | | lia].
    apply Z.shiftl_mul_pow2. lia. }
  pose proof (Z_div_mod m' (Z.pos my) eq_refl) as Hdiv.
  destruct (Z.div_eucl m' (Z.pos my)) as [q r]. destruct Hdiv as [Hq Hr].
  pose proof (pow2_pos s S0) as Ps. pose proof (pow2_pos (- e') ltac:(lia)) as Pe'.
  assert (X : (2 ^ (- ex) * 2 ^ s = 2 ^ (- ey) * 2 ^ (- e'))%Z).
  { rewrite <- !Z.pow_add_r by lia. f_equal. subst s. lia. }
  assert (Bound : (m' <= Z.pos my * (a * 2 ^ (- e')))%Z).
  { rewrite M', Hy.
    replace (cy * 2 ^ (- ey) * (a * 2 ^ (- e')))%Z
      with (a * cy * (2 ^ (- ey) * 2 ^ (- e')))%Z by ring.
    rewrite <- X. nia. }
  assert (Q0 : (0 <= q)%Z) by nia.
  assert (Q : (q <= a * 2 ^ (- e'))%Z) by nia.
  cbn [xorb]. apply binary_round_aux_le; try lia.
  destruct (Z_lt_le_dec q (a * 2 ^ (- e'))) as [C|C]; [left; exact C |].
  right. split; [lia |].
  assert (r = 0%Z) by nia. subst r. apply new_location_exact.
Qed.

Lemma shl_align_spec (m : positive) (e e' : Z) :
  let r := shl_align m e e' in
  (snd r <= e)%Z /\ (e' <= e -> snd r = e')%Z
  /\ Z.pos (fst r) = (Z.pos m * 2 ^ (e - snd r))%Z.
Proof.
  unfold shl_align. destruct (e' - e)%Z as [|p|p] eqn:E; cbn [fst snd].
  - rewrite Z.sub_diag. simpl. split; [lia |]. split; lia.
  - rewrite Z.sub_diag. simpl. split; [lia |]. split; lia.
  - split; [lia |]. split; [lia |].
    change (Pos.iter xO m p) with (shift_pos p m).
    rewrite shift_pos_correct. replace (e - e')%Z with (Z.pos p) by lia.
    rewrite Z.mul_comm. reflexivity.
Qed.

(** Rounding [p * 2 ^ e] when it is at most [c]. *)
Lemma binary_round_below (c : Z) (p : positive) (e : Z) :
  (0 <= c)%Z -> (c < 2 ^ 53)%Z ->
  (e <= 0)%Z -> (Z.pos p <= c * 2 ^ (- e))%Z ->
  below c (binary_round prec emax false p e).
Proof.
  intros Hc Hs He Hp. unfold binary_round.
  pose proof (shl_align_spec p e (fexp prec emax (Z.pos (digits2_pos p) + e)))
    as (A1 & _ & A3).
  cbv zeta in A1, A3.
  destruct (shl_align p e _) as [mz ez]. cbn [fst snd] in *.
  pose proof (pow2_pos (- e) ltac:(lia)). pose proof (pow2_pos (e - ez) ltac:(lia)).
  assert (L : (Z.pos mz <= c * 2 ^ (- ez))%Z).
  { replace (- ez)%Z with (- e + (e - ez))%Z by lia.
    rewrite Z.pow_add_r by lia. rewrite A3. nia. }
  apply binary_round_aux_le; try lia.
  destruct (Z_lt_le_dec (Z.pos mz) (c * 2 ^ (- ez))) as [C|C];
    [left; exact C | right; split; [lia | reflexivity]].
Qed.

(** The sum of two Numbers that are at most [a] and at most [c]. *)
Lemma SFadd_below (a c : Z) (x y : spec_float) :
  (0 <= a)%Z -> (0 <= c)%Z -> (a + c < 2 ^ 53)%Z ->
  below a x -> below c y -> below (a + c) (SF64add x y).
Proof.
  intros Ha Hc Hs Hx Hy. unfold SF64add, SFadd.
  destruct x as [sx|sx| |[] mx ex]; simpl in Hx; try tauto;
    destruct y as [sy|sy| |[] my ey]; simpl in Hy; try tauto.
  - destruct sx, sy; exact I.
  - apply (below_mono c); [lia | exact Hy].
  - apply (below_mono a); [lia | exact Hx].
  - destruct Hx as [Hex Hmx], Hy as [Hey Hmy].
    set (ez := Z.min ex ey).
    pose proof (shl_align_spec mx ex ez) as (_ & X2 & X3).
    pose proof (shl_align_spec my ey ez) as (_ & Y2 & Y3).
    cbv zeta in X2, X3, Y2, Y3.
    rewrite X2 in X3 by (subst ez; lia). rewrite Y2 in Y3 by (subst ez; lia).
    cbn [cond_Zopp]. cbn [Z.add binary_normalize].
    apply binary_round_below; try lia; try (subst ez; lia).
    rewrite Pos2Z.inj_add, X3, Y3.
    pose proof (pow2_pos (- ex) ltac:(lia)). pose proof (pow2_pos (- ey) ltac:(lia)).
    pose proof (pow2_pos (ex - ez) ltac:(subst ez; lia)).
    pose proof (pow2_pos (ey - ez) ltac:(subst ez; lia)).
    assert (P1 : (2 ^ (- ez) = 2 ^ (- ex) * 2 ^ (ex - ez))%Z).
    { rewrite <- Z.pow_add_r by (subst ez; lia). f_equal. lia. }
    assert (P2 : (2 ^ (- ez) = 2 ^ (- ey) * 2 ^ (ey - ez))%Z).
    { rewrite <- Z.pow_add_r by (subst ez; lia). f_equal. lia. }
    replace ((a + c) * 2 ^ (- ez))%Z
      with (a * (2 ^ (- ex) * 2 ^ (ex - ez)) + c * (2 ^ (- ey) * 2 ^ (ey - ez)))%Z
      by (rewrite <- P1, <- P2; ring).
    nia.
Qed.

(** [Math.round] of a Number that is at most [c]. *)
Lemma below_round (c : Z) (v : float) :
  (0 <= c)%Z -> below c (Prim2SF v) ->
  exists z, Math.round v = Number.Int z /\ (0 <= z <= c)%Z.
Proof.
  intros Hc H. unfold Math.round.
  destruct (Prim2SF v) as [s|s| |[] m e]; simpl in H; try tauto.
  - exists 0%Z. split; [reflexivity | lia].
  - destruct H as [He Hm]. destruct e as [|p|p]; [| lia |].
    + exists (Z.pos m * 2 ^ 0)%Z. split; [reflexivity |].
      change (2 ^ (- 0))%Z with 1%Z in Hm. lia.
    + exists ((2 * Z.pos m + Z.pow_pos 2 p) / Z.pow_pos 2 (p + 1))%Z.
      split; [reflexivity |].
      change (- Z.neg p)%Z with (Z.pos p) in Hm.
      change (Z.pow_pos 2 p) with (2 ^ Z.pos p)%Z.
      change (Z.pow_pos 2 (p + 1)) with (2 ^ Z.pos (p + 1))%Z.
      rewrite Pos2Z.inj_add, Z.pow_add_r by lia. change (2 ^ 1)%Z with 2%Z.
      assert (0 < 2 ^ Z.pos p)%Z by (apply Z.pow_pos_nonneg; lia).
      split.
      * apply Z.div_pos; lia.
      * apply Z.lt_succ_r. apply Z.div_lt_upper_bound; nia.
Qed.

End OperationFacts.

Section RangeFacts.

Lemma digits2_lower (p : positive) :
  (2 ^ (Z.pos (digits2_pos p) - 1) <= Z.pos p)%Z.
Proof.
  rewrite digits2_size. pose proof (Pos.size_le p) as L.
  apply Pos2Z.pos_le_pos in L. rewrite Pos2Z.inj_pow in L.
  change (Z.pos p~0) with (2 * Z.pos p)%Z in L.
  replace (Z.pos (Pos.size p)) with (1 + (Z.pos (Pos.size p) - 1))%Z in L by lia.
  rewrite Z.pow_add_r in L by lia. change (2 ^ 1)%Z with 2%Z in L. lia.
Qed.

(** A valid mantissa above the least exponent has 53 bits. *)
Lemma valid_normal (s : bool) (m : positive) (e : Z) :
  valid_binary (S754_finite s m e) = true -> (emin < e)%Z ->
  (2 ^ 52 <= Z.pos m)%Z.
Proof.
  unfold valid_binary, bounded, canonical_mantissa, fexp.
  intros H He. apply andb_true_iff in H. destruct H as [H _].
  apply Z.eqb_eq in H.
  assert (D : Z.pos (digits2_pos m) = 53%Z) by (unfold prec in *; lia).
  pose proof (digits2_lower m) as L. rewrite D in L. exact L.
Qed.

Lemma compare_cont_Eq (m c : positive) :
  PosDef.Pos.compare_cont Eq m c = Pos.compare m c.
Proof. reflexivity. Qed.

Variable c : Z.
Variable mc : positive.
Variable ec : Z.
Hypothesis ec_range : (emin <= ec <= 0)%Z.
Hypothesis mc_value : Z.pos mc = (c * 2 ^ (- ec))%Z.
Hypothesis mc_normal : (2 ^ 52 <= Z.pos mc < 2 ^ 53)%Z.

Lemma leb_below (v : float) :
  SFleb (S754_zero false) (Prim2SF v) = true ->
  SFleb (Prim2SF v) (S754_finite false mc ec) = true ->
  below c (Prim2SF v).
Proof.
  intros H0 H1. pose proof (Prim2SF_valid v) as V.
  destruct (Prim2SF v) as [s|s| |s m e]; try discriminate;
    [exact I | destruct s; discriminate |].
  assert (s = false) by (destruct s; [discriminate | reflexivity]). subst s.
  assert (Hm : (Z.pos m < 2 ^ 53)%Z) by (eapply valid_mantissa, V).
  apply SFleb_finite in H1. simpl.
  destruct H1 as [C | [C1 C2]].
  - split; [lia |].
    assert (P : (2 ^ (- e) = 2 ^ (- ec) * 2 ^ (ec - e))%Z).
    { rewrite <- Z.pow_add_r by lia. f_equal. lia. }
    assert (2 ^ 1 <= 2 ^ (ec - e))%Z by (apply Z.pow_le_mono_r; lia).
    change (2 ^ 1)%Z with 2%Z in *.
    rewrite P. change (2 ^ 53)%Z with (2 * 2 ^ 52)%Z in Hm.
    assert (0 < 2 ^ (- ec))%Z by (apply Z.pow_pos_nonneg; lia).
    assert (0 <= c)%Z by nia. nia.
  - subst e. split; [lia |]. lia.
Qed.

Lemma below_leb (v : float) :
  below c (Prim2SF v) ->
  SFleb (S754_zero false) (Prim2SF v) = true
  /\ SFleb (Prim2SF v) (S754_finite false mc ec) = true.
Proof.
  intros H. pose proof (Prim2SF_valid v) as V.
  destruct (Prim2SF v) as [s|s| |[] m e]; simpl in H; try tauto;
    try (split; reflexivity).
  destruct H as [He Hm]. split; [reflexivity |].
  unfold SFleb. cbn [SFcompare].
  destruct (e ?= ec)%Z eqn:C; [| reflexivity |].
  - apply Z.compare_eq in C. subst e. rewrite compare_cont_Eq.
    destruct (Pos.compare_spec m mc) as [E|L|G]; try reflexivity.
    apply Pos2Z.pos_lt_pos in G. lia.
  - exfalso. apply Z.compare_gt_iff in C.
    pose proof (valid_normal false m e V ltac:(lia)) as N.
    assert (P : (2 ^ (- ec) = 2 ^ (- e) * 2 ^ (e - ec))%Z).
    { rewrite <- Z.pow_add_r by lia. f_equal. lia. }
    assert (2 ^ 1 <= 2 ^ (e - ec))%Z by (apply Z.pow_le_mono_r; lia).
    change (2 ^ 1)%Z with 2%Z in *.
    assert (0 < 2 ^ (- e))%Z by (apply Z.pow_pos_nonneg; lia).
    assert (0 <= c)%Z.
    { assert (0 < 2 ^ (- ec))%Z by (apply Z.pow_pos_nonneg; lia). nia. }
    change (2 ^ 53)%Z with (2 * 2 ^ 52)%Z in mc_normal.
    rewrite mc_value, P in mc_normal. nia.
Qed.

End RangeFacts.

Section PercentFacts.

Lemma in_range_below (v : float) :
  in_range v = true <-> below 100 (Prim2SF v).
Proof.
  unfold in_range. rewrite andb_true_iff, !leb_spec.
  change (Prim2SF 0) with (S754_zero false).
  change (Prim2SF 100) with (S754_finite false 7036874417766400 (-46)).
  split.
  - intros [H0 H1]. eapply leb_below; try eassumption.
    + unfold emin, prec, emax. lia.
    + reflexivity.
    + change (2 ^ 52)%Z with 4503599627370496%Z.
      change (2 ^ 53)%Z with 9007199254740992%Z. lia.
  - intros H. eapply below_leb; try eassumption.
    + unfold emin, prec, emax. lia.
    + reflexivity.
    + change (2 ^ 52)%Z with 4503599627370496%Z.
      change (2 ^ 53)%Z with 9007199254740992%Z. lia.
Qed.

End PercentFacts.

Section BarFacts.

Lemma bar_counts_all :
  forallb
    (fun k =>
       let z := Z.of_nat k in
       match ToIntegerOrInfinity (Number_of_integral (Number.Int z)),
             ToIntegerOrInfinity (20 - Number_of_integral (Number.Int z))%float
       with
       | Number.Int a, Number.Int b => ((a =? z) && (b =? 20 - z))%Z%bool
       | _, _ => false
       end)
    (seq 0 21) = true.
Proof. vm_compute. reflexivity. Qed.

Lemma bar_counts (z : Z) :
  (0 <= z <= 20)%Z ->
  ToIntegerOrInfinity (Number_of_integral (Number.Int z)) = Number.Int z
  /\ ToIntegerOrInfinity (20 - Number_of_integral (Number.Int z))%float
     = Number.Int (20 - z).
Proof.
  intros H. pose proof bar_counts_all as A.
  rewrite forallb_forall in A. specialize (A (Z.to_nat z)).
  rewrite Z2Nat.id in A by lia. cbv zeta in A.
  assert (I : In (Z.to_nat z) (seq 0 21)) by (apply in_seq; lia).
  specialize (A I).
  destruct (ToIntegerOrInfinity (Number_of_integral (Number.Int z)))
    as [|?|a]; try discriminate.
  destruct (ToIntegerOrInfinity (20 - Number_of_integral (Number.Int z))%float)
    as [|?|b]; try discriminate.
  apply andb_true_iff in A. destruct A as [A1 A2].
  apply Z.eqb_eq in A1, A2. subst. split; reflexivity.
Qed.

Lemma BrightnessBar_in_range (level : float) :
  in_range level = true ->
  exists k p : Z,
    (0 <= k <= 20)%Z /\ (0 <= p <= 100)%Z
    /\ Math.round (level / 100 * 20)%float = Number.Int k
    /\ BrightnessBar level
       = Some {| filled_cells := String.concat "" (List.repeat filled_cell (Z.to_nat k));
                 empty_cells :=
                   String.concat "" (List.repeat empty_cell (Z.to_nat (20 - k)));
                 percent := Number.Int p |}.
Proof.
  intros H. apply in_range_below in H.
  assert (Q : below 1 (Prim2SF (level / 100)%float)).
  { rewrite div_spec.
    change (Prim2SF 100) with (S754_finite false 7036874417766400 (-46)).
    apply (SFdiv_below 1 100); first [exact H | reflexivity | lia]. }
  assert (M : below 20 (Prim2SF (level / 100 * 20)%float)).
  { rewrite mul_spec.
    change (Prim2SF 20) with (S754_finite false 5629499534213120 (-48)).
    apply (SFmul_below 1 20); first [exact Q | lia]. }
  destruct (below_round 20 _ ltac:(lia) M) as (k & Ek & Hk).
  destruct (below_round 100 _ ltac:(lia) H) as (p & Ep & Hp).
  exists k, p. split; [exact Hk |]. split; [exact Hp |]. split; [exact Ek |].
  unfold BrightnessBar. cbv zeta. rewrite Ek, Ep.
  destruct (bar_counts k Hk) as [C1 C2].
  unfold String_repeat. rewrite C1, C2.
  replace (k <? 0)%Z with false by (symmetry; apply Z.ltb_ge; lia).
  replace (20 - k <? 0)%Z with false by (symmetry; apply Z.ltb_ge; lia).
  reflexivity.
Qed.

End BarFacts.

Section AverageFacts.

Lemma digits2_shift (d p : positive) :
  digits2_pos (Pos.iter xO p d) = (digits2_pos p + d)%positive.
Proof.
  induction d as [|d IH] using Pos.peano_ind.
  - simpl. lia.
  - rewrite Pos.iter_succ. simpl. rewrite IH. lia.
Qed.

Lemma binary_round_aux_canonical (s : bool) (m : positive) (e : Z) :
  fexp prec emax (Z.pos (digits2_pos m) + e) = e ->
  (e <= emax - prec)%Z ->
  binary_round_aux prec emax s (Z.pos m) e loc_Exact = S754_finite s m e.
Proof.
  intros H He. unfold binary_round_aux, shr_fexp. cbn [Zdigits2].
  rewrite H, Z.sub_diag. cbn [shr shr_record_of_loc shr_m loc_of_shr_record
                              round_nearest_even Zdigits2].
  rewrite H, Z.sub_diag. cbn [shr shr_record_of_loc shr_m].
  replace (e <=? emax - prec)%Z with true by (symmetry; apply Z.leb_le; exact He).
  reflexivity.
Qed.

(** A count below [2 ^ 53] is a Number exactly. *)
Lemma count_Number (n : Z) :
  (1 <= n < 2 ^ 53)%Z ->
  exists (m : positive) (e : Z),
    Prim2SF (of_uint63 (Uint63.of_Z n)) = S754_finite false m e
    /\ (e <= 0)%Z /\ Z.pos m = (n * 2 ^ (- e))%Z.
Proof.
  intros H. rewrite of_uint63_spec, Uint63.of_Z_spec.
  rewrite Z.mod_small
    by (split; [lia |]; eapply Z.lt_trans; [apply H |]; reflexivity).
  destruct n as [|p|p]; try lia. cbn [binary_normalize]. unfold binary_round.
  assert (D : (Z.pos (digits2_pos p) <= 53)%Z)
    by (apply digits2_le_of_lt; lia).
  set (f := fexp prec emax (Z.pos (digits2_pos p) + 0)).
  assert (F : (f <= 0)%Z) by (subst f; unfold fexp, emin, prec, emax; lia).
  unfold shl_align. destruct (f - 0)%Z as [|d|d] eqn:E; try lia.
  - exists p, 0%Z. split; [| split; [lia | simpl; lia]].
    apply binary_round_aux_canonical; [fold f; lia | unfold emax, prec; lia].
  - exists (Pos.iter xO p d), f. split; [| split; [exact F |]].
    + apply binary_round_aux_canonical; [| unfold emax, prec; lia].
      rewrite digits2_shift, Pos2Z.inj_add.
      replace (Z.pos (digits2_pos p) + Z.pos d + f)%Z
        with (Z.pos (digits2_pos p) + 0)%Z by lia.
      reflexivity.
    + change (Pos.iter xO p d) with (shift_pos d p).
      rewrite shift_pos_correct. replace (- f)%Z with (Z.pos d) by lia.
      rewrite Z.mul_comm. reflexivity.
Qed.

Lemma brightness_or_100_below (l : Light) :
  schema_light l -> below 100 (Prim2SF (brightness_or_100 l)).
Proof.
  unfold schema_light, brightness_or_100.
  destruct (light_dimming_brightness l) as [v|]; intros H.
  - apply in_range_below, H.
  - apply in_range_below. reflexivity.
Qed.

Lemma sum_below (l : list Light) :
  forall (s : float) (k : Z),
    (0 <= k)%Z -> (k + 100 * Z.of_nat (List.length l) < 2 ^ 53)%Z ->
    below k (Prim2SF s) ->
    Forall schema_light l ->
    below (k + 100 * Z.of_nat (List.length l))
      (Prim2SF (fold_left (fun sum x => (sum + brightness_or_100 x)%float) l s)).
Proof.
  induction l as [|x rest IH]; intros s k Hk Hs Hb Hl.
  - simpl. rewrite Z.add_0_r. exact Hb.
  - inversion Hl as [|? ? Hx Hrest]; subst. cbn [fold_left].
    replace (k + 100 * Z.of_nat (List.length (x :: rest)))%Z
      with (k + 100 + 100 * Z.of_nat (List.length rest))%Z
      by (simpl List.length; lia).
    simpl List.length in Hs.
    apply IH; [lia | lia | | exact Hrest].
    rewrite add_spec. apply SFadd_below; [lia | lia | lia | exact Hb |].
    apply brightness_or_100_below, Hx.
Qed.

(** The mean of levels within 0..100 is within 0..100. *)
Lemma averageBrightness_in_range (onLights : list Light) :
  onLights <> [] ->
  (Z.of_nat (List.length onLights) < 2 ^ 32)%Z ->
  Forall schema_light onLights ->
  in_range (averageBrightness onLights) = true.
Proof.
  intros Hne Hlen Hl. apply in_range_below. unfold averageBrightness.
  rewrite div_spec.
  set (n := Z.of_nat (List.length onLights)) in *.
  assert (N : (1 <= n)%Z)
    by (subst n; destruct onLights; [congruence | simpl List.length; lia]).
  assert (N32 : (2 ^ 32 = 4294967296)%Z) by reflexivity.
  assert (N53 : (2 ^ 53 = 9007199254740992)%Z) by reflexivity.
  destruct (count_Number n ltac:(lia)) as (m & e & E & He & Hm).
  unfold length_Number. fold n. rewrite E.
  apply (SFdiv_below 100 n); first [exact Hm | lia | idtac].
  replace (100 * n)%Z with (0 + 100 * n)%Z by lia.
  apply sum_below; [lia | fold n; lia | exact I | exact Hl].
Qed.

End AverageFacts.

(** ** Signs *)

Section SignFacts.

Lemma binary_round_aux_nonneg (m e : Z) (l : location) :
  (0 <= m)%Z ->
  SFleb (S754_zero false) (binary_round_aux prec emax false m e l) = true.
Proof.
  intros H. unfold binary_round_aux.
  pose proof (shr_fexp_nonneg m e l H) as H1.
  destruct (shr_fexp prec emax m e l) as [mrs' e']. simpl in H1.
  pose proof
    (shr_fexp_nonneg
       (round_nearest_even (shr_m mrs') (loc_of_shr_record mrs')) e' loc_Exact
       (round_nearest_even_nonneg _ _ H1)) as H2.
  destruct (shr_fexp prec emax
              (round_nearest_even (shr_m mrs') (loc_of_shr_record mrs')) e'
              loc_Exact) as [mrs'' e''].
  simpl in H2. destruct (shr_m mrs''); try lia; try reflexivity.
  destruct (e'' <=? emax - prec)%Z; reflexivity.
Qed.

Lemma binary_round_nonneg (p : positive) (e : Z) :
  SFleb (S754_zero false) (binary_round prec emax false p e) = true.
Proof.
  unfold binary_round. destruct (shl_align p e _) as [mz ez].
  apply binary_round_aux_nonneg. lia.
Qed.

(** A quotient of a positive Number by a positive Number is not
    negative. *)
Lemma SFdiv_nonneg_l (m : positive) (e : Z) (y : spec_float) :
  SFltb (S754_zero false) y = true ->
  SFleb (S754_zero false) (SF64div (S754_finite false m e) y) = true.
Proof.
  intros H. unfold SF64div, SFdiv.
  destruct y as [sy|[]| |[] my ey]; try discriminate; try reflexivity.
  unfold SFdiv_core_binary.
  set (m' := match _ with Z0 => Z.pos m | Zpos _ => _ | Zneg _ => 0%Z end).
  assert (Hm' : (0 <= m')%Z).
  { subst m'. destruct (_ - _ - _)%Z; try lia. apply Z.shiftl_nonneg. lia. }
  pose proof (Z_div_mod m' (Z.pos my) eq_refl) as Hdiv.
  destruct (Z.div_eucl m' (Z.pos my)) as [q r].
  apply binary_round_aux_nonneg. nia.
Qed.

Lemma SFdiv_nonneg_r (x : spec_float) (m : positive) (e : Z) :
  SFleb (S754_zero false) x = true ->
  SFleb (S754_zero false) (SF64div x (S754_finite false m e)) = true.
Proof.
  intros H. unfold SF64div, SFdiv.
  destruct x as [sx|[]| |[] mx ex]; try discriminate; try reflexivity.
  unfold SFdiv_core_binary.
  set (m' := match _ with Z0 => Z.pos mx | Zpos _ => _ | Zneg _ => 0%Z end).
  assert (Hm' : (0 <= m')%Z).
  { subst m'. destruct (_ - _ - _)%Z; try lia. apply Z.shiftl_nonneg. lia. }
  pose proof (Z_div_mod m' (Z.pos m) eq_refl) as Hdiv.
  destruct (Z.div_eucl m' (Z.pos m)) as [q r].
  apply binary_round_aux_nonneg. nia.
Qed.

Lemma SFltb_finite (m c : positive) (e ec : Z) :
  SFltb (S754_finite false c ec) (S754_finite false m e) = true ->
  (ec < e)%Z \/ (e = ec /\ Z.pos c < Z.pos m)%Z.
Proof.
  unfold SFltb. cbn [SFcompare].
  destruct (ec ?= e)%Z eqn:C.
  - apply Z.compare_eq in C. intros H. right. split; [lia |].
    destruct (PosDef.Pos.compare_cont Eq c m) eqn:Q; try discriminate.
    apply (proj1 (Pos.compare_lt_iff c m)) in Q. lia.
  - intros _. left. apply Z.compare_lt_iff in C. exact C.
  - discriminate.
Qed.

(** [x - d] is not negative when [x] is above a Number [c] that is at
    least [d]. *)
Lemma SFsub_above (x : spec_float) (mc md : positive) (ec ed : Z) :
  valid_binary x = true ->
  (emin <= ec)%Z -> (Z.pos mc < 2 ^ 53)%Z ->
  (ed <= ec)%Z -> (Z.pos md <= Z.pos mc * 2 ^ (ec - ed))%Z ->
  SFltb (S754_finite false mc ec) x = true ->
  SFleb (S754_zero false) (SF64sub x (S754_finite false md ed)) = true.
Proof.
  intros V Hec Hmc Hed Hmd H. unfold SF64sub, SFsub.
  destruct x as [sx|[]| |[] mx ex]; try discriminate; try reflexivity.
  apply SFltb_finite in H.
  assert (Eed : (ed <= ex)%Z) by lia.
  change (IntDef.Z.min ex ed) with (Z.min ex ed). rewrite Z.min_r by exact Eed.
  pose proof (shl_align_spec mx ex ed) as (_ & X2 & X3).
  pose proof (shl_align_spec md ed ed) as (_ & D2 & D3).
  cbv zeta in X2, X3, D2, D3.
  rewrite X2 in X3 by exact Eed.
  rewrite D2 in D3 by apply Z.le_refl.
  rewrite Z.sub_diag, Z.mul_1_r in D3.
  cbn [cond_Zopp].
  assert (G : (Z.pos md < Z.pos mx * 2 ^ (ex - ed))%Z).
  { pose proof (pow2_pos (ec - ed) ltac:(lia)) as P1.
    destruct H as [C | [C1 C2]].
    - pose proof (valid_normal false mx ex V ltac:(lia)) as N.
      replace (ex - ed)%Z with ((ex - ec) + (ec - ed))%Z by lia.
      rewrite Z.pow_add_r by lia.
      assert (2 ^ 1 <= 2 ^ (ex - ec))%Z by (apply Z.pow_le_mono_r; lia).
      change (2 ^ 1)%Z with 2%Z in *.
      change (2 ^ 53)%Z with (2 * 2 ^ 52)%Z in Hmc.
      assert (K : (Z.pos mc < Z.pos mx * 2 ^ (ex - ec))%Z) by nia.
      rewrite Z.mul_assoc.
      eapply Z.le_lt_trans; [exact Hmd |].
      apply Z.mul_lt_mono_pos_r; assumption.
    - subst ex. nia. }
  rewrite X3, D3.
  destruct (Z.pos mx * 2 ^ (ex - ed) - Z.pos md)%Z as [|p|p] eqn:E; try lia.
  cbn [binary_normalize]. apply binary_round_nonneg.
Qed.

Lemma SFmul_not_nan_l (s : bool) (m : positive) (e : Z) (x : spec_float) :
  x <> S754_nan -> SF64mul (S754_finite s m e) x <> S754_nan.
Proof.
  intros H. unfold SF64mul, SFmul.
  destruct x as [sx|sx| |sx mx ex]; try congruence; try discriminate.
  apply binary_round_aux_not_nan. lia.
Qed.

Lemma nonneg_not_nan (x : float) :
  SFleb (S754_zero false) (Prim2SF x) = true -> is_nan x = false.
Proof.
  intros H. apply is_nan_false. intros E. rewrite E in H. discriminate.
Qed.

End SignFacts.

(** ** Colorimetry *)

Section ColorimetryFacts.

Variable libm_log : float -> float.
Variable libm_pow : float -> float -> float.

(** [y === 0] holds of the two zeros only. *)
Lemma strictly_zero_spec (y : JSValue) :
  strictly_zero y = true <-> y = JSNumber 0 \/ y = JSNumber (-0).
Proof.
  split.
  - destruct y as [| | |n| |]; simpl; try discriminate.
    rewrite eqb_spec. unfold SFeqb. intros H.
    change (Prim2SF 0) with (S754_zero false) in H.
    destruct (Prim2SF n) as [s|s| |s m e] eqn:E; simpl in H;
      try destruct s; try discriminate.
    + right. f_equal. apply Prim2SF_inj. rewrite E. reflexivity.
    + left. f_equal. apply Prim2SF_inj. rewrite E. reflexivity.
  - intros [-> | ->]; reflexivity.
Qed.

Lemma xyBriToHex_None (x y : JSValue) (bri : option float) :
  xyBriToHex libm_pow x y bri = None <->
  typeof x <> "number" \/ typeof y <> "number" \/ strictly_zero y = true.
Proof.
  destruct x as [| | |x| |], y as [| | |y| |]; simpl;
    try (split; [intros _ | reflexivity]; solve
           [ left; discriminate | right; left; discriminate ]).
  destruct (y =? 0)%float; split; try congruence; auto.
  intros [H | [H | H]]; congruence.
Qed.

Lemma mirekToHex_None (mirek : JSValue) :
  mirekToHex libm_log libm_pow mirek = None <->
  typeof mirek <> "number" \/ at_most_zero mirek = true.
Proof.
  destruct mirek as [| | |m| |]; simpl;
    try (split; [intros _ | reflexivity]; left; discriminate).
  destruct (m <=? 0)%float; [tauto |].
  destruct (1000000 / m / 100 <=? 66)%float; split; try congruence;
    intros [H | H]; congruence.
Qed.

Lemma byte_hex_all :
  forallb
    (fun n =>
       String.eqb
         (JSString.padStart 2 "0" (Number.toString16 (Number.Int (Z.of_nat n))))
         (hex2 (Z.of_nat n)))
    (seq 0 256) = true.
Proof. vm_compute. reflexivity. Qed.

Lemma byte_hex (c : Z) :
  (0 <= c <= 255)%Z ->
  JSString.padStart 2 "0" (Number.toString16 (Number.Int c)) = hex2 c.
Proof.
  intros H. pose proof byte_hex_all as A. rewrite forallb_forall in A.
  specialize (A (Z.to_nat c)). rewrite Z2Nat.id in A by lia.
  apply String.eqb_eq, A, in_seq. lia.
Qed.

Lemma toHex_spec (v : float) :
  toHex v =
  match Math.round v with
  | Number.NaN => "NaN"
  | Number.Inf false => "ff"
  | Number.Inf true => "00"
  | Number.Int z => hex2 (Z.max 0 (Z.min 255 z))
  end.
Proof.
  unfold toHex. destruct (Math.round v) as [|[]|z]; try reflexivity.
  simpl Math.max_integral. apply byte_hex. lia.
Qed.

Lemma hex2_is_lower_hex (c : Z) :
  (0 <= c <= 255)%Z ->
  forallb is_lower_hex (list_ascii_of_string (hex2 c)) = true.
Proof.
  intros H.
  assert (A : forallb
                (fun n => forallb is_lower_hex
                            (list_ascii_of_string (hex2 (Z.of_nat n))))
                (seq 0 256) = true) by (vm_compute; reflexivity).
  rewrite forallb_forall in A. specialize (A (Z.to_nat c)).
  rewrite Z2Nat.id in A by lia. apply A, in_seq. lia.
Qed.

Lemma round_NaN (v : float) : Math.round v = Number.NaN <-> is_nan v = true.
Proof.
  rewrite is_nan_spec. unfold Math.round.
  destruct (Prim2SF v) as [s|s| |s m e]; try (split; congruence).
  destruct e; split; congruence.
Qed.

(** A channel of [mirekToHex] is a byte in hexadecimal unless its value
    is NaN. *)
Lemma toHex_byte (v : float) :
  is_nan v = false -> exists n, (0 <= n <= 255)%Z /\ toHex v = hex2 n.
Proof.
  intros N. rewrite toHex_spec.
  destruct (Math.round v) as [|[]|z] eqn:E.
  - apply round_NaN in E. congruence.
  - exists 0%Z. split; [lia | reflexivity].
  - exists 255%Z. split; [lia | reflexivity].
  - exists (Z.max 0 (Z.min 255 z)). split; [lia | reflexivity].
Qed.

(** Three channels none of which is NaN make a colour value. *)
Lemma toHex_is_color (r g b : float) :
  is_nan r = false -> is_nan g = false -> is_nan b = false ->
  is_color ("#" ++ toHex r ++ toHex g ++ toHex b) = true.
Proof.
  intros Hr Hg Hb.
  destruct (toHex_byte r Hr) as (x & Hx & ->).
  destruct (toHex_byte g Hg) as (y & Hy & ->).
  destruct (toHex_byte b Hb) as (z & Hz & ->).
  pose proof (hex2_is_lower_hex x Hx) as X.
  pose proof (hex2_is_lower_hex y Hy) as Y.
  pose proof (hex2_is_lower_hex z Hz) as Z.
  unfold hex2 in *. cbn -[is_lower_hex Number.hex_digit] in *.
  rewrite !andb_true_r in *.
  apply andb_true_iff in X, Y, Z. destruct X as [-> ->], Y as [-> ->], Z as [-> ->].
  reflexivity.
Qed.

Lemma clamp_cases (c : float) :
  clamp c = nan
  \/ ((0 <=? clamp c)%float = true /\ (clamp c <=? 1)%float = true).
Proof.
  unfold clamp, Math.min.
  change (is_nan 1) with false. change (Number.is_pos_zero 1) with false.
  cbn [orb andb].
  destruct (is_nan c) eqn:N; [left; reflexivity |].
  destruct (c <? 1)%float eqn:L; [| right; split; reflexivity].
  unfold Math.max.
  change (is_nan 0) with false. change (Number.is_neg_zero 0) with false.
  cbn [orb andb]. rewrite N.
  destruct (0 <? c)%float eqn:G; [| right; split; reflexivity].
  right. split; apply ltb_leb; assumption.
Qed.

(** A channel of [xyBriToHex] is a byte in hexadecimal or [NaN]. *)
Lemma channel_clamp (c : float) : channel_text (channel (clamp c)).
Proof.
  destruct (clamp_cases c) as [-> | [H0 H1]].
  - left. reflexivity.
  - right. destruct (round_times_255 _ H0 H1) as (z & E & Hz).
    exists z. split; [exact Hz |]. unfold channel. rewrite E.
    apply byte_hex, Hz.
Qed.

Lemma toHex_channel_text (v : float) : channel_text (toHex v).
Proof.
  rewrite toHex_spec. destruct (Math.round v) as [|[]|z].
  - left. reflexivity.
  - right. exists 0%Z. split; [lia | reflexivity].
  - right. exists 255%Z. split; [lia | reflexivity].
  - right. exists (Z.max 0 (Z.min 255 z)). split; [lia | reflexivity].
Qed.

End ColorimetryFacts.

(** C4: both conversions return no colour exactly on the inputs they
    reject, [xyBriToHex] when [x] or [y] is not a number or [y === 0],
    [mirekToHex] when [mirek] is not a number or [mirek <= 0], and neither
    throws; but an input that is not rejected need not give a colour
    value: [xyBriToHex(0, 1e-310)], two numbers with [y] not 0, returns
    [#NaNNaNNaN] with the default brightness. *)
Theorem accepted_input_without_color_value :
  forall (libm_log : float -> float) (libm_pow : float -> float -> float),
    (forall (x y : JSValue) (bri : option float),
        xyBriToHex libm_pow x y bri = None <->
        typeof x <> "number" \/ typeof y <> "number" \/ strictly_zero y = true)
    /\ (forall mirek : JSValue,
          mirekToHex libm_log libm_pow mirek = None <->
          typeof mirek <> "number" \/ at_most_zero mirek = true)
    /\ (let x := JSNumber 0 in
        let y := JSNumber 1e-310 in
        typeof x = "number" /\ typeof y = "number" /\ strictly_zero y = false
        /\ xyBriToHex libm_pow x y None = Some "#NaNNaNNaN"
        /\ is_color "#NaNNaNNaN" = false).
Proof.
  intros libm_log libm_pow.
  split; [intros x y bri; apply xyBriToHex_None |].
  split; [intros mirek; apply mirekToHex_None |].
  cbv zeta. repeat split; vm_compute; reflexivity.
Qed.

(** C5: for a Number [mirek > 0], with [kelvin = 1000000 / mirek] and
    [temp = kelvin / 100], [temp] is at most 66 or above 66; at most 66,
    red is [ff], green is the logarithmic formula and blue is [00] up to
    19 and the logarithmic formula above; above 66, red and green are the
    power formulas and blue is [ff]; a channel is its value rounded,
    clamped to 0..255 and written as two hexadecimal digits. *)
Theorem mirekToHex_piecewise :
  forall (libm_log : float -> float) (libm_pow : float -> float -> float)
         (mirek : float),
    (0 <? mirek)%float = true ->
    let kelvin := (1000000 / mirek)%float in
    let temp := (kelvin / 100)%float in
    let log := Math.log libm_log in
    let pow := Math.pow libm_pow in
    ((temp <=? 66)%float = true \/ (66 <? temp)%float = true)
    /\ ((temp <=? 66)%float = true ->
        mirekToHex libm_log libm_pow (JSNumber mirek) =
        Some ("#" ++ "ff"
              ++ toHex (99.4708025861 * log temp - 161.1195681661)%float
              ++ (if (temp <=? 19)%float then "00"
                  else toHex (138.5177312231 * log (temp - 10)
                              - 305.0447927307)%float)))
    /\ ((66 <? temp)%float = true ->
        mirekToHex libm_log libm_pow (JSNumber mirek) =
        Some ("#"
              ++ toHex (329.698727446 * pow (temp - 60) (-0.1332047592))%float
              ++ toHex (288.1221695283 * pow (temp - 60) (-0.0755148492))%float
              ++ "ff"))
    /\ (forall v : float,
          toHex v =
          match Math.round v with
          | Number.NaN => "NaN"
          | Number.Inf false => "ff"
          | Number.Inf true => "00"
          | Number.Int z => hex2 (Z.max 0 (Z.min 255 z))
          end).
Proof.
  intros libm_log libm_pow mirek Hpos kelvin temp log pow.
  assert (Hrej : (mirek <=? 0)%float = false) by (apply ltb_not_leb, Hpos).
  assert (Hnan : is_nan temp = false) by (apply temp_not_nan, Hpos).
  split; [| split; [| split]].
  - destruct (temp <=? 66)%float eqn:E; [left; reflexivity | right].
    apply not_leb_ltb; [exact Hnan | reflexivity | exact E].
  - intros Hle. unfold mirekToHex. rewrite Hrej.
    fold kelvin. fold temp. rewrite Hle.
    destruct (temp <=? 19)%float; reflexivity.
  - intros Hgt. unfold mirekToHex. rewrite Hrej.
    fold kelvin. fold temp. rewrite (ltb_not_leb _ _ Hgt). reflexivity.
  - apply toHex_spec.
Qed.

Lemma mirekToHex_piecewise_witness :
  let temp := (1000000 / 153 / 100)%float in
  ((temp <=? 66)%float = true \/ (66 <? temp)%float = true)
  /\ mirekToHex Libm.log Libm.pow (JSNumber 153) = Some "#fffffb".
Proof.
  pose proof (mirekToHex_piecewise Libm.log Libm.pow 153 eq_refl)
    as (H1 & H2 & _).
  split; [exact H1 |]. rewrite (H2 eq_refl). vm_compute. reflexivity.
Defined.

(** C10: evaluation at inputs on which the value returned is no colour:
    [xyBriToHex(0, 1e-310, 254)] and [xyBriToHex(0.3, 0.3, Infinity)] are
    ["#NaNNaNNaN"], and [mirekToHex(NaN)] is ["#NaNNaNff"]; a scene whose
    palette holds the first gets ["#NaNNaNNaN"] as its preview colour. *)
Theorem xyBriToHex_returns_NaN_text :
  forall (libm_log : float -> float) (libm_pow : float -> float -> float),
    xyBriToHex libm_pow (JSNumber 0) (JSNumber 1e-310) (Some 254%float)
    = Some "#NaNNaNNaN"
    /\ xyBriToHex libm_pow (JSNumber 0.3) (JSNumber 0.3) (Some infinity)
       = Some "#NaNNaNNaN"
    /\ mirekToHex libm_log libm_pow (JSNumber nan) = Some "#NaNNaNff"
    /\ is_color "#NaNNaNNaN" = false
    /\ is_color "#NaNNaNff" = false
    /\ extractColors libm_log libm_pow
         {| scene_id := "1"; metadata_name := Some "Evening";
            palette :=
              Some {| color :=
                        Some [{| color_xy_x := JSNumber 0;
                                 color_xy_y := JSNumber 1e-310;
                                 dimming_brightness := Some 254%float |}];
                      color_temperature := None |};
            actions := None |}
       = ["#NaNNaNNaN"].
Proof.
  intros. repeat split; vm_compute; reflexivity.
Qed.

(** X22, beside C10: every value the conversions return is [#] followed
    by three channels, each two lowercase hexadecimal digits or the text
    [NaN]. *)
Theorem conversions_return_channels :
  forall (libm_log : float -> float) (libm_pow : float -> float -> float)
         (x y mirek : JSValue) (bri : option float) (s : string),
    xyBriToHex libm_pow x y bri = Some s
    \/ mirekToHex libm_log libm_pow mirek = Some s ->
    exists r g b,
      s = ("#" ++ r ++ g ++ b)
      /\ channel_text r /\ channel_text g /\ channel_text b.
Proof.
  intros libm_log libm_pow x y mirek bri s [H | H].
  - destruct x as [| | |x| |], y as [| | |y| |]; simpl in H; try discriminate.
    destruct (y =? 0)%float; [discriminate |].
    injection H as <-.
    do 3 eexists. split; [reflexivity |].
    repeat split; apply channel_clamp.
  - destruct mirek as [| | |m| |]; simpl in H; try discriminate.
    destruct (m <=? 0)%float; [discriminate |].
    destruct (1000000 / m / 100 <=? 66)%float; injection H as <-;
      do 3 eexists; (split; [reflexivity |]);
      repeat split; apply toHex_channel_text.
Qed.

(** ** Colour temperatures that are colours *)

Section TemperatureFacts.

Variable libm_log : float -> float.
Variable libm_pow : float -> float -> float.
Hypothesis libm_log_positive :
  forall x, (0 <? x)%float = true -> is_nan (libm_log x) = false.
Hypothesis libm_pow_nonneg :
  forall b e,
    (0 <=? b)%float = true -> is_nan e = false -> is_infinity e = false ->
    is_nan (libm_pow b e) = false.

Lemma Math_log_not_nan (x : float) :
  SFleb (S754_zero false) (Prim2SF x) = true ->
  is_nan (Math.log libm_log x) = false.
Proof.
  intros H. unfold Math.log. rewrite (nonneg_not_nan x H).
  assert (L : (x <? 0)%float = false).
  { rewrite ltb_spec. change (Prim2SF 0) with (S754_zero false).
    destruct (Prim2SF x) as [s|[]| |[] m e]; try discriminate; reflexivity. }
  rewrite L. destruct (is_zero x) eqn:Z; [reflexivity |].
  destruct (x =? 1)%float; [reflexivity |].
  destruct (is_infinity x); [reflexivity |].
  apply libm_log_positive. rewrite ltb_spec.
  unfold is_zero in Z. rewrite eqb_spec in Z.
  change (Prim2SF 0) with (S754_zero false).
  change (Prim2SF zero) with (S754_zero false) in Z.
  destruct (Prim2SF x) as [s|[]| |[] m e]; try discriminate; reflexivity.
Qed.

Lemma Math_pow_not_nan (base exponent : float) :
  SFleb (S754_zero false) (Prim2SF base) = true ->
  is_nan exponent = false -> is_infinity exponent = false ->
  is_nan (Math.pow libm_pow base exponent) = false.
Proof.
  intros H N I. unfold Math.pow. rewrite N.
  destruct (is_zero exponent); [reflexivity |].
  rewrite (nonneg_not_nan base H).
  apply libm_pow_nonneg; [| exact N | exact I].
  rewrite leb_spec. exact H.
Qed.

Lemma scaled_not_nan (c x d : float) :
  (exists s m e, Prim2SF c = S754_finite s m e) ->
  (exists s m e, Prim2SF d = S754_finite s m e) ->
  is_nan x = false -> is_nan (c * x - d)%float = false.
Proof.
  intros (sc & mc & ec & Ec) (sd & md & ed & Ed) H.
  rewrite is_nan_false in *. rewrite sub_spec, mul_spec, Ec, Ed.
  apply SFsub_finite_not_nan, SFmul_not_nan_l, H.
Qed.

Lemma scaled0_not_nan (c x : float) :
  (exists s m e, Prim2SF c = S754_finite s m e) ->
  is_nan x = false -> is_nan (c * x)%float = false.
Proof.
  intros (sc & mc & ec & Ec) H.
  rewrite is_nan_false in *. rewrite mul_spec, Ec.
  apply SFmul_not_nan_l, H.
Qed.

Lemma temp_nonneg (mirek : float) :
  (0 <? mirek)%float = true ->
  SFleb (S754_zero false) (Prim2SF (1000000 / mirek / 100)%float) = true.
Proof.
  rewrite ltb_spec. change (Prim2SF 0) with (S754_zero false). intros H.
  rewrite !div_spec.
  change (Prim2SF 100) with (S754_finite false 7036874417766400 (-46)).
  change (Prim2SF 1000000) with (S754_finite false 8589934592000000 (-33)).
  apply SFdiv_nonneg_r, SFdiv_nonneg_l, H.
Qed.

Lemma mirekToHex_color (mirek : float) :
  (0 <? mirek)%float = true ->
  exists value,
    mirekToHex libm_log libm_pow (JSNumber mirek) = Some value
    /\ is_color value = true.
Proof.
  intros H. unfold mirekToHex. rewrite (ltb_not_leb _ _ H). cbv zeta.
  set (temp := (1000000 / mirek / 100)%float).
  pose proof (temp_not_nan mirek H) as Tn. fold temp in Tn.
  pose proof (temp_nonneg mirek H) as T0. fold temp in T0.
  pose proof (Prim2SF_valid temp) as V.
  destruct (temp <=? 66)%float eqn:E66.
  - eexists. split; [reflexivity |]. apply toHex_is_color.
    + reflexivity.
    + apply scaled_not_nan; [vm_compute; eauto | vm_compute; eauto |].
      apply Math_log_not_nan, T0.
    + destruct (temp <=? 19)%float eqn:E19; [reflexivity |].
      apply scaled_not_nan; [vm_compute; eauto | vm_compute; eauto |].
      apply Math_log_not_nan. rewrite sub_spec.
      change (Prim2SF 10) with (S754_finite false 5629499534213120 (-49)).
      apply (SFsub_above _ 5348024557502464 _ (-48)); try exact V;
        try (unfold emin, prec, emax; lia); try reflexivity.
      change (S754_finite false 5348024557502464 (-48)) with (Prim2SF 19).
      rewrite <- ltb_spec.
      apply not_leb_ltb; [exact Tn | reflexivity | exact E19].
  - eexists. split; [reflexivity |].
    assert (B : SFleb (S754_zero false) (Prim2SF (temp - 60)%float) = true).
    { rewrite sub_spec.
      change (Prim2SF 60) with (S754_finite false 8444249301319680 (-47)).
      apply (SFsub_above _ 4644337115725824 _ (-46)); try exact V;
        try (unfold emin, prec, emax; lia); try reflexivity.
      change (S754_finite false 4644337115725824 (-46)) with (Prim2SF 66).
      rewrite <- ltb_spec.
      apply not_leb_ltb; [exact Tn | reflexivity | exact E66]. }
    apply toHex_is_color.
    + apply scaled0_not_nan; [vm_compute; eauto |].
      apply Math_pow_not_nan; [exact B | reflexivity | reflexivity].
    + apply scaled0_not_nan; [vm_compute; eauto |].
      apply Math_pow_not_nan; [exact B | reflexivity | reflexivity].
    + reflexivity.
Qed.

End TemperatureFacts.

(** X20: with a numeric library whose logarithm of a positive Number and
    whose power of a base that is not negative, for a finite exponent, are
    not NaN, [mirekToHex] returns, for every [mirek > 0], [#] followed by
    six lowercase hexadecimal digits. *)
Theorem mirekToHex_returns_a_color :
  forall (libm_log : float -> float) (libm_pow : float -> float -> float),
    (forall x, (0 <? x)%float = true -> is_nan (libm_log x) = false) ->
    (forall b e,
        (0 <=? b)%float = true -> is_nan e = false -> is_infinity e = false ->
        is_nan (libm_pow b e) = false) ->
    forall mirek : float,
      (0 <? mirek)%float = true ->
      exists value,
        mirekToHex libm_log libm_pow (JSNumber mirek) = Some value
        /\ is_color value = true.
Proof.
  intros libm_log libm_pow Hlog Hpow mirek H.
  apply mirekToHex_color; assumption.
Qed.

Lemma mirekToHex_returns_a_color_witness :
  exists value,
    mirekToHex (fun x => x) (fun b _ => b) (JSNumber 153) = Some value
    /\ is_color value = true.
Proof.
  apply (mirekToHex_returns_a_color (fun x => x) (fun b _ => b)).
  - intros x H. apply ltb_not_nan_r in H. exact H.
  - intros b e H _ _. apply nonneg_not_nan. rewrite leb_spec in H. exact H.
  - reflexivity.
Defined.

(** ** Colour extraction *)

Section DedupeFacts.

Lemma Set_has_app (k : string) (l1 l2 : list string) :
  Set_has k (l1 ++ l2)%list = (Set_has k l1 || Set_has k l2)%bool.
Proof. apply existsb_app. Qed.

Lemma Set_has_rev (k : string) (l : list string) :
  Set_has k (rev l) = Set_has k l.
Proof.
  induction l as [|x l IH]; [reflexivity |].
  simpl rev. rewrite Set_has_app, IH. simpl.
  destruct (String.eqb k x), (Set_has k l); reflexivity.
Qed.

Lemma first_seen_snoc (l : list string) (x : string) :
  first_seen (l ++ [x])%list =
  if Set_has (JSString.toLowerCase x) (map JSString.toLowerCase l)
  then first_seen l
  else (first_seen l ++ [x])%list.
Proof.
  unfold first_seen. rewrite rev_app_distr. simpl.
  rewrite map_rev, Set_has_rev.
  destruct (Set_has _ _); reflexivity.
Qed.

Lemma dedupe_from_first_seen (l : list string) :
  forall (p seen : list string),
    (forall k, Set_has k seen = Set_has k (map JSString.toLowerCase p)) ->
    (first_seen p ++ dedupe_from seen l)%list = first_seen (p ++ l)%list.
Proof.
  induction l as [|x rest IH]; intros p seen Hseen.
  - simpl. rewrite !app_nil_r. reflexivity.
  - replace (p ++ x :: rest)%list with ((p ++ [x]) ++ rest)%list
      by (rewrite <- app_assoc; reflexivity).
    simpl. destruct (Set_has (JSString.toLowerCase x) seen) eqn:E.
    + rewrite <- (IH (p ++ [x])%list seen).
      * rewrite first_seen_snoc, <- Hseen, E. reflexivity.
      * intros k. rewrite map_app, Set_has_app, <- Hseen. simpl.
        destruct (String.eqb k (JSString.toLowerCase x)) eqn:K;
          [| destruct (Set_has k seen); reflexivity].
        apply String.eqb_eq in K. subst k. rewrite E. reflexivity.
    + rewrite <- (IH (p ++ [x])%list (JSString.toLowerCase x :: seen)).
      * rewrite first_seen_snoc, <- Hseen, E, <- app_assoc. reflexivity.
      * intros k. rewrite map_app, Set_has_app, <- Hseen. simpl.
        destruct (String.eqb k (JSString.toLowerCase x)), (Set_has k seen);
          reflexivity.
Qed.

Lemma dedupe_loop_spec (limit : nat) (colors : list (option string)) :
  forall (seen out : list string),
    (List.length out < limit)%nat ->
    dedupe_loop limit colors seen out =
    firstn limit (out ++ dedupe_from seen (present colors))%list.
Proof.
  induction colors as [|c rest IH]; intros seen out Hlen.
  - simpl. rewrite app_nil_r, firstn_all2 by lia. reflexivity.
  - destruct c as [[|a s]|]; simpl; try (apply IH; exact Hlen).
    destruct (Set_has _ seen); [apply IH; exact Hlen |].
    destruct (Nat.leb limit (List.length (out ++ [String a s])%list)) eqn:L.
    + apply Nat.leb_le in L. rewrite length_app in L. simpl in L.
      replace (out ++ String a s :: dedupe_from _ (present rest))%list
        with ((out ++ [String a s]) ++ dedupe_from
                (JSString.toLowerCase (String a s) :: seen) (present rest))%list
        by (rewrite <- app_assoc; reflexivity).
      rewrite firstn_app.
      replace (limit - List.length (out ++ [String a s])%list)%nat with 0%nat
        by (rewrite length_app; simpl; lia).
      rewrite firstn_all2 by (rewrite length_app; simpl; lia).
      simpl. rewrite app_nil_r. reflexivity.
    + apply Nat.leb_gt in L. rewrite IH by exact L.
      rewrite <- app_assoc. reflexivity.
Qed.

Lemma dedupeColors_spec (colors : list (option string)) (limit : nat) :
  (0 < limit)%nat ->
  dedupeColors colors limit = firstn limit (first_seen (present colors)).
Proof.
  intros H. unfold dedupeColors. rewrite dedupe_loop_spec by exact H.
  pose proof (dedupe_from_first_seen (present colors) [] []) as H0.
  simpl in H0. simpl. rewrite H0; reflexivity.
Qed.

Lemma Set_has_In (k : string) (l : list string) :
  Set_has k l = true <-> In k l.
Proof.
  unfold Set_has. rewrite existsb_exists. split.
  - intros (x & Hx & E). apply String.eqb_eq in E. subst. exact Hx.
  - intros H. exists k. split; [exact H | apply String.eqb_refl].
Qed.

Lemma first_seen_rev_incl (r : list string) (x : string) :
  In x (first_seen_rev r) -> In x r.
Proof.
  induction r as [|y r IH]; simpl; [tauto |].
  destruct (Set_has _ _); simpl; tauto.
Qed.

Lemma first_seen_rev_NoDup (r : list string) :
  NoDup (map JSString.toLowerCase (first_seen_rev r)).
Proof.
  induction r as [|y r IH]; simpl; [constructor |].
  destruct (Set_has _ _) eqn:E; [exact IH |].
  simpl. constructor; [| exact IH].
  intros H. apply in_map_iff in H. destruct H as (z & Hz & Hin).
  apply first_seen_rev_incl in Hin.
  assert (Set_has (JSString.toLowerCase y) (map JSString.toLowerCase r) = true).
  { apply Set_has_In. rewrite <- Hz. apply in_map, Hin. }
  congruence.
Qed.

Lemma first_seen_NoDup (l : list string) :
  NoDup (map JSString.toLowerCase (first_seen l)).
Proof.
  unfold first_seen. rewrite map_rev. apply NoDup_rev, first_seen_rev_NoDup.
Qed.

Lemma NoDup_firstn {A : Type} (n : nat) (l : list A) :
  NoDup l -> NoDup (firstn n l).
Proof.
  intros H. revert n. induction H as [|x l Hx Hl IH]; intros [|n]; simpl;
    try constructor; [| apply IH].
  intros Hin. apply Hx. rewrite <- (firstn_skipn n l). apply in_or_app. tauto.
Qed.

End DedupeFacts.

(** C3: [extractColors] converts the palette colours, the palette
    temperatures, the action colours and the action temperatures, joins
    the results in that order, drops the no-colour ones, keeps the first
    of the colours that agree up to case, keeps at most 6, and returns
    [["#444444"]] when nothing is left. *)
Theorem extractColors_spec :
  forall (libm_log : float -> float) (libm_pow : float -> float -> float)
         (scene : SceneRecord),
    let samples :=
      match palette scene with Some p => or_empty (color p) | None => [] end in
    let temperatures :=
      match palette scene with
      | Some p => or_empty (color_temperature p)
      | None => []
      end in
    let acts := or_empty (actions scene) in
    let combined :=
      (map (fun e => xyBriToHex libm_pow (color_xy_x e) (color_xy_y e)
                       (dimming_brightness e)) samples
       ++ map (fun e => mirekToHex libm_log libm_pow (color_temperature_mirek e))
              temperatures
       ++ map (fun a => xyBriToHex libm_pow (action_color_xy_x a)
                          (action_color_xy_y a) (action_dimming_brightness a))
              acts
       ++ map (fun a => mirekToHex libm_log libm_pow
                          (action_color_temperature_mirek a))
              acts)%list in
    let deduped := firstn 6 (first_seen (present combined)) in
    extractColors libm_log libm_pow scene =
      match deduped with
      | [] => ["#444444"]
      | _ => deduped
      end
    /\ (1 <= List.length (extractColors libm_log libm_pow scene) <= 6)%nat
    /\ NoDup (map JSString.toLowerCase (extractColors libm_log libm_pow scene)).
Proof.
  intros libm_log libm_pow scene samples temperatures acts combined deduped.
  assert (E : extractColors libm_log libm_pow scene =
              match deduped with [] => ["#444444"] | _ => deduped end).
  { unfold extractColors. rewrite dedupeColors_spec by lia.
    unfold paletteColors, paletteTemperatures, actionColors, actionTemperatures.
    fold acts.
    replace (match palette scene with
             | Some p => map _ (or_empty (color p))
             | None => []
             end)
      with (map (fun e => xyBriToHex libm_pow (color_xy_x e) (color_xy_y e)
                            (dimming_brightness e)) samples)
      by (subst samples; destruct (palette scene); reflexivity).
    replace (match palette scene with
             | Some p => map _ (or_empty (color_temperature p))
             | None => []
             end)
      with (map (fun e => mirekToHex libm_log libm_pow
                            (color_temperature_mirek e)) temperatures)
      by (subst temperatures; destruct (palette scene); reflexivity).
    fold combined. fold deduped. destruct deduped; reflexivity. }
  rewrite E. split; [reflexivity |].
  assert (L : (List.length deduped <= 6)%nat) by apply firstn_le_length.
  assert (N : NoDup (map JSString.toLowerCase deduped)).
  { subst deduped. rewrite <- firstn_map. apply NoDup_firstn, first_seen_NoDup. }
  destruct deduped as [|d ds]; simpl in *.
  - split; [lia |]. repeat constructor. simpl. tauto.
  - split; [lia | exact N].
Qed.

(** ** Running tasks *)

Section RunFacts.

Context {B : Type}.
Variable respond : B -> Request -> B * Outcome.

Lemma run_keeps {A : Type} (part : State -> A) (t : Task) :
  forall w : World B, keeps part t -> part (ui (run respond t w)) = part (ui w).
Proof.
  induction t as [|setter next IH|requests next IH|ms next IH
                  |callback _ ms next IH|next IH]; intros w K; simpl in *.
  - reflexivity.
  - destruct K as [K1 K2]. rewrite IH by exact K2. simpl. apply K1.
  - destruct (fetch_all respond (bridge w) requests) as [b outcomes].
    rewrite IH by apply K. reflexivity.
  - apply IH, K.
  - rewrite IH by exact K. reflexivity.
  - rewrite IH by exact K. reflexivity.
Qed.

Lemma run_tidy (t : Task) :
  forall w : World B, tidy t -> tidy_world w -> tidy_world (run respond t w).
Proof.
  induction t as [|setter next IH|requests next IH|ms next IH
                  |callback _ ms next IH|next IH]; intros w T W; simpl in *.
  - exact W.
  - apply IH; assumption.
  - destruct (fetch_all respond (bridge w) requests) as [b outcomes].
    apply IH; [apply T | exact W].
  - apply IH; assumption.
  - destruct T as [T1 T2]. apply IH; [exact T2 |].
    unfold tidy_world in *. simpl. apply Forall_app. split; [exact W |].
    constructor; [exact T1 | constructor].
  - apply IH; assumption.
Qed.

End RunFacts.

Section HandlerFacts.

Variable libm_log : float -> float.
Variable libm_pow : float -> float -> float.
Variable localeCompare : string -> string -> Z.

Lemma storeLights_tidy (lightsArray : list Light) (next : Task) :
  tidy next -> tidy (storeLights lightsArray next).
Proof. intros T. unfold storeLights. task_cases; exact T. Qed.

Lemma load_tidy : tidy (load libm_log libm_pow localeCompare).
Proof. unfold load, storeLights. task_cases. Qed.

Lemma doActivate_tidy (scene : option Scene) : tidy (doActivate scene).
Proof.
  destruct scene as [scene|]; simpl; [| exact I]. intros o1.
  destruct (checked _); simpl; [exact I |]. intros o2.
  destruct (checked _); simpl; [exact I |]. apply storeLights_tidy. exact I.
Qed.

Lemma doSetBrightness_tidy (st : State) (level : float) :
  tidy (doSetBrightness st level).
Proof. unfold doSetBrightness. task_cases. Qed.

Lemma toggleAllLights_tidy (st : State) : tidy (toggleAllLights st).
Proof. unfold toggleAllLights. task_cases. Qed.

Lemma useInput_tidy (st : State) (input : string) (key : Key) :
  tidy (useInput st input key).
Proof.
  unfold useInput.
  repeat match goal with
         | |- tidy (if ?c then _ else _) => destruct c
         | |- tidy (doActivate _) => apply doActivate_tidy
         | |- tidy (doSetBrightness _ _) => apply doSetBrightness_tidy
         | |- tidy (toggleAllLights _) => apply toggleAllLights_tidy
         | |- True => exact I
         | |- tidy (Update _ _) => simpl
         | |- tidy (Exit _) => simpl
         | |- tidy Done => exact I
         end.
Qed.

Context {B : Type}.
Variable respond : B -> Request -> B * Outcome.

Lemma step_tidy (w : World B) (e : Event) :
  tidy_world w -> tidy_world (step respond w e).
Proof.
  intros W. destruct e as [input key|]; simpl.
  - apply run_tidy; [apply useInput_tidy | exact W].
  - destruct (timers w) as [|[ms callback] rest] eqn:E; [exact W |].
    unfold tidy_world in W. rewrite E in W. inversion W; subst.
    simpl in *. subst callback. simpl. exact H2.
Qed.

Lemma steps_tidy (events : list Event) :
  forall w : World B, tidy_world w -> tidy_world (steps respond w events).
Proof.
  induction events as [|e rest IH]; intros w W; simpl; [exact W |].
  apply IH, step_tidy, W.
Qed.

Lemma boot_tidy (b : B) : tidy_world (boot b).
Proof. constructor. Qed.

End HandlerFacts.

(** ** The modes *)

Section ModeFacts.

Variable libm_log : float -> float.
Variable libm_pow : float -> float -> float.
Variable localeCompare : string -> string -> Z.

Lemma storeLights_keeps_modes (lightsArray : list Light) (next : Task) :
  keeps modes next -> keeps modes (storeLights lightsArray next).
Proof. intros K. unfold storeLights. task_cases; exact K. Qed.

Lemma load_keeps_modes : keeps modes (load libm_log libm_pow localeCompare).
Proof. unfold load, storeLights. task_cases. Qed.

Lemma doActivate_keeps_modes (scene : option Scene) :
  keeps modes (doActivate scene).
Proof. unfold doActivate, storeLights. task_cases. Qed.

Lemma doSetBrightness_keeps_modes (st : State) (level : float) :
  keeps modes (doSetBrightness st level).
Proof. unfold doSetBrightness. task_cases. Qed.

Lemma toggleAllLights_keeps_modes (st : State) :
  keeps modes (toggleAllLights st).
Proof. unfold toggleAllLights. task_cases. Qed.

Context {B : Type}.
Variable respond : B -> Request -> B * Outcome.

Lemma useInput_modes (w : World B) (st : State) (input : string) (key : Key) :
  modes (ui (run respond (useInput st input key) w)) =
  mode_step (modes (ui w)) (KeyPress input key).
Proof.
  unfold useInput, mode_step.
  repeat match goal with
         | |- context [if ?c then _ else _] => destruct c
         end;
    try reflexivity;
    apply run_keeps;
    auto using doActivate_keeps_modes, doSetBrightness_keeps_modes,
      toggleAllLights_keeps_modes;
    simpl; auto using doActivate_keeps_modes.
Qed.

Lemma step_modes (w : World B) (e : Event) :
  tidy_world w ->
  modes (ui (step respond w e)) = mode_step (modes (ui w)) e.
Proof.
  intros W. destruct e as [input key|]; [apply useInput_modes |].
  simpl. destruct (timers w) as [|[ms callback] rest] eqn:E; [reflexivity |].
  unfold tidy_world in W. rewrite E in W. inversion W; subst.
  simpl in *. subst callback. reflexivity.
Qed.

Lemma mode_step_exclusive (m : bool * bool) (e : Event) :
  (fst m && snd m)%bool = false ->
  (fst (mode_step m e) && snd (mode_step m e))%bool = false.
Proof.
  intros H. destruct e as [input key|]; simpl; [| exact H].
  repeat match goal with
         | |- context [if ?c then _ else _] => destruct c
         end; simpl; auto using andb_false_r.
Qed.

Lemma steps_exclusive (events : list Event) :
  forall w : World B,
    tidy_world w ->
    (setMode (ui w) && brightnessMode (ui w))%bool = false ->
    let w' := steps respond w events in
    tidy_world w' /\ (setMode (ui w') && brightnessMode (ui w'))%bool = false.
Proof.
  induction events as [|e rest IH]; intros w W H; simpl; [auto |].
  apply IH; [apply step_tidy, W |].
  pose proof (step_modes w e W) as M.
  pose proof (mode_step_exclusive (modes (ui w)) e H) as X.
  rewrite <- M in X. exact X.
Qed.

End ModeFacts.

(** C6: [s] and [S] toggle set mode and clear brightness mode, [b] and [B]
    toggle brightness mode and clear set mode, and in no state of a run,
    whatever the keys pressed and whatever the bridge answers, are both
    modes active. *)
Theorem modes_mutually_exclusive :
  forall (libm_log : float -> float) (libm_pow : float -> float -> float)
         (localeCompare : string -> string -> Z)
         (B : Type) (respond : B -> Request -> B * Outcome),
    (forall w : World B,
        modes (ui (step respond w (letter "s")))
        = (negb (setMode (ui w)), false)
        /\ modes (ui (step respond w (letter "S")))
           = (negb (setMode (ui w)), false)
        /\ modes (ui (step respond w (letter "b")))
           = (false, negb (brightnessMode (ui w)))
        /\ modes (ui (step respond w (letter "B")))
           = (false, negb (brightnessMode (ui w))))
    /\ (forall (b : B) (early late : list Event),
          let w := session libm_log libm_pow localeCompare respond b early late in
          (setMode (ui w) && brightnessMode (ui w))%bool = false).
Proof.
  intros libm_log libm_pow localeCompare B respond. split.
  - intros w. repeat split; unfold letter, step; rewrite useInput_modes;
      reflexivity.
  - intros b early late. unfold session.
    destruct (steps_exclusive respond early (boot b) (boot_tidy b) eq_refl)
      as [W1 X1].
    pose proof (run_tidy respond _ _ (load_tidy libm_log libm_pow localeCompare) W1)
      as W2.
    pose proof (run_keeps respond modes _ (steps respond (boot b) early)
                  (load_keeps_modes libm_log libm_pow localeCompare)) as K.
    remember (run respond (load libm_log libm_pow localeCompare)
                (steps respond (boot b) early)) as w1.
    apply steps_exclusive; [exact W2 |].
    unfold modes in K. inversion K as [[K1 K2]]. rewrite K1, K2. exact X1.
Qed.

(** ** The cursor *)

Section CursorFacts.

Variable libm_log : float -> float.
Variable libm_pow : float -> float -> float.
Variable localeCompare : string -> string -> Z.

Lemma load_keeps_selected : keeps selected (load libm_log libm_pow localeCompare).
Proof. unfold load, storeLights. task_cases. Qed.

Lemma doActivate_keeps_cursor (scene : option Scene) :
  keeps cursor (doActivate scene).
Proof. unfold doActivate, storeLights. task_cases. Qed.

Lemma doSetBrightness_keeps_cursor (st : State) (level : float) :
  keeps cursor (doSetBrightness st level).
Proof. unfold doSetBrightness. task_cases. Qed.

Lemma toggleAllLights_keeps_cursor (st : State) :
  keeps cursor (toggleAllLights st).
Proof. unfold toggleAllLights. task_cases. Qed.

Context {B : Type}.
Variable respond : B -> Request -> B * Outcome.

Lemma run_setSelected (w : World B) (n : Z) (t : Task) :
  keeps cursor t ->
  cursor (ui (run respond (Update (setSelected n) t) w)) = (n, scenes (ui w)).
Proof. intros K. simpl. rewrite run_keeps by exact K. reflexivity. Qed.

Lemma arrow_cursor (w : World B) :
  brightnessMode (ui w) = false ->
  cursor (ui (step respond w down))
  = (Z.min (selected (ui w) + 1)
       (Z.max 0 (Z.of_nat (List.length (scenes (ui w))) - 1)),
     scenes (ui w))
  /\ cursor (ui (step respond w up))
     = (Z.max (selected (ui w) - 1) 0, scenes (ui w)).
Proof.
  intros Hb. unfold step, down, up, useInput.
  cbn -[run Z.min Z.max Z.of_nat Z.add Z.sub]. rewrite Hb.
  split; apply run_setSelected;
    match goal with
    | |- keeps cursor (if ?c then _ else _) =>
        destruct c; [apply doActivate_keeps_cursor | exact I]
    end.
Qed.

(** Where a key leaves the cursor. *)
Lemma useInput_cursor (w : World B) (input : string) (key : Key) :
  let st := ui w in
  let w' := run respond (useInput st input key) w in
  scenes (ui w') = scenes st
  /\ (selected (ui w') = selected st
      \/ brightnessMode st = false
         /\ (selected (ui w')
             = Z.min (selected st + 1)
                 (Z.max 0 (Z.of_nat (List.length (scenes st)) - 1))
             \/ selected (ui w') = Z.max (selected st - 1) 0)).
Proof.
  intros st w'. subst w'.
  assert (K : forall t, keeps cursor t ->
                cursor (ui (run respond t w)) = cursor st)
    by (intros t Kt; apply run_keeps, Kt).
  assert (M : forall n t, keeps cursor t ->
                cursor (ui (run respond (Update (setSelected n) t) w))
                = (n, scenes st))
    by (intros n t Kt; simpl; rewrite run_keeps by exact Kt; reflexivity).
  unfold useInput.
  repeat match goal with
         | |- context [if ?c then _ else _] => destruct c eqn:?
         end;
    match goal with
    | |- context [run respond (Update (setSelected ?n) ?t) w] =>
        assert (E : cursor (ui (run respond (Update (setSelected n) t) w))
                    = (n, scenes st))
          by (apply M; auto using doActivate_keeps_cursor; exact I)
    | |- context [run respond ?t w] =>
        assert (E : cursor (ui (run respond t w)) = cursor st)
          by (apply K;
              auto using doActivate_keeps_cursor, doSetBrightness_keeps_cursor,
                toggleAllLights_keeps_cursor;
              simpl; auto)
    end;
    pose proof (f_equal fst E) as E1; pose proof (f_equal snd E) as E2;
    cbn [fst snd cursor] in E1, E2; rewrite E1, E2; auto.
Qed.

Lemma step_cursor (w : World B) (e : Event) :
  tidy_world w ->
  let w' := step respond w e in
  scenes (ui w') = scenes (ui w)
  /\ (valid_cursor (ui w) -> valid_cursor (ui w')).
Proof.
  intros W. destruct e as [input key|]; simpl.
  - destruct (useInput_cursor w input key) as (Hs & Hc).
    split; [exact Hs |]. unfold valid_cursor. rewrite Hs.
    destruct Hc as [-> | (_ & [-> | ->])]; lia.
  - destruct (timers w) as [|[ms callback] rest] eqn:E; [tauto |].
    unfold tidy_world in W. rewrite E in W. inversion W; subst.
    simpl in *. subst callback. simpl. tauto.
Qed.

Lemma steps_cursor (events : list Event) :
  forall w : World B,
    tidy_world w ->
    let w' := steps respond w events in
    tidy_world w'
    /\ scenes (ui w') = scenes (ui w)
    /\ (valid_cursor (ui w) -> valid_cursor (ui w')).
Proof.
  induction events as [|e rest IH]; intros w W; simpl; [tauto |].
  destruct (step_cursor w e W) as (Hs & Hc).
  destruct (IH (step respond w e) (step_tidy respond w e W)) as (W' & Hs' & Hc').
  split; [exact W' |]. split; [congruence | tauto].
Qed.

Lemma session_valid_cursor (b : B) (early late : list Event) :
  valid_cursor
    (ui (session libm_log libm_pow localeCompare respond b early late)).
Proof.
  unfold session.
  destruct (steps_cursor early (boot b) (boot_tidy b)) as (W1 & S1 & C1).
  assert (V1 : valid_cursor (ui (steps respond (boot b) early)))
    by (apply C1; unfold valid_cursor; simpl; lia).
  pose proof (run_tidy respond _ _ (load_tidy libm_log libm_pow localeCompare) W1)
    as W2.
  pose proof (run_keeps respond selected _ (steps respond (boot b) early)
                (load_keeps_selected)) as K.
  remember (run respond (load libm_log libm_pow localeCompare)
              (steps respond (boot b) early)) as w1.
  destruct (steps_cursor late w1 W2) as (_ & _ & C2). apply C2.
  unfold valid_cursor in *. rewrite K, S1 in *. simpl in V1. lia.
Qed.

End CursorFacts.

(** C7: in every state of a run the cursor is at least 0 and, when there
    are scenes, below their count; outside brightness mode the down arrow
    moves it to [min (selected + 1) (max 0 (count - 1))] and the up arrow
    to [max (selected - 1) 0]; with no scenes an arrow press changes
    nothing and sends nothing. *)
Theorem cursor_stays_in_range :
  forall (libm_log : float -> float) (libm_pow : float -> float -> float)
         (localeCompare : string -> string -> Z)
         (B : Type) (respond : B -> Request -> B * Outcome),
    (forall (b : B) (early late : list Event),
        let s := ui (session libm_log libm_pow localeCompare respond b early late) in
        (0 <= selected s)%Z
        /\ (scenes s <> [] -> (selected s < Z.of_nat (List.length (scenes s)))%Z)
        /\ (scenes s = [] -> selected s = 0%Z))
    /\ (forall w : World B,
          brightnessMode (ui w) = false ->
          selected (ui (step respond w down))
          = Z.min (selected (ui w) + 1)
              (Z.max 0 (Z.of_nat (List.length (scenes (ui w))) - 1))
          /\ selected (ui (step respond w up)) = Z.max (selected (ui w) - 1) 0
          /\ scenes (ui (step respond w down)) = scenes (ui w)
          /\ scenes (ui (step respond w up)) = scenes (ui w))
    /\ (forall w : World B,
          brightnessMode (ui w) = false ->
          scenes (ui w) = [] ->
          selected (ui w) = 0%Z ->
          step respond w down = w /\ step respond w up = w).
Proof.
  intros libm_log libm_pow localeCompare B respond. split; [| split].
  - intros b early late s.
    pose proof (session_valid_cursor libm_log libm_pow localeCompare respond
                  b early late) as V.
    fold s in V. clearbody s. unfold valid_cursor in V.
    split; [lia |]. split.
    + intros Hne. destruct (scenes s) as [|x l]; [congruence |].
      simpl List.length in *. lia.
    + intros He. rewrite He in V. simpl in V. lia.
  - intros w Hb. destruct (arrow_cursor respond w Hb) as [D U].
    pose proof (f_equal fst D) as D1. pose proof (f_equal snd D) as D2.
    pose proof (f_equal fst U) as U1. pose proof (f_equal snd U) as U2.
    cbn [fst snd cursor] in D1, D2, U1, U2. auto.
  - intros w Hb Hs H0. unfold step, down, up, useInput. simpl.
    rewrite Hb, Hs, H0. simpl.
    rewrite andb_false_r. simpl.
    destruct w as [s b snt tm ex]. destruct s. simpl in *. subst.
    split; reflexivity.
Qed.

(** ** Brightness *)

Section BrightnessFacts.

(** [Math.max(1, Math.min(100, level))] is not below 1 and not above
    100, and lies between them unless [level] is NaN. *)
Lemma clampedLevel_bounds (level : float) :
  let c := Math.max 1 (Math.min 100 level) in
  (c <? 1)%float = false
  /\ (100 <? c)%float = false
  /\ (is_nan level = false ->
      (1 <=? c)%float = true /\ (c <=? 100)%float = true /\ is_nan c = false).
Proof.
  unfold Math.min.
  change (is_nan 100) with false. change (Number.is_pos_zero 100) with false.
  cbn [orb andb].
  destruct (is_nan level) eqn:N; [repeat split; discriminate |].
  destruct (level <? 100)%float eqn:L; [| repeat split; reflexivity].
  unfold Math.max.
  change (is_nan 1) with false. change (Number.is_neg_zero 1) with false.
  cbn [orb andb]. rewrite N.
  destruct (1 <? level)%float eqn:G; [| repeat split; reflexivity].
  repeat split; auto using ltb_asym, ltb_leb.
Qed.

Lemma doSetBrightness_keeps_brightnessMode (st : State) (level : float) :
  keeps brightnessMode (doSetBrightness st level).
Proof. unfold doSetBrightness. task_cases. Qed.

Lemma render_level (s : State) (hint : string) (level : float)
    (adjusting : bool) (status : option string) (rows : list (bool * Scene)) :
  render s = ScenesView hint level adjusting status rows -> level = brightness s.
Proof.
  unfold render. destruct (loading s); [discriminate |].
  destruct (error s) as [[|c e]|]; try discriminate;
    destruct (scenes s); try discriminate; intros H; injection H; auto.
Qed.

Context {B : Type}.
Variable respond : B -> Request -> B * Outcome.

Lemma run_doSetBrightness (w : World B) (st : State) (level : float) :
  brightness (ui (run respond (doSetBrightness st level) w))
  = Math.max 1 (Math.min 100 level)
  /\ brightnessMode (ui (run respond (doSetBrightness st level) w))
     = brightnessMode (ui w).
Proof.
  split.
  - unfold doSetBrightness. cbn [run].
    destruct (fetch_all respond _ _) as [b outcomes].
    rewrite run_keeps; [reflexivity |]. task_cases.
  - apply run_keeps, doSetBrightness_keeps_brightnessMode.
Qed.

Lemma run_doSetBrightness_sent (w : World B) (st : State) (level : float) :
  sent (run respond (doSetBrightness st level) w)
  = (sent w
     ++ map (fun light =>
               PUT (light_path (light_id light))
                 (DimmingBody (Math.max 1 (Math.min 100 level))))
            (lights st))%list.
Proof.
  unfold doSetBrightness. cbn [run bridge sent].
  destruct (fetch_all respond _ _) as [b outcomes].
  destruct (Promise_all (map unchecked outcomes)); reflexivity.
Qed.

Lemma arrow_sent (w : World B) (upwards : bool) :
  brightnessMode (ui w) = true ->
  sent (step respond w (arrow upwards))
  = (sent w
     ++ map (fun light =>
               PUT (light_path (light_id light))
                 (DimmingBody (brightness (ui (step respond w (arrow upwards))))))
            (lights (ui w)))%list.
Proof.
  intros Hb.
  assert (E : step respond w (arrow upwards)
              = run respond
                  (doSetBrightness (ui w)
                     (if upwards then brightness (ui w) + 1
                      else brightness (ui w) - 1)%float) w)
    by (destruct upwards; unfold arrow, step, up, down, useInput;
        cbn -[run]; rewrite Hb; reflexivity).
  rewrite E, run_doSetBrightness_sent.
  destruct (run_doSetBrightness w (ui w)
              (if upwards then brightness (ui w) + 1
               else brightness (ui w) - 1)%float) as [-> _].
  reflexivity.
Qed.

Lemma arrow_brightness (w : World B) (upwards : bool) :
  brightnessMode (ui w) = true ->
  let w' := step respond w (arrow upwards) in
  brightness (ui w')
  = Math.max 1
      (Math.min 100
         (if upwards then brightness (ui w) + 1 else brightness (ui w) - 1)%float)
  /\ brightnessMode (ui w') = true.
Proof.
  intros Hb. destruct upwards; unfold arrow, step, up, down, useInput;
    cbn -[run]; rewrite Hb;
    match goal with
    | |- context [run respond (doSetBrightness ?st ?l) w] =>
        destruct (run_doSetBrightness w st l) as [-> ->]
    end; auto.
Qed.

Lemma arrows_brightness (presses : list bool) :
  forall w : World B,
    brightnessMode (ui w) = true ->
    presses <> [] ->
    let w' := steps respond w (map arrow presses) in
    (brightness (ui w') <? 1)%float = false
    /\ (100 <? brightness (ui w'))%float = false
    /\ (is_nan (brightness (ui w)) = false ->
        (1 <=? brightness (ui w'))%float = true
        /\ (brightness (ui w') <=? 100)%float = true).
Proof.
  induction presses as [|p rest IH]; intros w Hb Hne; [congruence |].
  cbn [map steps fold_left].
  destruct (arrow_brightness w p Hb) as [E M].
  pose proof (clampedLevel_bounds
                (if p then brightness (ui w) + 1 else brightness (ui w) - 1)%float)
    as (C1 & C2 & C3).
  cbv zeta in C1, C2, C3. rewrite <- E in C1, C2, C3.
  assert (C4 : is_nan (brightness (ui w)) = false ->
               (1 <=? brightness (ui (step respond w (arrow p))))%float = true
               /\ (brightness (ui (step respond w (arrow p))) <=? 100)%float = true
               /\ is_nan (brightness (ui (step respond w (arrow p)))) = false)
    by (intros N; apply C3;
        destruct p; auto using add_one_not_nan, sub_one_not_nan).
  destruct rest as [|q rest'].
  - cbn [map fold_left]. split; [exact C1 |]. split; [exact C2 |].
    intros N. destruct (C4 N) as (? & ? & ?). auto.
  - specialize (IH (step respond w (arrow p)) M ltac:(discriminate)).
    cbv zeta in IH. unfold steps in IH.
    destruct IH as (I1 & I2 & I3).
    split; [exact I1 |]. split; [exact I2 |].
    intros N. apply I3. apply (C4 N).
Qed.

Lemma useInput_arrow (st : State) (upwards : bool) :
  brightnessMode st = true ->
  useInput st "" (arrow_key upwards)
  = doSetBrightness st
      (if upwards then brightness st + 1 else brightness st - 1)%float.
Proof.
  intros Hb. destruct upwards; unfold arrow_key, useInput;
    cbn -[doSetBrightness]; rewrite Hb; reflexivity.
Qed.

Lemma step_arrow (w : World B) (upwards : bool) :
  step respond w (arrow upwards)
  = run respond (useInput (ui w) "" (arrow_key upwards)) w.
Proof. destruct upwards; reflexivity. Qed.

(** Presses from one render all store the level of the first. *)
Lemma takes_same_render (st : State) (upwards : bool) (n : nat) :
  brightnessMode st = true ->
  forall w : World B,
    brightness
      (ui (snd (takes respond (st, w)
                  (repeat (Press "" (arrow_key upwards)) (S n)))))
    = Math.max 1
        (Math.min 100
           (if upwards then brightness st + 1 else brightness st - 1)%float).
Proof.
  intros Hb. induction n as [|n IH]; intros w.
  - cbn [repeat takes fold_left take fst snd].
    rewrite useInput_arrow by exact Hb. apply run_doSetBrightness.
  - change (repeat (Press "" (arrow_key upwards)) (S (S n)))
      with (Press "" (arrow_key upwards)
            :: repeat (Press "" (arrow_key upwards)) (S n)).
    unfold takes. cbn [fold_left]. cbn [take fst snd]. apply IH.
Qed.

(** Arrows and renders in any order keep the mode and a brightness that
    is a number, and a press leaves the brightness within 1..100. *)
Lemma takes_within (inputs : list (option bool)) :
  forall c : State * World B,
    brightnessMode (fst c) = true ->
    brightnessMode (ui (snd c)) = true ->
    is_nan (brightness (fst c)) = false ->
    is_nan (brightness (ui (snd c))) = false ->
    ((1 <=? brightness (ui (snd c)))%float = true
     /\ (brightness (ui (snd c)) <=? 100)%float = true)
    \/ (exists upwards, In (Some upwards) inputs) ->
    let c' := takes respond c (map arrow_or_render inputs) in
    (1 <=? brightness (ui (snd c')))%float = true
    /\ (brightness (ui (snd c')) <=? 100)%float = true.
Proof.
  induction inputs as [|a rest IH]; intros c M1 M2 N1 N2 H.
  - destruct H as [H | (upwards & [])]. exact H.
  - cbn [map]. unfold takes. cbn [fold_left].
    fold (takes respond (take respond c (arrow_or_render a))
            (map arrow_or_render rest)).
    destruct a as [upwards|]; cbn [arrow_or_render take].
    + rewrite useInput_arrow by exact M1.
      destruct (run_doSetBrightness (snd c) (fst c)
                  (if upwards then brightness (fst c) + 1
                   else brightness (fst c) - 1)%float) as [E1 E2].
      destruct (clampedLevel_bounds
                  (if upwards then brightness (fst c) + 1
                   else brightness (fst c) - 1)%float) as (_ & _ & C).
      cbv zeta in C. rewrite <- E1 in C.
      destruct C as (C1 & C2 & C3);
        [destruct upwards; auto using add_one_not_nan, sub_one_not_nan |].
      apply IH; cbn [fst snd]; auto. congruence.
    + apply IH; cbn [fst snd]; auto.
      destruct H as [H | (upwards & [D | H])];
        [left; exact H | discriminate | right; eauto].
Qed.

End BrightnessFacts.

(** C8, as the code has it: in brightness mode an arrow is taken by the
    handler of the last render, which stores
    [Math.max(1, Math.min(100, brightness + 1))] for the up arrow and
    [Math.max(1, Math.min(100, brightness - 1))] for the down arrow, of
    the brightness that this render saw; the value is stored before any
    [fetch] settles, where the view shows it, and is the same however the
    bridge answers; one request with that value is sent per light of the
    render; the value is within 1..100 when the brightness of the render
    is a number.  A press after a render steps by 1 from the stored
    brightness, presses from one render all store one value, and after
    arrows and renders in any order, from a brightness that is a number,
    the stored brightness is within 1..100, as it is after presses that
    each follow a render. *)
Theorem brightness_steps_are_clamped :
  forall (B : Type) (respond : B -> Request -> B * Outcome)
         (st : State) (w : World B),
    brightnessMode st = true ->
    let b := brightness st in
    let level (upwards : bool) :=
      Math.max 1 (Math.min 100 (if upwards then b + 1 else b - 1)%float) in
    (forall upwards : bool,
        let t := useInput st "" (arrow_key upwards) in
        brightness (ui (run respond t w)) = level upwards
        /\ brightness (immediately t (ui w)) = level upwards
        /\ (forall hint shown adjusting status rows,
              render (immediately t (ui w))
              = ScenesView hint shown adjusting status rows ->
              shown = level upwards)
        /\ sent (run respond t w)
           = (sent w
              ++ map (fun light =>
                        PUT (light_path (light_id light))
                          (DimmingBody (level upwards)))
                     (lights st))%list
        /\ (is_nan b = false ->
            (1 <=? level upwards)%float = true
            /\ (level upwards <=? 100)%float = true))
    /\ (forall (w1 : World B) (upwards : bool),
          brightnessMode (ui w1) = true ->
          brightness (ui (step respond w1 (arrow upwards)))
          = Math.max 1
              (Math.min 100
                 (if upwards then brightness (ui w1) + 1
                  else brightness (ui w1) - 1)%float))
    /\ (forall (upwards : bool) (n : nat),
          brightness
            (ui (snd (takes respond (st, w)
                        (repeat (Press "" (arrow_key upwards)) (S n)))))
          = level upwards)
    /\ (forall inputs : list (option bool),
          brightnessMode (ui w) = true ->
          is_nan b = false ->
          is_nan (brightness (ui w)) = false ->
          (exists upwards, In (Some upwards) inputs) ->
          let w' := snd (takes respond (st, w) (map arrow_or_render inputs)) in
          (1 <=? brightness (ui w'))%float = true
          /\ (brightness (ui w') <=? 100)%float = true)
    /\ (forall (w1 : World B) (presses : list bool),
          brightnessMode (ui w1) = true ->
          presses <> [] ->
          let w' := steps respond w1 (map arrow presses) in
          (brightness (ui w') <? 1)%float = false
          /\ (100 <? brightness (ui w'))%float = false
          /\ (is_nan (brightness (ui w1)) = false ->
              (1 <=? brightness (ui w'))%float = true
              /\ (brightness (ui w') <=? 100)%float = true)).
Proof.
  intros B respond st w Hb b level.
  split; [| split; [| split; [| split]]].
  - intros upwards t. subst t. rewrite useInput_arrow by exact Hb.
    fold b. split; [apply run_doSetBrightness |].
    assert (I : brightness
                  (immediately
                     (doSetBrightness st (if upwards then b + 1 else b - 1)%float)
                     (ui w))
                = level upwards) by reflexivity.
    split; [exact I |]. split; [| split].
    + intros hint shown adjusting status rows R. rewrite <- I.
      eapply render_level, R.
    + apply run_doSetBrightness_sent.
    + intros N.
      destruct (clampedLevel_bounds (if upwards then b + 1 else b - 1)%float)
        as (_ & _ & C).
      destruct C as (C1 & C2 & _);
        [destruct upwards; subst b; auto using add_one_not_nan, sub_one_not_nan |].
      split; assumption.
  - intros w1 upwards H1. rewrite step_arrow, useInput_arrow by exact H1.
    apply run_doSetBrightness.
  - intros upwards n. apply takes_same_render, Hb.
  - intros inputs M N1 N2 P.
    apply (takes_within respond inputs (st, w)); cbn [fst snd]; auto.
  - intros w1 presses H1 Hne. apply arrows_brightness; assumption.
Qed.

Lemma brightness_steps_are_clamped_witness :
  let w := example_session example_hub [letter "b"] in
  brightnessMode (ui w) = true
  /\ brightness (ui w) = 40%float
  /\ brightness (ui (step hub_respond w down)) = 39%float
  /\ brightness (ui (step hub_respond w up)) = 41%float
  /\ brightness
       (ui (snd (takes hub_respond (ui w, w)
                   [Press "" up_key; Press "" up_key; Press "" up_key])))
     = 41%float
  /\ (1 <=? brightness
              (ui (snd (takes hub_respond (ui w, w)
                          (map arrow_or_render
                             (repeat (Some false) 60 ++ [None]
                              ++ repeat (Some false) 60))))))%float
     = true.
Proof.
  intros w.
  destruct (brightness_steps_are_clamped Hub hub_respond (ui w) w eq_refl)
    as (_ & S & T & R & _).
  split; [reflexivity |]. split; [vm_compute; reflexivity |].
  split; [refine (eq_trans (S w false eq_refl) _); vm_compute; reflexivity |].
  split; [refine (eq_trans (S w true eq_refl) _); vm_compute; reflexivity |].
  split; [refine (eq_trans (T true 2%nat) _); vm_compute; reflexivity |].
  apply (R (repeat (Some false) 60 ++ [None] ++ repeat (Some false) 60)%list
           eq_refl eq_refl eq_refl).
  exists false. left. reflexivity.
Defined.

(** C8 as stated fails.  Two up arrows that are taken before the component
    renders again both start from the brightness of the one render, 40,
    and leave 41.  And on a bridge that lists two lights on at levels
    [Infinity] and [-Infinity] the mean is NaN, which the clamp passes on:
    the up arrow stores NaN and sends it. *)
Lemma presses_before_a_render_do_not_add_up :
  brightness (ui (example_session example_hub [letter "b"])) = 40%float
  /\ brightness
       (ui (snd (takes hub_respond
                   (ui (example_session example_hub [letter "b"]),
                    example_session example_hub [letter "b"])
                   [Press "" up_key; Press "" up_key])))
     = 41%float
  /\ is_nan (brightness (ui (example_session glare_hub [letter "b"; up]))) = true
  /\ (1 <=? brightness (ui (example_session glare_hub [letter "b"; up])))%float
     = false
  /\ sent (example_session glare_hub [letter "b"; up])
     = [GET "/clip/v2/resource/scene"; GET "/clip/v2/resource/smart_scene";
        GET "/clip/v2/resource/light";
        PUT "/clip/v2/resource/light/a" (DimmingBody nan);
        PUT "/clip/v2/resource/light/b" (DimmingBody nan)].
Proof. repeat split; vm_compute; reflexivity. Qed.

(** ** Toggling all lights *)

Section ToggleFacts.

Context {B : Type}.
Variable respond : B -> Request -> B * Outcome.



End ToggleFacts.




(** ** The load and its failure *)

Section LoadFacts.

Variable libm_log : float -> float.
Variable libm_pow : float -> float -> float.
Variable localeCompare : string -> string -> Z.

Lemma storeLights_keeps_scenes (lightsArray : list Light) (next : Task) :
  keeps scenes next -> keeps scenes (storeLights lightsArray next).
Proof. intros K. unfold storeLights. task_cases; exact K. Qed.

Lemma storeLights_keeps_error (lightsArray : list Light) (next : Task) :
  keeps error next -> keeps error (storeLights lightsArray next).
Proof. intros K. unfold storeLights. task_cases; exact K. Qed.

Lemma doActivate_keeps_failure (scene : option Scene) :
  keeps failure (doActivate scene).
Proof. unfold doActivate, storeLights. task_cases. Qed.

Lemma doSetBrightness_keeps_failure (st : State) (level : float) :
  keeps failure (doSetBrightness st level).
Proof. unfold doSetBrightness. task_cases. Qed.

Lemma toggleAllLights_keeps_failure (st : State) :
  keeps failure (toggleAllLights st).
Proof. unfold toggleAllLights. task_cases. Qed.

Lemma useInput_keeps_failure (st : State) (input : string) (key : Key) :
  keeps failure (useInput st input key).
Proof.
  unfold useInput.
  repeat match goal with
         | |- keeps _ (if ?c then _ else _) => destruct c
         | |- keeps _ (doActivate _) => apply doActivate_keeps_failure
         | |- keeps _ (doSetBrightness _ _) => apply doSetBrightness_keeps_failure
         | |- keeps _ (toggleAllLights _) => apply toggleAllLights_keeps_failure
         | |- True => exact I
         | |- keeps _ (Update _ _) => simpl
         | |- keeps _ (Exit _) => simpl
         | |- keeps _ Done => exact I
         | |- _ /\ _ => split
         | |- forall s : State, _ = _ => reflexivity
         end.
Qed.

Context {B : Type}.
Variable respond : B -> Request -> B * Outcome.

Lemma step_failure (w : World B) (e : Event) :
  tidy_world w -> failure (ui (step respond w e)) = failure (ui w).
Proof.
  intros W. destruct e as [input key|]; simpl.
  - apply run_keeps, useInput_keeps_failure.
  - destruct (timers w) as [|[ms callback] rest] eqn:E; [reflexivity |].
    unfold tidy_world in W. rewrite E in W. inversion W; subst.
    simpl in *. subst callback. reflexivity.
Qed.

Lemma steps_failure (events : list Event) :
  forall w : World B,
    tidy_world w -> failure (ui (steps respond w events)) = failure (ui w).
Proof.
  induction events as [|e rest IH]; intros w W; [reflexivity |].
  change (steps respond w (e :: rest))
    with (steps respond (step respond w e) rest).
  rewrite IH by apply step_tidy, W. apply step_failure, W.
Qed.

Lemma run_storeLights_loaded (lightsArray : list Light) (w : World B) :
  loading
    (ui (run respond (storeLights lightsArray (Update (setLoading false) Done)) w))
  = false.
Proof.
  unfold storeLights. destruct lightsArray as [|l ls]; [reflexivity |].
  destruct (filter is_on (l :: ls)); reflexivity.
Qed.

(** What the load leaves, by how the three listings settle. *)
Lemma run_load (w0 : World B) :
  let r1 := respond (bridge w0) (GET "/clip/v2/resource/scene") in
  let r2 := respond (fst r1) (GET "/clip/v2/resource/smart_scene") in
  let r3 := respond (fst r2) (GET "/clip/v2/resource/light") in
  let s := ui (run respond (load libm_log libm_pow localeCompare) w0) in
  loading s = false
  /\ match checked (snd r1), checked (snd r3) with
     | inl message, _ | inr _, inl message =>
         error s = Some message /\ scenes s = scenes (ui w0)
     | inr sceneData, inr _ =>
         error s = error (ui w0)
         /\ scenes s
            = sortScenes localeCompare
                (regularScenes libm_log libm_pow sceneData
                 ++ smartScenes
                      match checked (snd r2) with
                      | inl _ => SmartSceneData (Some [])
                      | inr smartSceneData => smartSceneData
                      end)%list
     end.
Proof.
  intros r1 r2 r3 s. subst s. unfold load. cbn [run fetch_all].
  fold r1. destruct r1 as [b1 o1]. cbn [fst snd] in *.
  fold r2. destruct r2 as [b2 o2]. cbn [fst snd] in *.
  fold r3. destruct r3 as [b3 o3]. cbn [fst snd nth].
  destruct (checked o1) as [m1|sceneData]; cbn [Promise_all];
    [split; [| split]; reflexivity |].
  destruct (checked o2) as [m2|smartSceneData]; cbn [Promise_all];
    (destruct (checked o3) as [m3|lightData]; cbn [Promise_all];
     [split; [| split]; reflexivity |]);
    cbn [run]; (split; [apply run_storeLights_loaded |]);
    (split;
     [ rewrite (run_keeps respond error)
         by (apply storeLights_keeps_error; simpl; auto)
     | rewrite (run_keeps respond scenes)
         by (apply storeLights_keeps_scenes; simpl; auto) ]);
    reflexivity.
Qed.

Lemma session_tidy (b : B) (early late : list Event) :
  tidy_world (session libm_log libm_pow localeCompare respond b early late).
Proof.
  unfold session. apply steps_tidy, run_tidy; [apply load_tidy |].
  apply steps_tidy, boot_tidy.
Qed.

Lemma session_loaded (b : B) (early late : list Event) :
  loading (ui (session libm_log libm_pow localeCompare respond b early late))
  = false.
Proof.
  unfold session.
  set (w0 := steps respond (boot b) early).
  assert (W : tidy_world (run respond (load libm_log libm_pow localeCompare) w0))
    by (apply run_tidy; [apply load_tidy | apply steps_tidy, boot_tidy]).
  pose proof (steps_failure late _ W) as F.
  apply (f_equal snd) in F. cbn [snd failure] in F. rewrite F.
  apply (run_load w0).
Qed.

(** The error is set only by a load that failed, which stores no
    scene. *)
Lemma session_failed_scenes (b : B) (early late : list Event)
      (message : string) :
  let w := session libm_log libm_pow localeCompare respond b early late in
  error (ui w) = Some message -> scenes (ui w) = [].
Proof.
  intros w. subst w. unfold session.
  set (w0 := steps respond (boot b) early).
  set (w1 := run respond (load libm_log libm_pow localeCompare) w0).
  assert (W0 : tidy_world w0) by apply steps_tidy, boot_tidy.
  assert (W1 : tidy_world w1) by (apply run_tidy; [apply load_tidy | exact W0]).
  pose proof (steps_failure late w1 W1) as F.
  apply (f_equal fst) in F. cbn [fst failure] in F. rewrite F.
  destruct (steps_cursor respond late w1 W1) as (_ & -> & _).
  pose proof (steps_failure early (boot b) (boot_tidy b)) as F0.
  apply (f_equal fst) in F0. cbn [fst failure boot ui initial_state error] in F0.
  fold w0 in F0.
  destruct (steps_cursor respond early (boot b) (boot_tidy b)) as (_ & S0 & _).
  fold w0 in S0. cbn [boot ui initial_state scenes] in S0.
  pose proof (run_load w0) as L. cbv zeta in L. fold w1 in L.
  destruct L as [_ L].
  destruct (checked (snd (respond (bridge w0) _))) as [m|sceneData].
  - destruct L as [_ ->]. intros _. exact S0.
  - destruct (checked (snd (respond _ (GET "/clip/v2/resource/light"))))
      as [m|lightData].
    + destruct L as [_ ->]. intros _. exact S0.
    + destruct L as [-> _]. rewrite F0. discriminate.
Qed.

End LoadFacts.

(** C9, as the code has it: the load tolerates a failure of the smart
    scene listing alone, which counts as an empty list, and a failure of
    the scene listing or of the light listing sets the error value, to the
    reason of the listing that failed, of one of the two when both did;
    once the load has set it, no key press and no timer changes it, and
    the view is the error view in every later state, or the view of an
    empty list when the error text is empty. *)
Theorem load_failure_is_terminal :
  forall (libm_log : float -> float) (libm_pow : float -> float -> float)
         (localeCompare : string -> string -> Z)
         (B : Type) (respond : B -> Request -> B * Outcome),
    (forall w0 : World B,
        let r1 := respond (bridge w0) (GET "/clip/v2/resource/scene") in
        let r2 := respond (fst r1) (GET "/clip/v2/resource/smart_scene") in
        let r3 := respond (fst r2) (GET "/clip/v2/resource/light") in
        let s := ui (run respond (load libm_log libm_pow localeCompare) w0) in
        loading s = false
        /\ (forall message lightData,
              checked (snd r1) = inl message ->
              checked (snd r3) = inr lightData ->
              error s = Some message)
        /\ (forall sceneData message,
              checked (snd r1) = inr sceneData ->
              checked (snd r3) = inl message ->
              error s = Some message)
        /\ (forall message1 message3,
              checked (snd r1) = inl message1 ->
              checked (snd r3) = inl message3 ->
              error s = Some message1 \/ error s = Some message3)
        /\ (forall sceneData message lightData,
              checked (snd r1) = inr sceneData ->
              checked (snd r2) = inl message ->
              checked (snd r3) = inr lightData ->
              error s = error (ui w0)
              /\ scenes s
                 = sortScenes localeCompare
                     (regularScenes libm_log libm_pow sceneData ++ [])%list))
    /\ (forall (b : B) (early late more : list Event) (message : string),
          let w := session libm_log libm_pow localeCompare respond b early late in
          error (ui w) = Some message ->
          let w' := steps respond w more in
          error (ui w') = Some message
          /\ loading (ui w') = false
          /\ render (ui w')
             = match message with
               | "" => NoScenesView
               | _ => ErrorView message
               end).
Proof.
  intros libm_log libm_pow localeCompare B respond. split.
  - intros w0 r1 r2 r3 s.
    pose proof (run_load libm_log libm_pow localeCompare respond w0) as L.
    cbv zeta in L. fold r1 r2 r3 s in L. destruct L as [L1 L2].
    split; [exact L1 |]. split; [| split; [| split]].
    + intros message lightData E1 E3. rewrite E1 in L2. apply L2.
    + intros sceneData message E1 E3. rewrite E1, E3 in L2. apply L2.
    + intros message1 message3 E1 E3. rewrite E1 in L2. left. apply L2.
    + intros sceneData message lightData E1 E2 E3.
      rewrite E1, E2, E3 in L2. exact L2.
  - intros b early late more message w E w'.
    pose proof (session_tidy libm_log libm_pow localeCompare respond
                  b early late) as W.
    fold w in W.
    pose proof (steps_failure respond more w W) as F. fold w' in F.
    pose proof (f_equal fst F) as F1. pose proof (f_equal snd F) as F2.
    cbn [fst snd failure] in F1, F2.
    pose proof (session_loaded libm_log libm_pow localeCompare respond
                  b early late) as L.
    fold w in L.
    assert (S : scenes (ui w') = []).
    { unfold w'. destruct (steps_cursor respond more w W) as (_ & -> & _).
      apply (session_failed_scenes libm_log libm_pow localeCompare respond
               b early late message E). }
    clearbody w w'.
    split; [rewrite F1; exact E |]. split; [rewrite F2; exact L |].
    unfold render. rewrite F2, L, F1, E, S.
    destruct message; reflexivity.
Qed.

(** C9 as stated fails: after a load that failed, [s] still sets set mode
    and [o] still sends a request and stores what comes back. *)
Lemma keys_still_act_after_load_failure :
  error (ui (example_session broken_hub [])) = Some "HTTP 404: Not Found"
  /\ ui (example_session broken_hub [letter "s"])
     <> ui (example_session broken_hub [])
  /\ sent (example_session broken_hub [letter "o"])
     = (sent (example_session broken_hub [])
        ++ [GET "/clip/v2/resource/light"])%list
  /\ lights (ui (example_session broken_hub [])) = []
  /\ lights (ui (example_session broken_hub [letter "o"]))
     = [example_light "a" true 40].
Proof.
  split; [vm_compute; reflexivity |]. split.
  - intros H. apply (f_equal setMode) in H. vm_compute in H. discriminate.
  - repeat split; vm_compute; reflexivity.
Qed.

(** ** The scene list *)

Section SortFacts.

Context {A : Type}.
Variable compareFn : A -> A -> Z.

Lemma sort_insert_perm (x : A) (l : list A) :
  Permutation (x :: l) (sort_insert compareFn x l).
Proof.
  induction l as [|y rest IH]; simpl; [reflexivity |].
  destruct (compareFn x y <=? 0)%Z; [reflexivity |].
  rewrite perm_swap. apply perm_skip, IH.
Qed.

Lemma Array_sort_perm (l : list A) : Permutation l (Array_sort compareFn l).
Proof.
  induction l as [|x rest IH]; simpl; [constructor |].
  rewrite <- sort_insert_perm. apply perm_skip, IH.
Qed.

Hypothesis compareFn_total :
  forall a b, (compareFn a b <= 0)%Z \/ (compareFn b a <= 0)%Z.
Hypothesis compareFn_trans :
  forall a b c,
    (compareFn a b <= 0)%Z -> (compareFn b c <= 0)%Z -> (compareFn a c <= 0)%Z.

Lemma sort_insert_sorted (x : A) (l : list A) :
  StronglySorted (fun a b => (compareFn a b <= 0)%Z) l ->
  StronglySorted (fun a b => (compareFn a b <= 0)%Z) (sort_insert compareFn x l).
Proof.
  induction 1 as [|y rest Hs IH Hy]; simpl.
  - repeat constructor.
  - destruct (compareFn x y <=? 0)%Z eqn:E.
    + apply Z.leb_le in E. constructor; [constructor; assumption |].
      constructor; [exact E |].
      apply Forall_impl with (P := fun b => (compareFn y b <= 0)%Z); [| exact Hy].
      intros z Hz. apply compareFn_trans with y; assumption.
    + apply Z.leb_gt in E. constructor; [exact IH |].
      apply Permutation_Forall with (x :: rest);
        [apply sort_insert_perm |].
      constructor; [| exact Hy].
      destruct (compareFn_total x y); [lia | assumption].
Qed.

Lemma Array_sort_sorted (l : list A) :
  StronglySorted (fun a b => (compareFn a b <= 0)%Z) (Array_sort compareFn l).
Proof.
  induction l as [|x rest IH]; simpl; [constructor |].
  apply sort_insert_sorted, IH.
Qed.

End SortFacts.

Section CompareFacts.

Lemma compare_code_units_opp (a : string) :
  forall b, compare_code_units b a = (- compare_code_units a b)%Z.
Proof.
  induction a as [|x a IH]; intros [|y b]; simpl; try reflexivity.
  rewrite IH.
  destruct (Z.eqb_spec (Z.of_nat (nat_of_ascii y) - Z.of_nat (nat_of_ascii x)) 0),
    (Z.eqb_spec (Z.of_nat (nat_of_ascii x) - Z.of_nat (nat_of_ascii y)) 0);
    lia.
Qed.

Lemma compare_code_units_total (a b : string) :
  (compare_code_units a b <= 0)%Z \/ (compare_code_units b a <= 0)%Z.
Proof. rewrite (compare_code_units_opp a b). lia. Qed.

Lemma compare_code_units_trans (a : string) :
  forall b c,
    (compare_code_units a b <= 0)%Z -> (compare_code_units b c <= 0)%Z ->
    (compare_code_units a c <= 0)%Z.
Proof.
  induction a as [|x a IH]; intros [|y b] [|z c]; simpl; try lia.
  specialize (IH b c).
  destruct (Z.eqb_spec (Z.of_nat (nat_of_ascii x) - Z.of_nat (nat_of_ascii y)) 0),
    (Z.eqb_spec (Z.of_nat (nat_of_ascii y) - Z.of_nat (nat_of_ascii z)) 0),
    (Z.eqb_spec (Z.of_nat (nat_of_ascii x) - Z.of_nat (nat_of_ascii z)) 0);
    lia.
Qed.

End CompareFacts.

(** C2: when the scene and light listings succeed, the scene list is the
    regular scenes, one for each record of the scene listing with the
    colours [extractColors] gives, followed by the smart scenes, one for
    each record of the smart scene listing with the two placeholder
    colours (none when that listing fails), sorted by name with
    [localeCompare]; listed as Evening, Bright they are shown as Bright,
    Evening. *)
Theorem scene_list_is_sorted_by_name :
  forall (libm_log : float -> float) (libm_pow : float -> float -> float)
         (localeCompare : string -> string -> Z),
    (forall a b, (localeCompare a b <= 0)%Z \/ (localeCompare b a <= 0)%Z) ->
    (forall a b c,
        (localeCompare a b <= 0)%Z -> (localeCompare b c <= 0)%Z ->
        (localeCompare a c <= 0)%Z) ->
    forall (B : Type) (respond : B -> Request -> B * Outcome) (w0 : World B)
           (sceneData lightData : Payload),
      let r1 := respond (bridge w0) (GET "/clip/v2/resource/scene") in
      let r2 := respond (fst r1) (GET "/clip/v2/resource/smart_scene") in
      let r3 := respond (fst r2) (GET "/clip/v2/resource/light") in
      checked (snd r1) = inr sceneData ->
      checked (snd r3) = inr lightData ->
      let regular := regularScenes libm_log libm_pow sceneData in
      let smart :=
        smartScenes
          match checked (snd r2) with
          | inl _ => SmartSceneData (Some [])
          | inr smartSceneData => smartSceneData
          end in
      let result :=
        scenes (ui (run respond (load libm_log libm_pow localeCompare) w0)) in
      result
      = Array_sort (fun a b => localeCompare (name a) (name b))
          (regular ++ smart)%list
      /\ Permutation (regular ++ smart)%list result
      /\ StronglySorted
           (fun a b => (localeCompare (name a) (name b) <= 0)%Z) result
      /\ (forall data,
            sceneData = SceneData (Some data) ->
            regular
            = map (fun scene =>
                     {| id := scene_id scene;
                        name := name_or_untitled (metadata_name scene);
                        colors := extractColors libm_log libm_pow scene;
                        type := "scene" |})
                  data)
      /\ (forall data,
            checked (snd r2) = inr (SmartSceneData (Some data)) ->
            smart
            = map (fun scene =>
                     {| id := smart_scene_id scene;
                        name := name_or_untitled (smart_metadata_name scene);
                        colors := ["#6366f1"; "#8b5cf6"];
                        type := "smart_scene" |})
                  data)
      /\ (forall message, checked (snd r2) = inl message -> smart = [])
      /\ ((forall data, sceneData <> SceneData (Some data)) -> regular = [])
      /\ (forall smartSceneData,
            checked (snd r2) = inr smartSceneData ->
            (forall data, smartSceneData <> SmartSceneData (Some data)) ->
            smart = [])
      /\ Forall (fun s => colors s = ["#6366f1"; "#8b5cf6"]
                          /\ type s = "smart_scene") smart
      /\ (forall evening bright,
            sceneData = SceneData (Some [evening; bright]) ->
            metadata_name evening = Some "Evening" ->
            metadata_name bright = Some "Bright" ->
            smart = [] ->
            (0 < localeCompare "Evening" "Bright")%Z ->
            map name result = ["Bright"; "Evening"]).
Proof.
  intros libm_log libm_pow localeCompare Htotal Htrans B respond w0
    sceneData lightData r1 r2 r3 E1 E3 regular smart result.
  pose proof (run_load libm_log libm_pow localeCompare respond w0) as L.
  cbv zeta in L. fold r1 r2 r3 in L. rewrite E1, E3 in L.
  destruct L as (_ & _ & L). fold regular smart result in L.
  unfold sortScenes in L.
  split; [exact L |]. split; [rewrite L; apply Array_sort_perm |].
  split.
  { rewrite L.
    apply (Array_sort_sorted (fun a b => localeCompare (name a) (name b))).
    - intros a b. apply Htotal.
    - intros a b c. apply Htrans. }
  split; [intros data ->; reflexivity |].
  split; [intros data E; subst smart; rewrite E; reflexivity |].
  split; [intros message E; subst smart; rewrite E; reflexivity |].
  split.
  { intros N. subst regular. destruct sceneData as [[data|]| | |];
      try reflexivity. destruct (N data eq_refl). }
  split.
  { intros smartSceneData E N. subst smart. rewrite E.
    destruct smartSceneData as [|[data|]| |]; try reflexivity.
    destruct (N data eq_refl). }
  split.
  { subst smart. generalize (match checked (snd r2) with
                             | inl _ => SmartSceneData (Some [])
                             | inr d => d
                             end).
    intros [d|[d|]|d|]; simpl; try apply Forall_nil.
    induction d as [|x d IH]; simpl; constructor; auto. }
  intros evening bright -> Hev Hbr Hsmart Hgt. rewrite L, Hsmart.
  subst regular. simpl. rewrite Hev, Hbr. simpl.
  destruct (Z.leb_spec (localeCompare "Evening" "Bright") 0); [lia | reflexivity].
Qed.

Lemma scene_list_is_sorted_by_name_witness :
  map name (scenes (ui (example_session example_hub []))) = ["Bright"; "Evening"]
  /\ render (ui (example_session example_hub []))
     = ScenesView "to move" 40 false (Some "On")
         [(true, {| id := "2"; name := "Bright"; colors := ["#444444"];
                    type := "scene" |});
          (false, {| id := "1"; name := "Evening"; colors := ["#444444"];
                     type := "scene" |})]
  /\ scenes (ui (example_session cinema_hub []))
     = [{| id := "2"; name := "Bright"; colors := ["#444444"];
           type := "scene" |};
        {| id := "3"; name := "Cinema"; colors := ["#6366f1"; "#8b5cf6"];
           type := "smart_scene" |};
        {| id := "1"; name := "Evening"; colors := ["#444444"];
           type := "scene" |}].
Proof.
  split; [| split; [vm_compute; reflexivity |]].
  - edestruct (scene_list_is_sorted_by_name Libm.log Libm.pow compare_code_units
                 compare_code_units_total
                 (fun a b c => compare_code_units_trans a b c)
                 Hub hub_respond (boot example_hub))
      as (_ & _ & _ & _ & _ & _ & _ & _ & _ & H).
    + vm_compute. reflexivity.
    + vm_compute. reflexivity.
    + apply (H (named_scene "1" "Evening") (named_scene "2" "Bright"));
        vm_compute; reflexivity.
  - edestruct (scene_list_is_sorted_by_name Libm.log Libm.pow compare_code_units
                 compare_code_units_total
                 (fun a b c => compare_code_units_trans a b c)
                 Hub hub_respond (boot cinema_hub))
      as (H & _ & _ & R & S & _).
    + vm_compute. reflexivity.
    + vm_compute. reflexivity.
    + unfold example_session, session. cbn [steps fold_left].
      rewrite H, (R _ eq_refl), (S _ eq_refl). vm_compute. reflexivity.
Defined.

(** ** [dedupeColors] for any limit *)

Section DedupeLimitFacts.

Lemma first_seen_dedupe_from (l : list string) :
  first_seen l = dedupe_from [] l.
Proof.
  pose proof (dedupe_from_first_seen l [] []) as H. simpl in H.
  symmetry. apply H. reflexivity.
Qed.

(** With a limit of 0 the loop still pushes one colour: the test
    [out.length >= limit] comes after the push. *)
Lemma dedupe_loop_zero (colors : list (option string)) :
  dedupe_loop 0 colors [] [] = firstn 1 (dedupe_from [] (present colors)).
Proof.
  induction colors as [|c rest IH]; [reflexivity |].
  destruct c as [[|a s]|]; simpl; try exact IH. reflexivity.
Qed.

Lemma first_seen_nil (l : list string) : first_seen l = [] <-> l = [].
Proof.
  rewrite first_seen_dedupe_from. destruct l as [|x l]; simpl.
  - tauto.
  - split; discriminate.
Qed.

Lemma present_In (colors : list (option string)) (c : string) :
  In c (present colors) <-> c <> "" /\ In (Some c) colors.
Proof.
  unfold present. rewrite in_flat_map. split.
  - intros ([[|a s]|] & Hin & Hc); simpl in Hc; try tauto.
    destruct Hc as [<- | []]. split; [discriminate | exact Hin].
  - intros [Hne Hin]. exists (Some c). split; [exact Hin |].
    destruct c; [congruence | left; reflexivity].
Qed.

Lemma present_map_Some (l : list string) :
  (forall c, In c l -> c <> "") -> present (map Some l) = l.
Proof.
  induction l as [|x l IH]; intros H; [reflexivity |].
  simpl. destruct x as [|a s].
  - exfalso. apply (H ""); [left |]; reflexivity.
  - simpl. f_equal. apply IH. intros c Hc. apply H. right. exact Hc.
Qed.

Lemma dedupe_from_distinct (l : list string) :
  forall seen : list string,
    NoDup (map JSString.toLowerCase l) ->
    (forall x, In x l -> Set_has (JSString.toLowerCase x) seen = false) ->
    dedupe_from seen l = l.
Proof.
  induction l as [|x l IH]; intros seen N S; [reflexivity |].
  simpl. rewrite (S x) by (left; reflexivity).
  inversion N as [|k ks Hk Hks]; subst. f_equal. apply IH; [exact Hks |].
  intros y Hy. simpl.
  destruct (String.eqb (JSString.toLowerCase y) (JSString.toLowerCase x)) eqn:E.
  - apply String.eqb_eq in E. exfalso. apply Hk. rewrite <- E.
    apply in_map, Hy.
  - apply S. right. exact Hy.
Qed.

Lemma first_seen_In (l : list string) (x : string) :
  In x (first_seen l) -> In x l.
Proof.
  unfold first_seen. intros H. apply in_rev in H.
  apply first_seen_rev_incl in H. apply in_rev. exact H.
Qed.

Lemma firstn_In {A : Type} (n : nat) (l : list A) (x : A) :
  In x (firstn n l) -> In x l.
Proof.
  intros H. rewrite <- (firstn_skipn n l). apply in_or_app. left. exact H.
Qed.

Lemma dedupeColors_limit (colors : list (option string)) (limit : nat) :
  dedupeColors colors limit
  = firstn (Nat.max 1 limit) (first_seen (present colors)).
Proof.
  destruct limit as [|n].
  - unfold dedupeColors. rewrite dedupe_loop_zero, first_seen_dedupe_from.
    reflexivity.
  - replace (Nat.max 1 (S n)) with (S n) by lia.
    apply dedupeColors_spec. lia.
Qed.

End DedupeLimitFacts.

(** X1: [dedupeColors(colors, limit)] is the first [max(1, limit)] of the
    colours that are not empty, each kept where it is first seen, case
    apart: a limit of 0 still gives one colour, and the result is empty
    only when no colour is given. *)
Theorem dedupeColors_any_limit :
  forall (colors : list (option string)) (limit : nat),
    dedupeColors colors limit
    = firstn (Nat.max 1 limit) (first_seen (present colors))
    /\ (List.length (dedupeColors colors limit) <= Nat.max 1 limit)%nat
    /\ (dedupeColors colors limit = [] <-> present colors = []).
Proof.
  intros colors limit. rewrite dedupeColors_limit.
  split; [reflexivity |]. split.
  - rewrite length_firstn. lia.
  - rewrite <- (first_seen_nil (present colors)).
    destruct (first_seen (present colors)) as [|x l] eqn:E.
    + rewrite firstn_nil. tauto.
    + replace (Nat.max 1 limit) with (S (Nat.max 1 limit - 1)) by lia.
      simpl. split; discriminate.
Qed.

(** X2: the result of [dedupeColors] holds no two colours that agree up to
    case, holds only colours of the argument, none of them empty, and is
    left as it is when it is given to [dedupeColors] again. *)
Theorem dedupeColors_idempotent :
  forall (colors : list (option string)) (limit : nat),
    let out := dedupeColors colors limit in
    dedupeColors (map Some out) limit = out
    /\ NoDup (map JSString.toLowerCase out)
    /\ (forall c, In c out -> c <> "" /\ In (Some c) colors).
Proof.
  intros colors limit out.
  assert (E : out = firstn (Nat.max 1 limit) (first_seen (present colors)))
    by apply dedupeColors_limit.
  assert (N : NoDup (map JSString.toLowerCase out)).
  { rewrite E, <- firstn_map. apply NoDup_firstn, first_seen_NoDup. }
  assert (I : forall c, In c out -> c <> "" /\ In (Some c) colors).
  { intros c Hc. rewrite E in Hc. apply firstn_In, first_seen_In in Hc.
    apply present_In, Hc. }
  split; [| split; assumption].
  rewrite dedupeColors_limit, present_map_Some by (intros c Hc; apply I, Hc).
  rewrite first_seen_dedupe_from, dedupe_from_distinct;
    [| exact N | reflexivity].
  rewrite E, firstn_firstn. f_equal. lia.
Qed.

(** ** The scenes of the list *)

Lemma gradientColors_cases (colors : list string) :
  colors <> [] ->
  (2 <= List.length (gradientColors colors))%nat
  /\ (List.length (gradientColors colors) <= Nat.max 2 (List.length colors))%nat
  /\ (forall c, In c (gradientColors colors) <-> In c colors).
Proof.
  intros H. unfold gradientColors.
  destruct colors as [|a [|b rest]]; [congruence | |]; simpl.
  - repeat split; try lia; tauto.
  - repeat split; try lia; tauto.
Qed.

Section SceneListFacts.

Variable libm_log : float -> float.
Variable libm_pow : float -> float -> float.
Variable localeCompare : string -> string -> Z.

Lemma extractColors_length (scene : SceneRecord) :
  (1 <= List.length (extractColors libm_log libm_pow scene) <= 6)%nat.
Proof.
  unfold extractColors.
  set (combined := (paletteColors libm_pow scene ++ _)%list).
  cbv zeta.
  assert (L : (List.length (dedupeColors combined 6) <= 6)%nat).
  { rewrite dedupeColors_spec by lia. apply firstn_le_length. }
  destruct (List.length (dedupeColors combined 6)) eqn:E; simpl; lia.
Qed.

Lemma regularScenes_listed (sceneData : Payload) :
  Forall (listed libm_log libm_pow) (regularScenes libm_log libm_pow sceneData).
Proof.
  destruct sceneData as [[data|]| | |]; simpl; try constructor.
  apply Forall_forall. intros sc H. apply in_map_iff in H.
  destruct H as (record & <- & _). left. simpl. eauto.
Qed.

Lemma smartScenes_listed (smartSceneData : Payload) :
  Forall (listed libm_log libm_pow) (smartScenes smartSceneData).
Proof.
  destruct smartSceneData as [|[data|] | |]; simpl; try constructor.
  apply Forall_forall. intros sc H. apply in_map_iff in H.
  destruct H as (record & <- & _). right. simpl. auto.
Qed.

Context {B : Type}.
Variable respond : B -> Request -> B * Outcome.

Lemma steps_scenes (events : list Event) (w : World B) :
  tidy_world w -> scenes (ui (steps respond w events)) = scenes (ui w).
Proof. intros W. apply (steps_cursor respond events w W). Qed.

Lemma session_scenes (b : B) (early late : list Event) :
  let w0 := steps respond (boot b) early in
  let w := session libm_log libm_pow localeCompare respond b early late in
  scenes (ui w0) = []
  /\ scenes (ui w)
     = scenes (ui (run respond (load libm_log libm_pow localeCompare) w0)).
Proof.
  intros w0 w. split.
  - subst w0. rewrite steps_scenes by apply boot_tidy. reflexivity.
  - subst w. unfold session. fold w0. apply steps_scenes.
    apply run_tidy; [apply load_tidy | apply steps_tidy, boot_tidy].
Qed.

Lemma session_listed (b : B) (early late : list Event) :
  Forall (listed libm_log libm_pow)
    (scenes (ui (session libm_log libm_pow localeCompare respond b early late))).
Proof.
  destruct (session_scenes b early late) as [E0 ->].
  set (w0 := steps respond (boot b) early) in *.
  pose proof (run_load libm_log libm_pow localeCompare respond w0) as L.
  cbv zeta in L. destruct L as [_ L].
  destruct (checked (snd (respond (bridge w0) _))) as [m|sceneData].
  - destruct L as [_ ->]. rewrite E0. constructor.
  - destruct (checked (snd (respond _ (GET "/clip/v2/resource/light"))))
      as [m|lightData].
    + destruct L as [_ ->]. rewrite E0. constructor.
    + destruct L as [_ ->]. unfold sortScenes.
      eapply Permutation_Forall; [apply Array_sort_perm |].
      apply Forall_app. split;
        [apply regularScenes_listed | apply smartScenes_listed].
Qed.

End SceneListFacts.

(** X3: in every state of a run each scene of the list has colours, six
    at most, and [Swatches] gives [Gradient] two colours at least and no
    colour that the scene has not: a single colour is given twice. *)
Theorem Swatches_gradient_has_two_colors :
  forall (libm_log : float -> float) (libm_pow : float -> float -> float)
         (localeCompare : string -> string -> Z)
         (B : Type) (respond : B -> Request -> B * Outcome)
         (b : B) (early late : list Event),
    Forall (fun sc =>
              (1 <= List.length (colors sc) <= 6)%nat
              /\ (2 <= List.length (gradientColors (colors sc)) <= 6)%nat
              /\ (forall c, In c (gradientColors (colors sc)) <-> In c (colors sc))
              /\ (forall c, colors sc = [c] -> gradientColors (colors sc) = [c; c]))
      (scenes (ui (session libm_log libm_pow localeCompare respond b early late))).
Proof.
  intros libm_log libm_pow localeCompare B respond b early late.
  eapply Forall_impl;
    [| apply (session_listed libm_log libm_pow localeCompare respond b early late)].
  intros sc H.
  assert (L : (1 <= List.length (colors sc) <= 6)%nat).
  { destruct H as [(_ & record & _ & ->) | (_ & ->)];
      [apply extractColors_length | simpl; lia]. }
  assert (N : colors sc <> []) by (destruct (colors sc); simpl in L; [lia | discriminate]).
  destruct (gradientColors_cases (colors sc) N) as (G1 & G2 & G3).
  split; [exact L |]. split; [lia |]. split; [exact G3 |].
  intros c ->. reflexivity.
Qed.

(** ** What the program sends and when it exits *)

Section RequestFacts.

Variable libm_log : float -> float.
Variable libm_pow : float -> float -> float.
Variable localeCompare : string -> string -> Z.

Lemma expected_request_mono (l1 l2 : list Scene) (r : Request) :
  (forall sc, In sc l1 -> In sc l2) ->
  expected_request l1 r -> expected_request l2 r.
Proof.
  intros I [H | [H | [H | (sc & Hin & H)]]].
  - left. exact H.
  - right. left. exact H.
  - right. right. left. exact H.
  - right. right. right. exists sc. split; [apply I, Hin | exact H].
Qed.

Lemma storeLights_asks (P : Request -> Prop) (lightsArray : list Light)
      (next : Task) :
  asks P next -> asks P (storeLights lightsArray next).
Proof. intros K. unfold storeLights. task_cases; exact K. Qed.

Lemma load_asks (l : list Scene) :
  asks (expected_request l) (load libm_log libm_pow localeCompare).
Proof.
  unfold load. cbn [asks]. split.
  - repeat (constructor; [left; simpl; tauto |]). constructor.
  - intros outcomes.
    destruct (Promise_all _) as [m|[|sceneData [|smartSceneData [|lightData rest]]]];
      cbn [asks]; try exact I.
    apply storeLights_asks. exact I.
Qed.

Lemma activateScene_listed (sc : Scene) :
  listed libm_log libm_pow sc ->
  (type sc = "scene"
   /\ activateScene (id sc) (type sc)
      = PUT ("/clip/v2/resource/scene/" ++ id sc) (RecallBody "active"))
  \/ (type sc = "smart_scene"
      /\ activateScene (id sc) (type sc)
         = PUT ("/clip/v2/resource/smart_scene/" ++ id sc)
             (RecallBody "activate")).
Proof.
  intros [(E & _) | (E & _)]; [left | right]; (split; [exact E |]);
    unfold activateScene; rewrite E; reflexivity.
Qed.

Lemma doActivate_asks (l : list Scene) (scene : option Scene) :
  (forall sc, scene = Some sc -> In sc l /\ listed libm_log libm_pow sc) ->
  asks (expected_request l) (doActivate scene).
Proof.
  intros H. destruct scene as [sc|]; [| exact I].
  destruct (H sc eq_refl) as [Hin Hl]. cbn [doActivate asks]. split.
  - constructor; [| constructor]. right. right. right. exists sc.
    split; [exact Hin |].
    destruct (activateScene_listed sc Hl) as [[E ->] | [E ->]]; auto.
  - intros o1. destruct (checked _); cbn [asks]; [exact I |]. split.
    + constructor; [| constructor]. left. unfold reloadLights. simpl. tauto.
    + intros o2. destruct (checked _); cbn [asks]; [exact I |].
      apply storeLights_asks. exact I.
Qed.

Lemma doSetBrightness_asks (l : list Scene) (st : State) (level : float) :
  is_nan level = false ->
  asks (expected_request l) (doSetBrightness st level).
Proof.
  intros N. unfold doSetBrightness. cbn [asks]. split.
  - apply Forall_forall. intros r H. apply in_map_iff in H.
    destruct H as (light & <- & _). right. right. left.
    exists (light_id light), (Math.max 1 (Math.min 100 level)).
    split; [reflexivity |].
    destruct (clampedLevel_bounds level) as (_ & _ & C).
    destruct (C N) as (C1 & C2 & _). split; assumption.
  - intros outcomes. destruct (Promise_all _); exact I.
Qed.

Lemma toggleAllLights_asks (l : list Scene) (st : State) :
  asks (expected_request l) (toggleAllLights st).
Proof.
  unfold toggleAllLights. cbn [asks]. split.
  - apply Forall_forall. intros r H. apply in_map_iff in H.
    destruct H as (light & <- & _). right. left. eauto.
  - intros outcomes. destruct (Promise_all _); cbn [asks]; [exact I |]. split.
    + constructor; [| constructor]. left. unfold reloadLights. simpl. tauto.
    + intros o2. destruct (checked _); exact I.
Qed.

Lemma at_index_In {A : Type} (l : list A) (i : Z) (x : A) :
  at_index l i = Some x -> In x l.
Proof.
  unfold at_index. destruct (i <? 0)%Z; [discriminate |]. apply nth_error_In.
Qed.

Lemma useInput_asks (st : State) (input : string) (key : Key) :
  Forall (listed libm_log libm_pow) (scenes st) ->
  is_nan (brightness st) = false ->
  asks (expected_request (scenes st)) (useInput st input key).
Proof.
  intros L N.
  assert (A : forall i,
             asks (expected_request (scenes st))
               (doActivate (at_index (scenes st) i))).
  { intros i. apply doActivate_asks. intros sc E. apply at_index_In in E.
    split; [exact E |]. rewrite Forall_forall in L. apply L, E. }
  unfold useInput. cbv zeta.
  repeat match goal with
         | |- asks _ (if ?c then _ else _) => destruct c
         | |- asks _ (doActivate _) => apply A
         | |- asks _ (doSetBrightness _ (_ + _)%float) =>
             apply doSetBrightness_asks, add_one_not_nan, N
         | |- asks _ (doSetBrightness _ (_ - _)%float) =>
             apply doSetBrightness_asks, sub_one_not_nan, N
         | |- asks _ (toggleAllLights _) => apply toggleAllLights_asks
         | |- asks _ (Update _ _) => cbn [asks]
         | |- asks _ (Exit _) => cbn [asks]
         | |- asks _ Done => exact I
         | |- True => exact I
         end.
Qed.

Lemma load_stays : stays (load libm_log libm_pow localeCompare).
Proof. unfold load, storeLights. task_cases. Qed.

Lemma doActivate_stays (scene : option Scene) : stays (doActivate scene).
Proof. unfold doActivate, storeLights. task_cases. Qed.

Lemma useInput_stays (st : State) (input : string) (key : Key) :
  is_quit (KeyPress input key) = false -> stays (useInput st input key).
Proof.
  cbn [is_quit]. intros Q. unfold useInput. rewrite Q. cbv zeta.
  repeat match goal with
         | |- stays (if ?c then _ else _) => destruct c
         | |- stays (doActivate _) => apply doActivate_stays
         | |- stays (doSetBrightness _ _) => unfold doSetBrightness; task_cases
         | |- stays (toggleAllLights _) => unfold toggleAllLights; task_cases
         | |- stays (Update _ _) => cbn [stays]
         | |- stays Done => exact I
         | |- True => exact I
         end.
Qed.

Context {B : Type}.
Variable respond : B -> Request -> B * Outcome.

Lemma fetch_all_length (requests : list Request) :
  forall b : B,
    List.length (snd (fetch_all respond b requests)) = List.length requests.
Proof.
  induction requests as [|r rest IH]; intros b; [reflexivity |].
  cbn [fetch_all]. destruct (respond b r) as [b1 o].
  specialize (IH b1). destruct (fetch_all respond b1 rest) as [b2 os].
  simpl in *. congruence.
Qed.

Lemma run_asks (P : Request -> Prop) (t : Task) :
  forall w : World B,
    asks P t -> Forall P (sent w) -> Forall P (sent (run respond t w)).
Proof.
  induction t as [|setter next IH|requests next IH|ms next IH
                  |callback _ ms next IH|next IH]; intros w K S; simpl in *.
  - exact S.
  - apply IH; assumption.
  - destruct K as [K1 K2].
    destruct (fetch_all respond (bridge w) requests) as [b outcomes].
    apply IH; [apply K2 |]. simpl. apply Forall_app. split; assumption.
  - apply IH; assumption.
  - apply IH; assumption.
  - apply IH; assumption.
Qed.

Lemma run_stays (t : Task) :
  forall w : World B, stays t -> exited (run respond t w) = exited w.
Proof.
  induction t as [|setter next IH|requests next IH|ms next IH
                  |callback _ ms next IH|next IH]; intros w K; simpl in *.
  - reflexivity.
  - rewrite IH by exact K. reflexivity.
  - destruct (fetch_all respond (bridge w) requests) as [b outcomes].
    rewrite IH by apply K. reflexivity.
  - apply IH, K.
  - rewrite IH by exact K. reflexivity.
  - destruct K.
Qed.

Lemma step_timer (w : World B) :
  tidy_world w ->
  step respond w TimerFires
  = match timers w with
    | [] => w
    | _ :: rest =>
        {| ui := setMessage "" (ui w); bridge := bridge w; sent := sent w;
           timers := rest; exited := exited w |}
    end.
Proof.
  intros W. cbn [step]. destruct (timers w) as [|[ms callback] rest] eqn:E;
    [reflexivity |].
  unfold tidy_world in W. rewrite E in W. inversion W; subst.
  simpl in *. subst callback. reflexivity.
Qed.

Lemma step_exited (w : World B) (e : Event) :
  tidy_world w ->
  exited (step respond w e) = (exited w || is_quit e)%bool.
Proof.
  intros W. destruct e as [input key|].
  - destruct (is_quit (KeyPress input key)) eqn:Q.
    + cbn [step is_quit] in *. unfold useInput. rewrite Q. cbn [run exited].
      destruct (exited w); reflexivity.
    + cbn [step]. rewrite run_stays by (apply useInput_stays, Q).
      destruct (exited w); reflexivity.
  - rewrite step_timer by exact W. cbn [is_quit].
    destruct (timers w); cbn [exited]; destruct (exited w); reflexivity.
Qed.

Lemma steps_exited (events : list Event) :
  forall w : World B,
    tidy_world w ->
    exited (steps respond w events) = (exited w || existsb is_quit events)%bool.
Proof.
  induction events as [|e rest IH]; intros w W.
  - simpl. destruct (exited w); reflexivity.
  - change (steps respond w (e :: rest))
      with (steps respond (step respond w e) rest).
    rewrite IH by apply step_tidy, W. rewrite step_exited by exact W.
    simpl. destruct (exited w), (is_quit e); reflexivity.
Qed.

End RequestFacts.

(** X5: [exit()] is called for [q] and for Esc and for nothing else: after
    a run it has been called exactly when one of the key presses was [q]
    or Esc. *)
Theorem exits_only_on_quit :
  forall (libm_log : float -> float) (libm_pow : float -> float -> float)
         (localeCompare : string -> string -> Z)
         (B : Type) (respond : B -> Request -> B * Outcome)
         (b : B) (early late : list Event),
    exited (session libm_log libm_pow localeCompare respond b early late)
    = existsb is_quit (early ++ late)%list.
Proof.
  intros libm_log libm_pow localeCompare B respond b early late.
  unfold session.
  rewrite steps_exited
    by (apply run_tidy; [apply load_tidy | apply steps_tidy, boot_tidy]).
  rewrite run_stays by apply load_stays.
  rewrite steps_exited by apply boot_tidy.
  rewrite existsb_app. reflexivity.
Qed.

(** ** What is shown *)

Section ViewFacts.

Lemma rows_from_snd (l : list Scene) :
  forall idx sel : Z, map snd (rows_from idx sel l) = l.
Proof.
  induction l as [|sc rest IH]; intros idx sel; simpl; [| rewrite IH];
    reflexivity.
Qed.

Lemma rows_from_after (l : list Scene) :
  forall idx sel : Z,
    (sel < idx)%Z ->
    map fst (rows_from idx sel l) = repeat false (List.length l).
Proof.
  induction l as [|sc rest IH]; intros idx sel H; simpl; [reflexivity |].
  rewrite IH by lia. replace (idx =? sel)%Z with false; [reflexivity |].
  symmetry. apply Z.eqb_neq. lia.
Qed.

Lemma rows_from_fst (l : list Scene) :
  forall idx sel : Z,
    (idx <= sel < idx + Z.of_nat (List.length l))%Z ->
    map fst (rows_from idx sel l)
    = (repeat false (Z.to_nat (sel - idx))
       ++ true :: repeat false (List.length l - Z.to_nat (sel - idx) - 1))%list.
Proof.
  induction l as [|sc rest IH]; intros idx sel H; [simpl in H; lia |].
  cbn [rows_from map fst]. destruct (Z.eqb_spec idx sel) as [E|E].
  - subst sel. rewrite Z.sub_diag, rows_from_after by lia.
    simpl. rewrite Nat.sub_0_r. reflexivity.
  - rewrite IH by (simpl List.length in H; lia).
    replace (Z.to_nat (sel - idx)) with (S (Z.to_nat (sel - (idx + 1)))) by lia.
    reflexivity.
Qed.

End ViewFacts.

(** X6: in a state of a run that shows the list, the rows are the scenes
    in their order and exactly one row is marked, the one the cursor is
    on. *)
Theorem render_marks_the_selected_row :
  forall (libm_log : float -> float) (libm_pow : float -> float -> float)
         (localeCompare : string -> string -> Z)
         (B : Type) (respond : B -> Request -> B * Outcome)
         (b : B) (early late : list Event)
         (hint : string) (level : float) (adjusting : bool)
         (status : option string) (rows : list (bool * Scene)),
    let s := ui (session libm_log libm_pow localeCompare respond b early late) in
    render s = ScenesView hint level adjusting status rows ->
    let n := Z.to_nat (selected s) in
    (n < List.length (scenes s))%nat
    /\ map snd rows = scenes s
    /\ map fst rows
       = (repeat false n
          ++ true :: repeat false (List.length (scenes s) - n - 1))%list.
Proof.
  intros libm_log libm_pow localeCompare B respond b early late
    hint level adjusting status rows s R n.
  pose proof (session_valid_cursor libm_log libm_pow localeCompare respond
                b early late) as V.
  fold s in V. unfold valid_cursor in V. subst n. clearbody s.
  unfold render in R. destruct (loading s); [discriminate |].
  assert (R' : match scenes s with
               | [] => NoScenesView
               | _ =>
                   ScenesView
                     (if brightnessMode s then "brightness"
                      else if setMode s then "sets active" else "to move")
                     (brightness s) (brightnessMode s)
                     (if brightnessMode s then None
                      else Some (match message s with
                                 | "" => if lightsOn s then "On" else "Off"
                                 | m => m
                                 end))
                     (rows_from 0 (selected s) (scenes s))
               end = ScenesView hint level adjusting status rows).
  { destruct (error s) as [[|c e]|]; [exact R | discriminate | exact R]. }
  clear R. destruct (scenes s) as [|sc rest] eqn:E; [discriminate |].
  apply (f_equal (fun v => match v with
                           | ScenesView _ _ _ _ r => r
                           | _ => []
                           end)) in R'.
  cbv beta iota in R'. subst rows.
  assert (L : (0 <= selected s < 0 + Z.of_nat (List.length (sc :: rest)))%Z)
    by (simpl List.length in *; lia).
  split; [simpl List.length in *; lia |].
  split; [apply rows_from_snd |].
  rewrite rows_from_fst by exact L. rewrite Z.sub_0_r. reflexivity.
Qed.

Lemma render_marks_the_selected_row_witness :
  let s := ui (example_session example_hub [down]) in
  exists rows,
    render s = ScenesView "to move" 40 false (Some "On") rows
    /\ map fst rows = [false; true]
    /\ map name (map snd rows) = ["Bright"; "Evening"].
Proof.
  eexists. split; [vm_compute; reflexivity |].
  destruct (render_marks_the_selected_row Libm.log Libm.pow compare_code_units
              Hub hub_respond example_hub [] [down] "to move" 40 false
              (Some "On") _ ltac:(vm_compute; reflexivity)) as (_ & H2 & H3).
  split; [exact H3 | rewrite H2; vm_compute; reflexivity].
Defined.

(** X7: until the load has settled the view is the loading text, whatever
    keys are pressed; once it has settled the loading text is never shown
    again. *)
Theorem loading_view_until_loaded :
  forall (libm_log : float -> float) (libm_pow : float -> float -> float)
         (localeCompare : string -> string -> Z)
         (B : Type) (respond : B -> Request -> B * Outcome)
         (b : B) (early late : list Event),
    render (ui (steps respond (boot b) early)) = LoadingView
    /\ render (ui (session libm_log libm_pow localeCompare respond b early late))
       <> LoadingView.
Proof.
  intros libm_log libm_pow localeCompare B respond b early late. split.
  - pose proof (steps_failure respond early (boot b) (boot_tidy b)) as F.
    apply (f_equal snd) in F. cbn [snd failure boot ui initial_state loading] in F.
    unfold render. rewrite F. reflexivity.
  - pose proof (session_loaded libm_log libm_pow localeCompare respond
                  b early late) as L.
    unfold render. rewrite L.
    destruct (error _) as [[|c e]|]; try discriminate;
      destruct (scenes _); discriminate.
Qed.

(** X8: the only timer that a handler leaves running when it ends is the
    one [toggleAllLights] sets after a toggle that succeeded (the delay
    that [doActivate] awaits is over when it goes on): when it fires it
    empties the message, whatever the message is by then, the report of a
    later failure included, and changes nothing else. *)
Theorem timer_only_clears_the_message :
  forall (libm_log : float -> float) (libm_pow : float -> float -> float)
         (localeCompare : string -> string -> Z)
         (B : Type) (respond : B -> Request -> B * Outcome)
         (b : B) (early late : list Event),
    let w := session libm_log libm_pow localeCompare respond b early late in
    Forall (fun timer => snd timer = Update (setMessage "") Done) (timers w)
    /\ step respond w TimerFires
       = match timers w with
         | [] => w
         | _ :: rest =>
             {| ui := setMessage "" (ui w); bridge := bridge w; sent := sent w;
                timers := rest; exited := exited w |}
         end.
Proof.
  intros libm_log libm_pow localeCompare B respond b early late w.
  pose proof (session_tidy libm_log libm_pow localeCompare respond b early late)
    as W.
  fold w in W. split; [exact W | apply step_timer, W].
Qed.

Lemma timer_only_clears_the_message_witness :
  let w := session Libm.log Libm.pow compare_code_units no_recall example_hub
             [] [letter "o"; enter] in
  timers w = [(2000%Z, Update (setMessage "") Done)]
  /\ message (ui w) = "Failed to activate: fetch failed"
  /\ message (ui (step no_recall w TimerFires)) = ""
  /\ timers (step no_recall w TimerFires) = [].
Proof.
  intros w.
  destruct (timer_only_clears_the_message Libm.log Libm.pow compare_code_units
              Hub no_recall example_hub [] [letter "o"; enter]) as [_ E].
  fold w in E.
  assert (T : timers w = [(2000%Z, Update (setMessage "") Done)])
    by (vm_compute; reflexivity).
  rewrite T in E. rewrite E.
  split; [exact T |]. split; [vm_compute; reflexivity |].
  split; reflexivity.
Defined.

(** ** How the handlers end *)

Section OutcomeFacts.

(** [Promise.all] over bare [fetch]es: fulfilled when every one is,
    whatever the status of the responses, and rejected with the reason of
    one that is rejected. *)
Lemma Promise_all_unchecked (outcomes : list Outcome) :
  (Forall (fun o => exists res, o = Fulfilled res) outcomes
   /\ exists values, Promise_all (map unchecked outcomes) = inr values)
  \/ (exists message,
        In (Rejected message) outcomes
        /\ Promise_all (map unchecked outcomes) = inl message).
Proof.
  induction outcomes as [|o rest IH].
  - left. split; [constructor | simpl; eauto].
  - destruct o as [m|res].
    + right. exists m. split; [left |]; reflexivity.
    + destruct IH as [(F & values & E) | (m & Hin & E)].
      * left. split; [constructor; eauto |]. simpl. rewrite E. eauto.
      * right. exists m. split; [right; exact Hin |]. simpl. rewrite E.
        reflexivity.
Qed.

End OutcomeFacts.

Section StoreFacts.

Context {B : Type}.
Variable respond : B -> Request -> B * Outcome.

(** What the code that stores a roster leaves. *)
Lemma run_storeLights (roster : list Light) (w : World B) :
  run respond (storeLights roster Done) w
  = {| ui :=
         {| scenes := scenes (ui w); loading := loading (ui w);
            error := error (ui w); selected := selected (ui w);
            message := message (ui w); setMode := setMode (ui w);
            brightnessMode := brightnessMode (ui w);
            brightness :=
              match filter is_on roster with
              | [] => brightness (ui w)
              | onLights => averageBrightness onLights
              end;
            lights := roster;
            lightsOn :=
              match roster with
              | [] => lightsOn (ui w)
              | _ => existsb is_on roster
              end |};
       bridge := bridge w; sent := sent w; timers := timers w;
       exited := exited w |}.
Proof.
  unfold storeLights. destruct roster as [|l ls]; [reflexivity |].
  destruct (filter is_on (l :: ls)); reflexivity.
Qed.

End StoreFacts.

(** X9: when the recall of [doActivate] fails, by a rejected [fetch] or by
    a status that is not ok, the lights are not listed again and nothing
    changes but the message, which becomes [Failed to activate: ] and the
    reason; when the recall succeeds and the listing of the lights fails,
    the message is the same [Failed to activate: ] with the reason of the
    listing.  No timer is set: the message stays. *)
Theorem doActivate_reports_failure :
  forall (B : Type) (respond : B -> Request -> B * Outcome) (w : World B)
         (sc : Scene) (b1 : B) (reply : Outcome),
    respond (bridge w) (activateScene (id sc) (type sc)) = (b1, reply) ->
    (forall message,
        checked reply = inl message ->
        run respond (doActivate (Some sc)) w
        = {| ui := setMessage ("Failed to activate: " ++ message) (ui w);
             bridge := b1;
             sent := (sent w ++ [activateScene (id sc) (type sc)])%list;
             timers := timers w; exited := exited w |})
    /\ (forall payload b2 reload message,
          checked reply = inr payload ->
          respond b1 (GET "/clip/v2/resource/light") = (b2, reload) ->
          checked reload = inl message ->
          run respond (doActivate (Some sc)) w
          = {| ui := setMessage ("Failed to activate: " ++ message) (ui w);
               bridge := b2;
               sent := (sent w ++ [activateScene (id sc) (type sc);
                                   GET "/clip/v2/resource/light"])%list;
               timers := timers w; exited := exited w |}).
Proof.
  intros B respond w sc b1 reply H1. split.
  - intros message E. cbn [doActivate run fetch_all bridge]. rewrite H1.
    cbn [the_outcome hd]. rewrite E. reflexivity.
  - intros payload b2 reload message E H2 E2.
    cbn [doActivate run fetch_all bridge]. rewrite H1.
    cbn [the_outcome hd]. rewrite E. cbn [run fetch_all bridge].
    unfold reloadLights. rewrite H2. cbn [the_outcome hd]. rewrite E2.
    cbn [run ui bridge sent timers exited]. rewrite <- app_assoc. reflexivity.
Qed.

Lemma doActivate_reports_failure_witness :
  let w := boot (B := unit) tt in
  let sc := {| id := "7"; name := "Dusk"; colors := ["#444444"];
               type := "scene" |} in
  run unreachable (doActivate (Some sc)) w
  = {| ui := setMessage "Failed to activate: fetch failed" initial_state;
       bridge := tt;
       sent := [PUT "/clip/v2/resource/scene/7" (RecallBody "active")];
       timers := []; exited := false |}.
Proof.
  apply (proj1 (doActivate_reports_failure unit unreachable (boot tt)
                  {| id := "7"; name := "Dusk"; colors := ["#444444"];
                     type := "scene" |} tt (Rejected "fetch failed") eq_refl)
           "fetch failed" eq_refl).
Defined.

(** X10: when the recall and the listing of the lights both succeed,
    [doActivate] leaves an empty message and the listed lights; the
    aggregate power becomes "some light is on", or stays as it was when no
    light is listed; the brightness becomes the mean of the lights that
    are on, a light without a level counting 100, or stays as it was when
    none is on.  Cursor, modes, error and loading flag are as before, two
    requests are sent, and [doActivate] leaves no timer running: the
    timers that run when it has ended are those that ran before. *)
Theorem doActivate_refreshes_the_roster :
  forall (B : Type) (respond : B -> Request -> B * Outcome) (w : World B)
         (sc : Scene) (b1 b2 : B) (reply reload : Outcome)
         (payload lightData : Payload),
    respond (bridge w) (activateScene (id sc) (type sc)) = (b1, reply) ->
    checked reply = inr payload ->
    respond b1 (GET "/clip/v2/resource/light") = (b2, reload) ->
    checked reload = inr lightData ->
    let roster := lights_of lightData in
    let w' := run respond (doActivate (Some sc)) w in
    lights (ui w') = roster
    /\ message (ui w') = ""
    /\ lightsOn (ui w')
       = match roster with
         | [] => lightsOn (ui w)
         | _ => existsb is_on roster
         end
    /\ brightness (ui w')
       = match filter is_on roster with
         | [] => brightness (ui w)
         | onLights => averageBrightness onLights
         end
    /\ cursor (ui w') = cursor (ui w)
    /\ modes (ui w') = modes (ui w)
    /\ failure (ui w') = failure (ui w)
    /\ sent w' = (sent w ++ [activateScene (id sc) (type sc);
                             GET "/clip/v2/resource/light"])%list
    /\ timers w' = timers w.
Proof.
  intros B respond w sc b1 b2 reply reload payload lightData H1 E1 H2 E2
    roster w'.
  assert (E : w' = run respond (storeLights roster Done)
                     {| ui := setMessage "" (ui w); bridge := b2;
                        sent := ((sent w ++ [activateScene (id sc) (type sc)])
                                 ++ [GET "/clip/v2/resource/light"])%list;
                        timers := timers w; exited := exited w |}).
  { subst w'. cbn [doActivate run fetch_all bridge]. rewrite H1.
    cbn [the_outcome hd]. rewrite E1. cbn [run fetch_all bridge].
    unfold reloadLights. rewrite H2. cbn [the_outcome hd]. rewrite E2.
    reflexivity. }
  rewrite run_storeLights in E. clearbody w'. subst w'.
  cbn [ui sent timers lights message lightsOn brightness cursor modes failure
       selected scenes setMode brightnessMode error loading setMessage].
  rewrite <- app_assoc. repeat split; reflexivity.
Qed.

Lemma doActivate_refreshes_the_roster_witness :
  let w := example_session example_hub [] in
  let w' := step hub_respond w enter in
  lights (ui w') = [example_light "a" true 40; example_light "b" false 70]
  /\ lightsOn (ui w') = true
  /\ brightness (ui w') = 40%float
  /\ sent w' = (sent w ++ [PUT "/clip/v2/resource/scene/2" (RecallBody "active");
                           GET "/clip/v2/resource/light"])%list.
Proof.
  pose proof (doActivate_refreshes_the_roster Hub hub_respond
                (example_session example_hub [])
                {| id := "2"; name := "Bright"; colors := ["#444444"];
                   type := "scene" |}
                _ _ _ _ _ _ eq_refl eq_refl eq_refl eq_refl)
    as (H1 & _ & H3 & H4 & _ & _ & _ & H8 & _).
  cbv zeta in *. split; [exact H1 |]. split; [exact H3 |].
  split; [exact H4 | exact H8].
Defined.

(** X11: [doSetBrightness] counts a [fetch] as failed only when it is
    rejected: when every one is fulfilled, with whatever status, the
    message is left as it is; when one is rejected the message becomes
    [Failed to set brightness: ] and the reason of a rejected one.  Either
    way the clamped level stays stored, the stored lights are not updated
    and no timer is set. *)
Theorem doSetBrightness_reports_rejections :
  forall (B : Type) (respond : B -> Request -> B * Outcome) (w : World B)
         (st : State) (level : float) (b1 : B) (outcomes : list Outcome),
    let clampedLevel := Math.max 1 (Math.min 100 level) in
    let puts :=
      map (fun light => PUT (light_path (light_id light)) (DimmingBody clampedLevel))
          (lights st) in
    fetch_all respond (bridge w) puts = (b1, outcomes) ->
    let w' := run respond (doSetBrightness st level) w in
    ((Forall (fun o => exists res, o = Fulfilled res) outcomes
      /\ ui w' = setBrightness clampedLevel (ui w))
     \/ (exists message,
           In (Rejected message) outcomes
           /\ ui w' = setMessage ("Failed to set brightness: " ++ message)
                        (setBrightness clampedLevel (ui w))))
    /\ lights (ui w') = lights (ui w)
    /\ sent w' = (sent w ++ puts)%list
    /\ timers w' = timers w.
Proof.
  intros B respond w st level b1 outcomes clampedLevel puts H w'.
  subst w'. unfold doSetBrightness. fold clampedLevel. fold puts.
  cbn [run bridge]. rewrite H.
  destruct (Promise_all_unchecked outcomes) as [(F & values & ->) | (m & Hin & ->)];
    cbn [run ui sent timers lights setBrightness setMessage].
  - split; [left; split; [exact F | reflexivity] |]. repeat split.
  - split; [right; exists m; split; [exact Hin | reflexivity] |]. repeat split.
Qed.

Lemma doSetBrightness_reports_rejections_witness :
  let w1 := run refusing (doSetBrightness (ui (example_session example_hub [])) 41)
              (boot tt) in
  let w2 := run unreachable
              (doSetBrightness (ui (example_session example_hub [])) 41)
              (boot tt) in
  (message (ui w1) = "" /\ brightness (ui w1) = 41%float)
  /\ (message (ui w2) = "Failed to set brightness: fetch failed"
      /\ brightness (ui w2) = 41%float).
Proof.
  split.
  - destruct (doSetBrightness_reports_rejections unit refusing (boot tt)
                (ui (example_session example_hub [])) 41 _ _ eq_refl)
      as ([(_ & E) | (m & Hin & _)] & _).
    + cbv zeta in E. rewrite E. split; vm_compute; reflexivity.
    + exfalso. vm_compute in Hin. intuition discriminate.
  - destruct (doSetBrightness_reports_rejections unit unreachable (boot tt)
                (ui (example_session example_hub [])) 41 _ _ eq_refl)
      as ([(F & _) | (m & Hin & E)] & _).
    + exfalso. vm_compute in F. inversion F as [|? ? (res & C) _]. discriminate.
    + cbv zeta in E. rewrite E.
      assert (M : m = "fetch failed").
      { vm_compute in Hin. destruct Hin as [C | [C | []]]; congruence. }
      subst m. split; vm_compute; reflexivity.
Defined.

(** X12: when a [fetch] of [toggleAllLights] is rejected the lights are
    not listed again, and when the listing that follows fails nothing is
    stored: either way the stored lights and the aggregate power stay as
    they were, the message becomes [Failed to toggle lights: ] and the
    reason, and no timer is set, so that the message stays. *)
Theorem toggleAllLights_reports_failure :
  forall (B : Type) (respond : B -> Request -> B * Outcome) (w : World B)
         (b1 : B) (outcomes : list Outcome),
    let target := negb (existsb is_on (lights (ui w))) in
    let puts :=
      map (fun light => PUT (light_path (light_id light)) (OnBody target))
          (lights (ui w)) in
    fetch_all respond (bridge w) puts = (b1, outcomes) ->
    (~ Forall (fun o => exists res, o = Fulfilled res) outcomes ->
     exists message,
       In (Rejected message) outcomes
       /\ step respond w (letter "o")
          = {| ui := setMessage ("Failed to toggle lights: " ++ message) (ui w);
               bridge := b1; sent := (sent w ++ puts)%list;
               timers := timers w; exited := exited w |})
    /\ (forall b2 reload message,
          Forall (fun o => exists res, o = Fulfilled res) outcomes ->
          respond b1 (GET "/clip/v2/resource/light") = (b2, reload) ->
          checked reload = inl message ->
          step respond w (letter "o")
          = {| ui := setMessage ("Failed to toggle lights: " ++ message) (ui w);
               bridge := b2;
               sent := (sent w ++ puts ++ [GET "/clip/v2/resource/light"])%list;
               timers := timers w; exited := exited w |}).
Proof.
  intros B respond w b1 outcomes target puts H.
  assert (S : step respond w (letter "o") = run respond (toggleAllLights (ui w)) w)
    by reflexivity.
  rewrite S. unfold toggleAllLights. fold target. fold puts.
  cbn [run bridge]. rewrite H. split.
  - intros N.
    destruct (Promise_all_unchecked outcomes) as [(F & _) | (m & Hin & ->)];
      [contradiction |].
    exists m. split; [exact Hin | reflexivity].
  - intros b2 reload message F H2 E2.
    destruct (Promise_all_unchecked outcomes) as [(_ & values & ->) | (m & Hin & _)].
    + cbn [run fetch_all bridge]. unfold reloadLights. rewrite H2.
      cbn [the_outcome hd]. rewrite E2. cbn [run ui bridge sent timers exited].
      rewrite <- app_assoc. reflexivity.
    + exfalso. rewrite Forall_forall in F. destruct (F _ Hin) as (res & C).
      discriminate.
Qed.

Lemma toggleAllLights_reports_failure_witness :
  let w := {| ui := ui (example_session example_hub []); bridge := tt;
              sent := []; timers := []; exited := false |} in
  exists message,
    step unreachable w (letter "o")
    = {| ui := setMessage ("Failed to toggle lights: " ++ message) (ui w);
         bridge := tt;
         sent := [PUT "/clip/v2/resource/light/a" (OnBody false);
                  PUT "/clip/v2/resource/light/b" (OnBody false)];
         timers := []; exited := false |}.
Proof.
  destruct (proj1 (toggleAllLights_reports_failure unit unreachable
                     {| ui := ui (example_session example_hub []); bridge := tt;
                        sent := []; timers := []; exited := false |}
                     _ _ eq_refl)) as (m & _ & E).
  - intros F. vm_compute in F. inversion F as [|? ? (res & C) _]. discriminate.
  - exists m. cbv zeta in *. rewrite E. vm_compute. reflexivity.
Defined.

(** ** What the load stores *)

Section LoadStoreFacts.

Context {B : Type}.
Variable respond : B -> Request -> B * Outcome.

Lemma run_storeLights_next (roster : list Light) (next : Task) (w : World B) :
  run respond (storeLights roster next) w
  = run respond next (run respond (storeLights roster Done) w).
Proof.
  unfold storeLights. destruct roster as [|l ls]; [reflexivity |].
  destruct (filter is_on (l :: ls)); reflexivity.
Qed.

Lemma run_sent_prefix (t : Task) :
  forall w : World B,
    exists more, sent (run respond t w) = (sent w ++ more)%list.
Proof.
  induction t as [|setter next IH|requests next IH|ms next IH
                  |callback _ ms next IH|next IH]; intros w; simpl.
  - exists []. rewrite app_nil_r. reflexivity.
  - destruct (IH {| ui := setter (ui w); bridge := bridge w; sent := sent w;
                    timers := timers w; exited := exited w |}) as (more & ->).
    eauto.
  - destruct (fetch_all respond (bridge w) requests) as [b outcomes].
    destruct (IH outcomes
                {| ui := ui w; bridge := b; sent := (sent w ++ requests)%list;
                   timers := timers w; exited := exited w |}) as (more & ->).
    simpl. rewrite <- app_assoc. eauto.
  - apply IH.
  - destruct (IH {| ui := ui w; bridge := bridge w; sent := sent w;
                    timers := (timers w ++ [(ms, callback)])%list;
                    exited := exited w |}) as (more & ->).
    eauto.
  - destruct (IH {| ui := ui w; bridge := bridge w; sent := sent w;
                    timers := timers w; exited := true |}) as (more & ->).
    eauto.
Qed.

Lemma doActivate_sent (sc : Scene) (w : World B) :
  exists more,
    sent (run respond (doActivate (Some sc)) w)
    = (sent w ++ activateScene (id sc) (type sc) :: more)%list.
Proof.
  cbn [doActivate run bridge ui sent timers exited].
  destruct (fetch_all respond (bridge w) [activateScene (id sc) (type sc)])
    as [b1 outcomes].
  cbv beta iota.
  match goal with
  | |- context [run respond ?t ?w1] =>
      destruct (run_sent_prefix t w1) as (more & M)
  end.
  exists more. rewrite M. cbn [sent]. rewrite <- app_assoc. reflexivity.
Qed.

Lemma at_index_nth_error {A : Type} (l : list A) (i : Z) :
  (0 <= i)%Z -> at_index l i = nth_error l (Z.to_nat i).
Proof.
  intros H. unfold at_index. replace (i <? 0)%Z with false; [reflexivity |].
  symmetry. apply Z.ltb_ge. exact H.
Qed.

Lemma nth_error_some {A : Type} (l : list A) (n : nat) :
  (n < List.length l)%nat -> exists x, nth_error l n = Some x.
Proof.
  intros H. destruct (nth_error l n) as [x|] eqn:E; [eauto |].
  apply nth_error_None in E. lia.
Qed.

End LoadStoreFacts.

(** X13: when the listing of the scenes or the listing of the lights
    fails, the load stores nothing, also when the other listing has
    succeeded: the state is left as it was but for the error, which is the
    reason of a listing that failed, and the loading flag, which is
    cleared; the three listings have all been asked for. *)
Theorem load_failure_stores_nothing :
  forall (libm_log : float -> float) (libm_pow : float -> float -> float)
         (localeCompare : string -> string -> Z)
         (B : Type) (respond : B -> Request -> B * Outcome) (w0 : World B),
    let r1 := respond (bridge w0) (GET "/clip/v2/resource/scene") in
    let r2 := respond (fst r1) (GET "/clip/v2/resource/smart_scene") in
    let r3 := respond (fst r2) (GET "/clip/v2/resource/light") in
    (exists reason, checked (snd r1) = inl reason)
    \/ (exists reason, checked (snd r3) = inl reason) ->
    exists message,
      (checked (snd r1) = inl message \/ checked (snd r3) = inl message)
      /\ run respond (load libm_log libm_pow localeCompare) w0
         = {| ui := setLoading false (setError (Some message) (ui w0));
              bridge := fst r3;
              sent := (sent w0 ++ [GET "/clip/v2/resource/scene";
                                   GET "/clip/v2/resource/smart_scene";
                                   GET "/clip/v2/resource/light"])%list;
              timers := timers w0; exited := exited w0 |}.
Proof.
  intros libm_log libm_pow localeCompare B respond w0 r1 r2 r3 H.
  unfold load. cbn [run fetch_all].
  fold r1. destruct r1 as [b1 o1]. cbn [fst snd] in *.
  fold r2. destruct r2 as [b2 o2]. cbn [fst snd] in *.
  fold r3. destruct r3 as [b3 o3]. cbn [fst snd nth] in *.
  destruct (checked o1) as [m1|sceneData]; cbn [Promise_all].
  - exists m1. split; [left; reflexivity | reflexivity].
  - destruct (checked o3) as [m3|lightData].
    + exists m3. split; [right; reflexivity |].
      destruct (checked o2); reflexivity.
    + exfalso. destruct H as [(m & C) | (m & C)]; discriminate.
Qed.

Lemma load_failure_stores_nothing_witness :
  ui (run hub_respond (load Libm.log Libm.pow compare_code_units)
        (boot broken_hub))
  = setLoading false (setError (Some "HTTP 404: Not Found") initial_state)
  /\ hub_lights broken_hub <> [].
Proof.
  destruct (load_failure_stores_nothing Libm.log Libm.pow compare_code_units
              Hub hub_respond (boot broken_hub)
              (or_introl (ex_intro _ "HTTP 404: Not Found" eq_refl)))
    as (m & [C | C] & E).
  - cbv zeta in E. rewrite E. injection C as <-. split; [reflexivity | discriminate].
  - discriminate.
Defined.

(** X14: when the listings of the scenes and of the lights succeed, the
    load stores the listed lights and clears the loading flag; the
    aggregate power becomes "some light is on", or stays as it was when no
    light is listed; the brightness becomes the mean of the lights that
    are on, a light without a level counting 100, or stays as it was when
    none is on.  Error, cursor, modes and message are as before. *)
Theorem load_stores_the_roster :
  forall (libm_log : float -> float) (libm_pow : float -> float -> float)
         (localeCompare : string -> string -> Z)
         (B : Type) (respond : B -> Request -> B * Outcome) (w0 : World B)
         (sceneData lightData : Payload),
    let r1 := respond (bridge w0) (GET "/clip/v2/resource/scene") in
    let r2 := respond (fst r1) (GET "/clip/v2/resource/smart_scene") in
    let r3 := respond (fst r2) (GET "/clip/v2/resource/light") in
    checked (snd r1) = inr sceneData ->
    checked (snd r3) = inr lightData ->
    let roster := lights_of lightData in
    let w := run respond (load libm_log libm_pow localeCompare) w0 in
    lights (ui w) = roster
    /\ lightsOn (ui w)
       = match roster with
         | [] => lightsOn (ui w0)
         | _ => existsb is_on roster
         end
    /\ brightness (ui w)
       = match filter is_on roster with
         | [] => brightness (ui w0)
         | onLights => averageBrightness onLights
         end
    /\ failure (ui w) = (error (ui w0), false)
    /\ selected (ui w) = selected (ui w0)
    /\ modes (ui w) = modes (ui w0)
    /\ message (ui w) = message (ui w0)
    /\ sent w = (sent w0 ++ [GET "/clip/v2/resource/scene";
                             GET "/clip/v2/resource/smart_scene";
                             GET "/clip/v2/resource/light"])%list
    /\ timers w = timers w0.
Proof.
  intros libm_log libm_pow localeCompare B respond w0 sceneData lightData
    r1 r2 r3 E1 E3 roster w.
  subst w. unfold load. cbn [run fetch_all].
  fold r1. destruct r1 as [b1 o1]. cbn [fst snd] in *.
  fold r2. destruct r2 as [b2 o2]. cbn [fst snd] in *.
  fold r3. destruct r3 as [b3 o3]. cbn [fst snd nth] in *.
  rewrite E1, E3.
  destruct (checked o2) as [m2|smartSceneData]; cbn [Promise_all run];
    fold roster; rewrite run_storeLights_next, run_storeLights;
    cbn [run ui sent timers lights lightsOn brightness failure selected modes
         message error loading setMode brightnessMode setLoading setScenes];
    repeat split; reflexivity.
Qed.

Lemma load_stores_the_roster_witness :
  let w := run hub_respond (load Libm.log Libm.pow compare_code_units)
             (boot dark_hub) in
  lights (ui w) = [example_light "a" false 50; example_light "b" false 50]
  /\ lightsOn (ui w) = false
  /\ brightness (ui w) = 100%float.
Proof.
  pose proof (load_stores_the_roster Libm.log Libm.pow compare_code_units
                Hub hub_respond (boot dark_hub) _ _ eq_refl eq_refl)
    as (H1 & H2 & H3 & _).
  cbv zeta in *. split; [exact H1 |]. split; [exact H2 | exact H3].
Defined.

(** X15: in a state of a run, Enter does nothing in brightness mode and
    nothing when no scene is listed; otherwise the cursor is on a scene
    and Enter runs [doActivate] for it, whose first request is the recall
    of that scene. *)
Theorem enter_recalls_the_selected_scene :
  forall (libm_log : float -> float) (libm_pow : float -> float -> float)
         (localeCompare : string -> string -> Z)
         (B : Type) (respond : B -> Request -> B * Outcome)
         (b : B) (early late : list Event),
    let w := session libm_log libm_pow localeCompare respond b early late in
    (brightnessMode (ui w) = true -> step respond w enter = w)
    /\ (scenes (ui w) = [] -> step respond w enter = w)
    /\ (brightnessMode (ui w) = false ->
        scenes (ui w) <> [] ->
        exists sc more,
          nth_error (scenes (ui w)) (Z.to_nat (selected (ui w))) = Some sc
          /\ step respond w enter = run respond (doActivate (Some sc)) w
          /\ sent (step respond w enter)
             = (sent w ++ activateScene (id sc) (type sc) :: more)%list).
Proof.
  intros libm_log libm_pow localeCompare B respond b early late w.
  pose proof (session_valid_cursor libm_log libm_pow localeCompare respond
                b early late) as V.
  fold w in V. unfold valid_cursor in V. clearbody w.
  assert (S : step respond w enter
              = run respond
                  (if brightnessMode (ui w) then Done
                   else if negb (Nat.eqb (List.length (scenes (ui w))) 0)
                        then doActivate (at_index (scenes (ui w)) (selected (ui w)))
                        else Done) w).
  { cbn [step enter]. unfold useInput. cbn. destruct (brightnessMode (ui w));
      reflexivity. }
  rewrite S. split; [intros ->; reflexivity |]. split.
  - intros ->. destruct (brightnessMode (ui w)); reflexivity.
  - intros -> N.
    destruct (scenes (ui w)) as [|s0 rest] eqn:E; [congruence |].
    cbn [List.length Nat.eqb negb].
    rewrite at_index_nth_error by lia.
    destruct (nth_error_some (s0 :: rest) (Z.to_nat (selected (ui w))))
      as (sc & Hsc); [simpl List.length in *; lia |].
    rewrite Hsc.
    destruct (doActivate_sent respond sc w) as (more & M).
    exists sc, more. split; [reflexivity |]. split; [reflexivity | exact M].
Qed.

(** X16: outside brightness mode an arrow moves the cursor and, outside
    set mode or with no scene listed, does nothing else; in set mode with
    scenes listed the place it moves to holds a scene and [doActivate] is
    run for it, also at an end of the list, where the cursor stays and the
    scene it is on is recalled again. *)
Theorem set_mode_recalls_on_every_move :
  forall (libm_log : float -> float) (libm_pow : float -> float -> float)
         (localeCompare : string -> string -> Z)
         (B : Type) (respond : B -> Request -> B * Outcome)
         (b : B) (early late : list Event) (upwards : bool),
    let w := session libm_log libm_pow localeCompare respond b early late in
    let newIdx :=
      if upwards then Z.max (selected (ui w) - 1) 0
      else Z.min (selected (ui w) + 1)
             (Z.max 0 (Z.of_nat (List.length (scenes (ui w))) - 1)) in
    let moved :=
      {| ui := setSelected newIdx (ui w); bridge := bridge w; sent := sent w;
         timers := timers w; exited := exited w |} in
    brightnessMode (ui w) = false ->
    (setMode (ui w) = false \/ scenes (ui w) = [] ->
     step respond w (arrow upwards) = moved)
    /\ (setMode (ui w) = true ->
        scenes (ui w) <> [] ->
        exists sc,
          nth_error (scenes (ui w)) (Z.to_nat newIdx) = Some sc
          /\ step respond w (arrow upwards)
             = run respond (doActivate (Some sc)) moved).
Proof.
  intros libm_log libm_pow localeCompare B respond b early late upwards w
    newIdx moved Hb.
  pose proof (session_valid_cursor libm_log libm_pow localeCompare respond
                b early late) as V.
  fold w in V. unfold valid_cursor in V. clearbody w.
  assert (S : step respond w (arrow upwards)
              = run respond
                  (if (setMode (ui w)
                       && truthy (at_index (scenes (ui w)) newIdx))%bool
                   then doActivate (at_index (scenes (ui w)) newIdx)
                   else Done) moved).
  { subst moved newIdx. destruct upwards; cbn [step arrow up down];
      unfold useInput; cbn; rewrite Hb; reflexivity. }
  rewrite S.
  assert (R : (0 <= newIdx)%Z) by (subst newIdx; destruct upwards; lia).
  rewrite at_index_nth_error by exact R. split.
  - intros [-> | E]; [reflexivity |].
    rewrite E. destruct (Z.to_nat newIdx); simpl; rewrite andb_false_r;
      reflexivity.
  - intros -> N.
    destruct (nth_error_some (scenes (ui w)) (Z.to_nat newIdx)) as (sc & Hsc).
    { destruct (scenes (ui w)) as [|s0 rest]; [congruence |].
      subst newIdx. simpl List.length in *. destruct upwards; lia. }
    exists sc. rewrite Hsc. split; reflexivity.
Qed.

Lemma set_mode_recalls_on_every_move_witness :
  let w := example_session example_hub [letter "s"; down] in
  selected (ui w) = 1%Z
  /\ selected (ui (step hub_respond w down)) = 1%Z
  /\ sent (step hub_respond w down)
     = (sent w ++ [PUT "/clip/v2/resource/scene/1" (RecallBody "active");
                   GET "/clip/v2/resource/light"])%list.
Proof.
  destruct (set_mode_recalls_on_every_move Libm.log Libm.pow compare_code_units
              Hub hub_respond example_hub [] [letter "s"; down] false eq_refl)
    as (_ & H).
  destruct (H eq_refl ltac:(discriminate)) as (sc & Hsc & E).
  cbv zeta in *. unfold example_session.
  change (step hub_respond ?w down) with (step hub_respond w (arrow false)).
  rewrite E. vm_compute in Hsc. injection Hsc as <-.
  repeat split.
Defined.

(** ** The brightness and its bar *)

Section MaintainFacts.

Context {B : Type}.
Variable respond : B -> Request -> B * Outcome.
Variable good : Outcome -> Prop.
Hypothesis respond_good : forall (b : B) (r : Request), good (snd (respond b r)).

Lemma fetch_all_good (requests : list Request) :
  forall b : B, Forall good (snd (fetch_all respond b requests)).
Proof.
  induction requests as [|r rest IH]; intros b; [constructor |].
  cbn [fetch_all]. pose proof (respond_good b r) as G.
  destruct (respond b r) as [b1 o]. specialize (IH b1).
  destruct (fetch_all respond b1 rest) as [b2 os]. simpl in *.
  constructor; assumption.
Qed.

Lemma run_maintains_good (P : State -> Prop) (t : Task) :
  forall w : World B,
    maintains good P t -> P (ui w) -> P (ui (run respond t w)).
Proof.
  induction t as [|setter next IH|requests next IH|ms next IH
                  |callback _ ms next IH|next IH]; intros w K H; simpl in *.
  - exact H.
  - destruct K as [K1 K2]. apply IH; [exact K2 |]. simpl. apply K1, H.
  - pose proof (fetch_all_good requests (bridge w)) as G.
    destruct (fetch_all respond (bridge w) requests) as [b outcomes].
    apply IH; [apply K, G | exact H].
  - apply IH; assumption.
  - apply IH; assumption.
  - apply IH; assumption.
Qed.

End MaintainFacts.

Section RangeRunFacts.

Variable libm_log : float -> float.
Variable libm_pow : float -> float -> float.
Variable localeCompare : string -> string -> Z.

Lemma in_range_not_nan (v : float) : in_range v = true -> is_nan v = false.
Proof.
  unfold in_range. rewrite andb_true_iff, leb_spec. intros [H _].
  apply is_nan_false. intros E. rewrite E in H. discriminate.
Qed.

(** The level [doSetBrightness] stores is within 0..100. *)
Lemma clampedLevel_in_range (level : float) :
  is_nan level = false -> in_range (Math.max 1 (Math.min 100 level)) = true.
Proof.
  intros H. destruct (clampedLevel_bounds level) as (_ & _ & C).
  destruct (C H) as (C1 & C2 & _). unfold in_range. rewrite C2, andb_true_r.
  rewrite leb_spec in *.
  change (Prim2SF 1) with (S754_finite false 4503599627370496 (-52)) in C1.
  change (Prim2SF 0) with (S754_zero false).
  destruct (Prim2SF (Math.max 1 (Math.min 100 level))) as [s|[]| |[] m e];
    try discriminate; reflexivity.
Qed.

Lemma storeLights_maintains (next : Task) (roster : list Light) :
  Forall schema_light roster ->
  (Z.of_nat (List.length roster) < 2 ^ 32)%Z ->
  maintains schema_outcome (fun s => in_range (brightness s) = true) next ->
  maintains schema_outcome (fun s => in_range (brightness s) = true)
    (storeLights roster next).
Proof.
  intros Hl Hn K. unfold storeLights. cbn [maintains].
  split; [intros s H; exact H |].
  destruct roster as [|l ls]; [exact K |]. cbn [maintains].
  split; [intros s H; exact H |].
  destruct (filter is_on (l :: ls)) as [|o os] eqn:E; [exact K |].
  cbn [maintains]. split; [| exact K].
  intros s _. cbn [brightness setBrightness]. rewrite <- E.
  apply averageBrightness_in_range.
  - rewrite E. discriminate.
  - pose proof (filter_length_le is_on (l :: ls)). lia.
  - apply Forall_forall. intros x Hx. apply filter_In in Hx.
    rewrite Forall_forall in Hl. apply Hl, Hx.
Qed.

Lemma the_outcome_schema (outcomes : list Outcome) :
  Forall schema_outcome outcomes -> schema_outcome (the_outcome outcomes).
Proof.
  intros H. destruct outcomes as [|o rest]; simpl.
  - intros payload C. discriminate.
  - inversion H. assumption.
Qed.

Lemma nth_schema (n : nat) (outcomes : list Outcome) :
  Forall schema_outcome outcomes ->
  schema_outcome (nth n outcomes (Rejected "")).
Proof.
  intros H. destruct (nth_in_or_default n outcomes (Rejected "")) as [I | ->].
  - rewrite Forall_forall in H. apply H, I.
  - intros payload C. discriminate.
Qed.

Lemma load_maintains :
  maintains schema_outcome (fun s => in_range (brightness s) = true)
    (load libm_log libm_pow localeCompare).
Proof.
  unfold load. cbn [maintains]. intros outcomes G.
  pose proof (nth_schema 2 outcomes G) as G2.
  destruct (checked (nth 0 outcomes (Rejected ""))) as [m1|sceneData];
    cbn [Promise_all maintains]; [auto |].
  destruct (checked (nth 1 outcomes (Rejected ""))) as [m2|smartSceneData];
    cbn [Promise_all];
    (destruct (checked (nth 2 outcomes (Rejected ""))) as [m3|lightData] eqn:E3;
     cbn [Promise_all maintains]; [auto |]);
    (split; [intros s H; exact H |]);
    (apply storeLights_maintains;
     [apply (G2 lightData E3) | apply (G2 lightData E3)
      | cbn [maintains]; auto]).
Qed.

Lemma doActivate_maintains (scene : option Scene) :
  maintains schema_outcome (fun s => in_range (brightness s) = true)
    (doActivate scene).
Proof.
  destruct scene as [sc|]; [| exact I]. cbn [doActivate maintains].
  split; [intros s H; exact H |]. intros o1 _.
  destruct (checked (the_outcome o1)); cbn [maintains]; [auto |].
  intros o2 G2. pose proof (the_outcome_schema o2 G2) as G.
  destruct (checked (the_outcome o2)) as [m|lightData] eqn:E;
    cbn [maintains]; [auto |].
  apply storeLights_maintains; [apply (G lightData E) | apply (G lightData E) |].
  exact I.
Qed.

Lemma doSetBrightness_maintains (st : State) (level : float) :
  is_nan level = false ->
  maintains schema_outcome (fun s => in_range (brightness s) = true)
    (doSetBrightness st level).
Proof.
  intros H. unfold doSetBrightness. cbn [maintains]. split.
  - intros s _. apply clampedLevel_in_range, H.
  - intros outcomes _. destruct (Promise_all _); cbn [maintains]; auto.
Qed.

Lemma toggleAllLights_maintains (st : State) :
  maintains schema_outcome (fun s => in_range (brightness s) = true)
    (toggleAllLights st).
Proof.
  unfold toggleAllLights. cbn [maintains]. intros o1 _.
  destruct (Promise_all _); cbn [maintains]; [auto |].
  intros o2 _. destruct (checked _); cbn [maintains]; auto.
Qed.

Lemma useInput_maintains (st : State) (input : string) (key : Key) :
  in_range (brightness st) = true ->
  maintains schema_outcome (fun s => in_range (brightness s) = true)
    (useInput st input key).
Proof.
  intros R. pose proof (in_range_not_nan _ R) as N.
  unfold useInput. cbv zeta.
  repeat match goal with
         | |- maintains _ _ (if ?c then _ else _) => destruct c
         | |- maintains _ _ (doActivate _) => apply doActivate_maintains
         | |- maintains _ _ (doSetBrightness _ (_ + _)%float) =>
             apply doSetBrightness_maintains, add_one_not_nan, N
         | |- maintains _ _ (doSetBrightness _ (_ - _)%float) =>
             apply doSetBrightness_maintains, sub_one_not_nan, N
         | |- maintains _ _ (toggleAllLights _) => apply toggleAllLights_maintains
         | |- maintains _ _ (Update _ _) => cbn [maintains]
         | |- _ /\ _ => split
         | |- forall _ : State, _ => intros s H; exact H
         | |- maintains _ _ (Exit _) => cbn [maintains]
         | |- maintains _ _ Done => exact I
         | |- True => exact I
         end.
Qed.

Context {B : Type}.
Variable respond : B -> Request -> B * Outcome.
Hypothesis respond_schema : schema_bridge respond.

Lemma run_maintains (P : State -> Prop) (t : Task) (w : World B) :
  maintains schema_outcome P t -> P (ui w) -> P (ui (run respond t w)).
Proof. apply run_maintains_good. exact respond_schema. Qed.

Lemma step_in_range (w : World B) (e : Event) :
  tidy_world w ->
  in_range (brightness (ui w)) = true ->
  in_range (brightness (ui (step respond w e))) = true.
Proof.
  intros W R. destruct e as [input key|].
  - cbn [step].
    apply (run_maintains (fun s => in_range (brightness s) = true));
      [apply useInput_maintains, R | exact R].
  - rewrite step_timer by exact W. destruct (timers w); exact R.
Qed.

Lemma steps_in_range (events : list Event) :
  forall w : World B,
    tidy_world w ->
    in_range (brightness (ui w)) = true ->
    in_range (brightness (ui (steps respond w events))) = true.
Proof.
  induction events as [|e rest IH]; intros w W R; [exact R |].
  change (steps respond w (e :: rest))
    with (steps respond (step respond w e) rest).
  apply IH; [apply step_tidy, W | apply step_in_range; assumption].
Qed.

Lemma session_in_range (b : B) (early late : list Event) :
  in_range
    (brightness
       (ui (session libm_log libm_pow localeCompare respond b early late)))
  = true.
Proof.
  unfold session. apply steps_in_range.
  - apply run_tidy; [apply load_tidy | apply steps_tidy, boot_tidy].
  - apply (run_maintains (fun s => in_range (brightness s) = true));
      [apply load_maintains |].
    apply steps_in_range; [apply boot_tidy | reflexivity].
Qed.

End RangeRunFacts.

Section IdleFacts.

Lemma idle_schema : schema_bridge (idle example_hub).
Proof.
  intros b r payload. unfold idle. cbn [snd].
  destruct r as [path|path body]; cbn [hub_respond].
  - destruct (String.eqb path "/clip/v2/resource/scene");
      [cbn; intros [= <-]; split; [constructor | reflexivity] |].
    destruct (String.eqb path "/clip/v2/resource/smart_scene");
      [cbn; discriminate |].
    destruct (String.eqb path "/clip/v2/resource/light"); [| cbn; discriminate].
    cbn. intros [= <-]. split; [| reflexivity].
    repeat constructor.
  - cbn. intros [= <-]. split; [constructor | reflexivity].
Qed.

End IdleFacts.

(** X17: for a level within 0..100 [BrightnessBar] draws 20 cells: the
    filled cell [k] times and the empty cell [20 - k] times, where [k] is
    [Math.round(level / 100 * 20)], and a percentage within 0..100; no
    [repeat] throws. *)
Theorem BrightnessBar_draws_twenty_cells :
  forall level : float,
    in_range level = true ->
    exists k p : Z,
      (0 <= k <= 20)%Z /\ (0 <= p <= 100)%Z
      /\ Math.round (level / 100 * 20)%float = Number.Int k
      /\ BrightnessBar level
         = Some {| filled_cells :=
                     String.concat "" (List.repeat filled_cell (Z.to_nat k));
                   empty_cells :=
                     String.concat "" (List.repeat empty_cell (Z.to_nat (20 - k)));
                   percent := Number.Int p |}.
Proof. intros level H. apply BrightnessBar_in_range, H. Qed.

Lemma BrightnessBar_draws_twenty_cells_witness :
  BrightnessBar 40
  = Some {| filled_cells := String.concat "" (List.repeat filled_cell 8);
            empty_cells := String.concat "" (List.repeat empty_cell 12);
            percent := Number.Int 40 |}
  /\ BrightnessBar 125 = None.
Proof.
  destruct (BrightnessBar_draws_twenty_cells 40 eq_refl)
    as (k & p & _ & _ & Ek & E).
  split; [| vm_compute; reflexivity].
  pose proof (f_equal (option_map percent) E) as Ep.
  vm_compute in Ek, Ep. injection Ek as <-. injection Ep as <-.
  exact E.
Defined.

(** X18: the mean that the load and [doActivate] store as the brightness
    is within 0..100 when the lights it is taken over, fewer than
    [2 ^ 32], have levels within 0..100 or none, which counts 100. *)
Theorem averageBrightness_stays_in_range :
  forall onLights : list Light,
    onLights <> [] ->
    (Z.of_nat (List.length onLights) < 2 ^ 32)%Z ->
    Forall schema_light onLights ->
    in_range (averageBrightness onLights) = true.
Proof. intros onLights H1 H2 H3. apply averageBrightness_in_range; assumption. Qed.

Lemma averageBrightness_stays_in_range_witness :
  in_range
    (averageBrightness
       [example_light "a" true 40; example_light "b" true 75;
        {| light_id := "c"; on_on := Some true;
           light_dimming_brightness := None |}]) = true.
Proof.
  apply averageBrightness_stays_in_range.
  - discriminate.
  - reflexivity.
  - repeat constructor.
Defined.

(** X19: with a bridge whose listings of lights keep to the schema, the
    brightness is within 0..100 in every state of a run, whatever keys are
    pressed, and [BrightnessBar] draws its 20 cells for it: the view never
    throws. *)
Theorem brightness_stays_in_range :
  forall (libm_log : float -> float) (libm_pow : float -> float -> float)
         (localeCompare : string -> string -> Z)
         (B : Type) (respond : B -> Request -> B * Outcome),
    schema_bridge respond ->
    forall (b : B) (early late : list Event),
      let s := ui (session libm_log libm_pow localeCompare respond b early late) in
      in_range (brightness s) = true
      /\ exists k p : Z,
           (0 <= k <= 20)%Z /\ (0 <= p <= 100)%Z
           /\ BrightnessBar (brightness s)
              = Some {| filled_cells :=
                          String.concat "" (List.repeat filled_cell (Z.to_nat k));
                        empty_cells :=
                          String.concat ""
                            (List.repeat empty_cell (Z.to_nat (20 - k)));
                        percent := Number.Int p |}.
Proof.
  intros libm_log libm_pow localeCompare B respond G b early late s.
  assert (R : in_range (brightness s) = true)
    by (apply session_in_range, G).
  split; [exact R |].
  destruct (BrightnessBar_in_range _ R) as (k & p & Hk & Hp & _ & E).
  exists k, p. auto.
Qed.

Lemma brightness_stays_in_range_witness :
  let s := ui (session Libm.log Libm.pow compare_code_units (idle example_hub) tt
                 [] [letter "b"; up; up; enter]) in
  brightness s = 42%float
  /\ in_range (brightness s) = true.
Proof.
  split; [vm_compute; reflexivity |].
  apply (brightness_stays_in_range Libm.log Libm.pow compare_code_units unit
           (idle example_hub) idle_schema tt [] [letter "b"; up; up; enter]).
Defined.

(** ** Colours of a scene, failures that are shown and failures that are not *)

Section ChannelFacts.

Variable libm_log : float -> float.
Variable libm_pow : float -> float -> float.

Lemma xyBriToHex_channels (x y : JSValue) (bri : option float) (s : string) :
  xyBriToHex libm_pow x y bri = Some s -> channels s.
Proof.
  intros H.
  destruct x as [| | |x| |], y as [| | |y| |]; simpl in H; try discriminate.
  destruct (y =? 0)%float; [discriminate |].
  injection H as <-.
  do 3 eexists. split; [reflexivity |].
  repeat split; apply channel_clamp.
Qed.

Lemma mirekToHex_channels (mirek : JSValue) (s : string) :
  mirekToHex libm_log libm_pow mirek = Some s -> channels s.
Proof.
  intros H. destruct mirek as [| | |m| |]; simpl in H; try discriminate.
  destruct (m <=? 0)%float; [discriminate |].
  destruct (1000000 / m / 100 <=? 66)%float; injection H as <-;
    do 3 eexists; (split; [reflexivity |]);
    repeat split; apply toHex_channel_text.
Qed.

Lemma fallback_channels : channels "#444444".
Proof.
  exists "44", "44", "44". split; [reflexivity |].
  repeat split; right; exists 68%Z; (split; [lia | reflexivity]).
Qed.

End ChannelFacts.

(** X21: every colour that [extractColors] returns is written as [#]
    followed by three channels, each two lowercase hexadecimal digits or
    the text [NaN]: it is the fallback or a value that a conversion
    returned for a sample of the scene. *)
Theorem extractColors_returns_channels :
  forall (libm_log : float -> float) (libm_pow : float -> float -> float)
         (scene : SceneRecord),
    Forall channels (extractColors libm_log libm_pow scene).
Proof.
  intros libm_log libm_pow scene. unfold extractColors.
  set (combined := (paletteColors libm_pow scene ++ _)%list). cbv zeta.
  assert (C : Forall channels (dedupeColors combined 6)).
  { apply Forall_forall. intros c Hc.
    rewrite dedupeColors_limit in Hc. apply firstn_In, first_seen_In in Hc.
    apply present_In in Hc. destruct Hc as [_ Hc]. subst combined.
    unfold paletteColors, paletteTemperatures, actionColors, actionTemperatures
      in Hc.
    repeat (apply in_app_or in Hc; destruct Hc as [Hc | Hc]);
      repeat match goal with
             | H : In _ match ?p with Some _ => _ | None => _ end |- _ =>
                 destruct p; [| destruct H]
             end;
      apply in_map_iff in Hc; destruct Hc as (e & Hc & _);
      first [apply xyBriToHex_channels in Hc | apply mirekToHex_channels in Hc];
      exact Hc. }
  destruct (List.length (dedupeColors combined 6));
    [constructor; [apply fallback_channels | constructor] | exact C].
Qed.

Lemma conversions_return_channels_witness :
  exists r g b,
    "#f8ffff" = "#" ++ r ++ g ++ b
    /\ channel_text r /\ channel_text g /\ channel_text b.
Proof.
  apply (conversions_return_channels Libm.log Libm.pow
           (JSNumber 0.3127) (JSNumber 0.3290) JSNull (Some 254%float)).
  left. vm_compute. reflexivity.
Defined.

Section FailureViewFacts.

Context {B : Type}.
Variable respond : B -> Request -> B * Outcome.

Lemma run_doSetBrightness_ui (w : World B) (st : State) (level : float) :
  let clampedLevel := Math.max 1 (Math.min 100 level) in
  let s' := ui (run respond (doSetBrightness st level) w) in
  s' = setBrightness clampedLevel (ui w)
  \/ exists message,
       s' = setMessage ("Failed to set brightness: " ++ message)
              (setBrightness clampedLevel (ui w)).
Proof.
  intros clampedLevel s'. subst s'. unfold doSetBrightness. fold clampedLevel.
  cbn [run bridge ui].
  destruct (fetch_all respond (bridge w) _) as [b1 outcomes].
  destruct (Promise_all (map unchecked outcomes)) as [m|values]; cbn [run ui].
  - right. exists m. reflexivity.
  - left. reflexivity.
Qed.

Lemma render_hidden_message (s : State) (m : string) :
  brightnessMode s = true -> render (setMessage m s) = render s.
Proof. intros H. unfold render. cbn. rewrite H. reflexivity. Qed.

End FailureViewFacts.

(** X23: in brightness mode the status text is not drawn, so that a press
    of an arrow changes the view by the level only, also when the bridge
    cannot be reached and [Failed to set brightness] becomes the message:
    the failure is not shown before the mode is left. *)
Theorem brightness_failure_is_not_shown :
  forall (B : Type) (respond : B -> Request -> B * Outcome) (w : World B)
         (upwards : bool),
    brightnessMode (ui w) = true ->
    let level :=
      Math.max 1
        (Math.min 100
           (if upwards then brightness (ui w) + 1 else brightness (ui w) - 1)%float)
    in
    render (ui (step respond w (arrow upwards)))
    = render (setBrightness level (ui w)).
Proof.
  intros B respond w upwards H level.
  assert (S : step respond w (arrow upwards)
              = run respond
                  (doSetBrightness (ui w)
                     (if upwards then brightness (ui w) + 1
                      else brightness (ui w) - 1)%float) w).
  { destruct upwards; cbn [step arrow up down]; unfold useInput; cbn;
      rewrite H; reflexivity. }
  rewrite S.
  destruct (run_doSetBrightness_ui respond w (ui w)
              (if upwards then brightness (ui w) + 1
               else brightness (ui w) - 1)%float) as [E | (m & E)];
    cbv zeta in E; fold level in E; rewrite E; [reflexivity |].
  apply render_hidden_message. exact H.
Qed.

Lemma brightness_failure_is_not_shown_witness :
  let w := {| ui := ui (example_session example_hub [letter "b"]);
              bridge := tt; sent := []; timers := []; exited := false |} in
  message (ui (step unreachable w up))
  = "Failed to set brightness: fetch failed"
  /\ exists rows,
       render (ui (step unreachable w up))
       = ScenesView "brightness" 41 true None rows.
Proof.
  split; [vm_compute; reflexivity |].
  eexists. change up with (arrow true).
  rewrite (brightness_failure_is_not_shown unit unreachable
             {| ui := ui (example_session example_hub [letter "b"]);
                bridge := tt; sent := []; timers := []; exited := false |}
             true eq_refl).
  vm_compute. reflexivity.
Defined.

(** X24: when the listing of the scenes or that of the lights is answered
    with a status that is not ok, every later state of the run shows the
    error view with [HTTP ], the status, [: ] and the body text, or the
    status text when the body is empty, of that answer, of one of the two
    when both are such; when the [fetch] of the scenes is rejected with an
    empty reason and the lights are listed, the error is not shown: the
    view is [No scenes found]. *)
Theorem load_failure_view :
  forall (libm_log : float -> float) (libm_pow : float -> float -> float)
         (localeCompare : string -> string -> Z)
         (B : Type) (respond : B -> Request -> B * Outcome)
         (b : B) (early late : list Event),
    let w0 := steps respond (boot b) early in
    let r1 := respond (bridge w0) (GET "/clip/v2/resource/scene") in
    let r2 := respond (fst r1) (GET "/clip/v2/resource/smart_scene") in
    let r3 := respond (fst r2) (GET "/clip/v2/resource/light") in
    let s := ui (session libm_log libm_pow localeCompare respond b early late) in
    (forall res lightData,
        snd r1 = Fulfilled res -> ok res = false ->
        checked (snd r3) = inr lightData ->
        render s
        = ErrorView ("HTTP " ++ status res ++ ": "
                     ++ match text res with
                        | "" => statusText res
                        | body => body
                        end))
    /\ (forall sceneData res,
          checked (snd r1) = inr sceneData ->
          snd r3 = Fulfilled res -> ok res = false ->
          render s
          = ErrorView ("HTTP " ++ status res ++ ": "
                       ++ match text res with
                          | "" => statusText res
                          | body => body
                          end))
    /\ (forall res1 res3,
          snd r1 = Fulfilled res1 -> ok res1 = false ->
          snd r3 = Fulfilled res3 -> ok res3 = false ->
          render s = ErrorView (http_error res1)
          \/ render s = ErrorView (http_error res3))
    /\ (forall lightData,
          snd r1 = Rejected "" ->
          checked (snd r3) = inr lightData ->
          render s = NoScenesView).
Proof.
  intros libm_log libm_pow localeCompare B respond b early late w0 r1 r2 r3 s.
  pose proof (session_loaded libm_log libm_pow localeCompare respond b early late)
    as L.
  destruct (session_scenes libm_log libm_pow localeCompare respond b early late)
    as [E0 E1].
  fold w0 in E0, E1. fold s in L, E1.
  pose proof (run_load libm_log libm_pow localeCompare respond w0) as R.
  cbv zeta in R. destruct R as [_ R]. fold r1 r2 r3 in R.
  assert (F : error s
              = error (ui (run respond (load libm_log libm_pow localeCompare) w0))).
  { subst s. unfold session. fold w0.
    pose proof (steps_failure respond late
                  (run respond (load libm_log libm_pow localeCompare) w0)) as F.
    apply (f_equal fst) in F; [exact F |].
    apply run_tidy; [apply load_tidy | apply steps_tidy, boot_tidy]. }
  split; [| split; [| split]].
  - intros res lightData Hr Hok _. rewrite Hr in R. cbn [checked] in R.
    rewrite Hok in R. destruct R as [R1 R2].
    unfold render. rewrite L, F, R1. reflexivity.
  - intros sceneData res H1 Hr Hok. rewrite H1, Hr in R. cbn [checked] in R.
    rewrite Hok in R. destruct R as [R1 R2].
    unfold render. rewrite L, F, R1. reflexivity.
  - intros res1 res3 Hr Hok _ _. rewrite Hr in R. cbn [checked] in R.
    rewrite Hok in R. destruct R as [R1 R2]. left.
    unfold render. rewrite L, F, R1. reflexivity.
  - intros lightData Hr _. rewrite Hr in R. cbn [checked] in R.
    destruct R as [R1 R2].
    unfold render. rewrite L, F, R1, E1, R2, E0. reflexivity.
Qed.

Lemma load_failure_view_witness :
  render (ui (example_session broken_hub [letter "s"; down]))
  = ErrorView "HTTP 404: Not Found".
Proof.
  destruct (load_failure_view Libm.log Libm.pow compare_code_units
              Hub hub_respond broken_hub [] [letter "s"; down]) as (H & _).
  apply (H _ _ eq_refl eq_refl eq_refl).
Defined.

(** ** Names, ties and messages *)

Section StableSortFacts.

Context {A : Type}.
Variable compareFn : A -> A -> Z.
Variable p : A -> bool.
Hypothesis p_tied :
  forall x y, p x = true -> p y = true -> (compareFn x y <= 0)%Z.

Lemma sort_insert_filter (x : A) (l : list A) :
  filter p (sort_insert compareFn x l) = filter p (x :: l).
Proof.
  induction l as [|y rest IH]; [reflexivity |].
  cbn [sort_insert]. destruct (compareFn x y <=? 0)%Z eqn:C; [reflexivity |].
  cbn [filter] in *. rewrite IH.
  destruct (p x) eqn:Px, (p y) eqn:Py; try reflexivity.
  apply Z.leb_gt in C. pose proof (p_tied x y Px Py). lia.
Qed.

Lemma Array_sort_filter (l : list A) :
  filter p (Array_sort compareFn l) = filter p l.
Proof.
  induction l as [|x rest IH]; [reflexivity |].
  cbn [Array_sort fold_right]. fold (Array_sort compareFn rest).
  rewrite sort_insert_filter. cbn [filter]. rewrite IH. reflexivity.
Qed.

End StableSortFacts.

Section NameFacts.

Variable libm_log : float -> float.
Variable libm_pow : float -> float -> float.
Variable localeCompare : string -> string -> Z.

Lemma name_or_untitled_not_empty (n : option string) :
  name_or_untitled n <> "".
Proof. destruct n as [[|c s]|]; discriminate. Qed.

Lemma regularScenes_named (sceneData : Payload) :
  Forall (fun sc => name sc <> "") (regularScenes libm_log libm_pow sceneData).
Proof.
  destruct sceneData as [[data|]| | |]; simpl; try constructor.
  apply Forall_forall. intros sc H. apply in_map_iff in H.
  destruct H as (record & <- & _). apply name_or_untitled_not_empty.
Qed.

Lemma smartScenes_named (smartSceneData : Payload) :
  Forall (fun sc => name sc <> "") (smartScenes smartSceneData).
Proof.
  destruct smartSceneData as [|[data|] | |]; simpl; try constructor.
  apply Forall_forall. intros sc H. apply in_map_iff in H.
  destruct H as (record & <- & _). apply name_or_untitled_not_empty.
Qed.

Lemma status_text_failure (m : string) :
  status_text ("Failed to activate: " ++ m)
  /\ status_text ("Failed to set brightness: " ++ m)
  /\ status_text ("Failed to toggle lights: " ++ m).
Proof. repeat split; do 3 right; exists m; tauto. Qed.

Lemma storeLights_message (good : Outcome -> Prop) (roster : list Light)
      (next : Task) :
  maintains good (fun s => status_text (message s)) next ->
  maintains good (fun s => status_text (message s)) (storeLights roster next).
Proof.
  intros K. unfold storeLights.
  repeat match goal with
         | |- maintains _ _ (Update _ _) => cbn [maintains]
         | |- maintains _ _ match ?x with _ => _ end => destruct x
         | |- _ /\ _ => split
         | |- forall _ : State, _ => intros s H; exact H
         | |- maintains _ _ next => exact K
         end.
Qed.

Lemma load_message :
  maintains (fun _ => True) (fun s => status_text (message s))
    (load libm_log libm_pow localeCompare).
Proof.
  unfold load. cbn [maintains]. intros outcomes _.
  destruct (Promise_all _) as [m|[|sceneData [|smartSceneData [|lightData rest]]]];
    repeat match goal with
           | |- maintains _ _ (storeLights _ _) => apply storeLights_message
           | |- maintains _ _ (Update _ _) => cbn [maintains]
           | |- maintains _ _ Done => exact I
           | |- _ /\ _ => split
           | |- True => exact I
           | |- forall _ : State, _ => intros s H; exact H
           end.
Qed.

Lemma doActivate_message (scene : option Scene) :
  maintains (fun _ => True) (fun s => status_text (message s))
    (doActivate scene).
Proof.
  destruct scene as [sc|]; [| exact I]. cbn [doActivate maintains].
  split; [intros s _; left; reflexivity |]. intros o1 _.
  destruct (checked (the_outcome o1)) as [m|p]; cbn [maintains].
  - split; [| exact I]. intros s _. apply status_text_failure.
  - intros o2 _. destruct (checked (the_outcome o2)) as [m|lightData];
      cbn [maintains].
    + split; [| exact I]. intros s _. apply status_text_failure.
    + apply storeLights_message. exact I.
Qed.

Lemma doSetBrightness_message (st : State) (level : float) :
  maintains (fun _ => True) (fun s => status_text (message s))
    (doSetBrightness st level).
Proof.
  unfold doSetBrightness. cbn [maintains].
  split; [intros s H; exact H |]. intros outcomes _.
  destruct (Promise_all _) as [m|values]; cbn [maintains]; [| exact I].
  split; [| exact I]. intros s _. apply status_text_failure.
Qed.

Lemma toggleAllLights_message (st : State) :
  maintains (fun _ => True) (fun s => status_text (message s))
    (toggleAllLights st).
Proof.
  unfold toggleAllLights. cbn [maintains]. intros o1 _.
  destruct (Promise_all _) as [m|values]; cbn [maintains].
  - split; [| exact I]. intros s _. apply status_text_failure.
  - intros o2 _. destruct (checked _) as [m|lightData]; cbn [maintains].
    + split; [| exact I]. intros s _. apply status_text_failure.
    + split; [intros s H; exact H |]. split; [intros s H; exact H |].
      split; [| exact I]. intros s _. cbn [message setMessage].
      destruct (negb _); [right; left | right; right; left]; reflexivity.
Qed.

Lemma useInput_message (st : State) (input : string) (key : Key) :
  maintains (fun _ => True) (fun s => status_text (message s))
    (useInput st input key).
Proof.
  unfold useInput. cbv zeta.
  repeat match goal with
         | |- maintains _ _ (if ?c then _ else _) => destruct c
         | |- maintains _ _ (doActivate _) => apply doActivate_message
         | |- maintains _ _ (doSetBrightness _ _) => apply doSetBrightness_message
         | |- maintains _ _ (toggleAllLights _) => apply toggleAllLights_message
         | |- maintains _ _ (Update _ _) => cbn [maintains]
         | |- _ /\ _ => split
         | |- forall _ : State, _ => intros s H; exact H
         | |- maintains _ _ (Exit _) => cbn [maintains]
         | |- maintains _ _ Done => exact I
         | |- True => exact I
         end.
Qed.

Context {B : Type}.
Variable respond : B -> Request -> B * Outcome.

Lemma run_message (t : Task) (w : World B) :
  maintains (fun _ => True) (fun s => status_text (message s)) t ->
  status_text (message (ui w)) ->
  status_text (message (ui (run respond t w))).
Proof.
  apply (run_maintains_good respond (fun _ => True) (fun _ _ => I)
           (fun s => status_text (message s))).
Qed.

Lemma steps_message (events : list Event) :
  forall w : World B,
    tidy_world w ->
    status_text (message (ui w)) ->
    status_text (message (ui (steps respond w events))).
Proof.
  induction events as [|e rest IH]; intros w W H; [exact H |].
  change (steps respond w (e :: rest))
    with (steps respond (step respond w e) rest).
  apply IH; [apply step_tidy, W |].
  destruct e as [input key|].
  - cbn [step]. apply run_message; [apply useInput_message | exact H].
  - rewrite step_timer by exact W.
    destruct (timers w); [exact H | left; reflexivity].
Qed.

Lemma session_message (b : B) (early late : list Event) :
  status_text
    (message
       (ui (session libm_log libm_pow localeCompare respond b early late))).
Proof.
  unfold session. apply steps_message.
  - apply run_tidy; [apply load_tidy | apply steps_tidy, boot_tidy].
  - apply run_message; [apply load_message |].
    apply steps_message; [apply boot_tidy | left; reflexivity].
Qed.

Lemma session_named (b : B) (early late : list Event) :
  Forall (fun sc => name sc <> "")
    (scenes (ui (session libm_log libm_pow localeCompare respond b early late))).
Proof.
  destruct (session_scenes libm_log libm_pow localeCompare respond b early late)
    as [E0 ->].
  set (w0 := steps respond (boot b) early) in *.
  pose proof (run_load libm_log libm_pow localeCompare respond w0) as L.
  cbv zeta in L. destruct L as [_ L].
  destruct (checked (snd (respond (bridge w0) _))) as [m|sceneData].
  - destruct L as [_ ->]. rewrite E0. constructor.
  - destruct (checked (snd (respond _ (GET "/clip/v2/resource/light"))))
      as [m|lightData].
    + destruct L as [_ ->]. rewrite E0. constructor.
    + destruct L as [_ ->]. unfold sortScenes.
      eapply Permutation_Forall; [apply Array_sort_perm |].
      apply Forall_app. split;
        [apply regularScenes_named | apply smartScenes_named].
Qed.

End NameFacts.

(** X25: scenes of one name keep the order in which the bridge lists them,
    regular scenes before smart scenes, when the list is sorted: the sort
    is stable. *)
Theorem scenes_of_one_name_keep_their_order :
  forall (libm_log : float -> float) (libm_pow : float -> float -> float)
         (localeCompare : string -> string -> Z),
    (forall a, (localeCompare a a <= 0)%Z) ->
    forall (B : Type) (respond : B -> Request -> B * Outcome) (w0 : World B)
           (sceneData lightData : Payload),
      let r1 := respond (bridge w0) (GET "/clip/v2/resource/scene") in
      let r2 := respond (fst r1) (GET "/clip/v2/resource/smart_scene") in
      let r3 := respond (fst r2) (GET "/clip/v2/resource/light") in
      checked (snd r1) = inr sceneData ->
      checked (snd r3) = inr lightData ->
      let listing :=
        (regularScenes libm_log libm_pow sceneData
         ++ smartScenes
              match checked (snd r2) with
              | inl _ => SmartSceneData (Some [])
              | inr smartSceneData => smartSceneData
              end)%list in
      forall n : string,
        filter (fun sc => String.eqb (name sc) n)
          (scenes (ui (run respond (load libm_log libm_pow localeCompare) w0)))
        = filter (fun sc => String.eqb (name sc) n) listing.
Proof.
  intros libm_log libm_pow localeCompare Hrefl B respond w0 sceneData lightData
    r1 r2 r3 E1 E3 listing n.
  pose proof (run_load libm_log libm_pow localeCompare respond w0) as L.
  cbv zeta in L. fold r1 r2 r3 in L. rewrite E1, E3 in L.
  destruct L as (_ & _ & ->). fold listing. unfold sortScenes.
  apply Array_sort_filter. intros x y Px Py.
  apply String.eqb_eq in Px, Py. rewrite Px, Py. apply Hrefl.
Qed.

Lemma scenes_of_one_name_keep_their_order_witness :
  let twins :=
    {| hub_scenes := Some [named_scene "1" "Dusk"; named_scene "2" "Dawn";
                           named_scene "3" "Dusk"];
       hub_smart_scenes :=
         Some [{| smart_scene_id := "4"; smart_metadata_name := Some "Dusk" |}];
       hub_lights := [] |} in
  map id
    (filter (fun sc => String.eqb (name sc) "Dusk")
       (scenes (ui (run hub_respond (load Libm.log Libm.pow compare_code_units)
                      (boot twins)))))
  = ["1"; "3"; "4"].
Proof.
  intros twins.
  rewrite (scenes_of_one_name_keep_their_order Libm.log Libm.pow
             compare_code_units
             (fun a => match compare_code_units_total a a with
                       | or_introl H => H
                       | or_intror H => H
                       end)
             Hub hub_respond (boot twins)
             (SceneData (hub_scenes twins)) (LightData (Some []))
             eq_refl eq_refl).
  reflexivity.
Defined.

(** X26: in every state of a run every scene of the list has a name that
    is not empty: a scene that the bridge lists without a name, or with an
    empty one, is called [Untitled]. *)
Theorem scene_names_are_never_empty :
  forall (libm_log : float -> float) (libm_pow : float -> float -> float)
         (localeCompare : string -> string -> Z)
         (B : Type) (respond : B -> Request -> B * Outcome)
         (b : B) (early late : list Event),
    Forall (fun sc => name sc <> "")
      (scenes (ui (session libm_log libm_pow localeCompare respond b early late)))
    /\ name_or_untitled None = "Untitled"
    /\ name_or_untitled (Some "") = "Untitled"
    /\ (forall n, n <> "" -> name_or_untitled (Some n) = n).
Proof.
  intros libm_log libm_pow localeCompare B respond b early late.
  split; [apply session_named |]. split; [reflexivity |].
  split; [reflexivity |]. intros [|c n] H; [congruence | reflexivity].
Qed.

(** X27: in every state of a run the message is empty, [On], [Off] or the
    report of a failure ([Failed to activate: ], [Failed to set
    brightness: ] or [Failed to toggle lights: ] and a reason), whatever
    the keys pressed and whatever the bridge answers; the status text that
    the list view draws is one of these that is not empty. *)
Theorem message_is_a_status_text :
  forall (libm_log : float -> float) (libm_pow : float -> float -> float)
         (localeCompare : string -> string -> Z)
         (B : Type) (respond : B -> Request -> B * Outcome)
         (b : B) (early late : list Event),
    let s := ui (session libm_log libm_pow localeCompare respond b early late) in
    status_text (message s)
    /\ (forall hint level adjusting text rows,
          render s = ScenesView hint level adjusting (Some text) rows ->
          status_text text /\ text <> "").
Proof.
  intros libm_log libm_pow localeCompare B respond b early late s.
  assert (M : status_text (message s)).
  { subst s. apply session_message. }
  split; [exact M |].
  intros hint level adjusting text rows R. clearbody s.
  unfold render in R. destruct (loading s); [discriminate |].
  destruct (error s) as [[|c e]|]; try discriminate;
    (destruct (scenes s); [discriminate |]);
    (destruct (brightnessMode s); [discriminate |]);
    injection R as _ _ _ <- _;
    (destruct (message s) as [|c' m'] eqn:E;
     [destruct (lightsOn s);
      (split; [right; tauto | discriminate])
     | split; [exact M | discriminate]]).
Qed.

(** ** What the program sends *)

Section SentFacts.

Variable libm_log : float -> float.
Variable libm_pow : float -> float -> float.
Variable localeCompare : string -> string -> Z.

Context {B : Type}.
Variable respond : B -> Request -> B * Outcome.
Hypothesis respond_schema : schema_bridge respond.

Lemma step_asks (w : World B) (e : Event) :
  tidy_world w ->
  Forall (listed libm_log libm_pow) (scenes (ui w)) ->
  in_range (brightness (ui w)) = true ->
  Forall (expected_request (scenes (ui w))) (sent w) ->
  Forall (expected_request (scenes (ui w))) (sent (step respond w e)).
Proof.
  intros W L R S. destruct e as [input key|].
  - cbn [step]. apply run_asks; [| exact S].
    apply (useInput_asks libm_log libm_pow); [exact L |].
    apply in_range_not_nan, R.
  - rewrite step_timer by exact W. destruct (timers w); exact S.
Qed.

Lemma steps_asks (events : list Event) :
  forall w : World B,
    tidy_world w ->
    Forall (listed libm_log libm_pow) (scenes (ui w)) ->
    in_range (brightness (ui w)) = true ->
    Forall (expected_request (scenes (ui w))) (sent w) ->
    Forall (expected_request (scenes (ui w))) (sent (steps respond w events)).
Proof.
  induction events as [|e rest IH]; intros w W L R S; [exact S |].
  change (steps respond w (e :: rest))
    with (steps respond (step respond w e) rest).
  assert (E : scenes (ui (step respond w e)) = scenes (ui w))
    by apply (step_cursor respond w e W).
  rewrite <- E. apply IH.
  - apply step_tidy, W.
  - rewrite E. exact L.
  - apply (step_in_range respond respond_schema); assumption.
  - rewrite E. apply step_asks; assumption.
Qed.

Lemma session_asks (b : B) (early late : list Event) :
  let w := session libm_log libm_pow localeCompare respond b early late in
  Forall (expected_request (scenes (ui w))) (sent w).
Proof.
  intros w.
  pose proof (session_listed libm_log libm_pow localeCompare respond b early late)
    as L.
  destruct (session_scenes libm_log libm_pow localeCompare respond b early late)
    as [E0 E1].
  fold w in L, E1.
  set (w0 := steps respond (boot b) early) in *.
  set (w1 := run respond (load libm_log libm_pow localeCompare) w0) in *.
  assert (W0 : tidy_world w0) by apply steps_tidy, boot_tidy.
  assert (W1 : tidy_world w1) by (apply run_tidy; [apply load_tidy | exact W0]).
  assert (R0 : in_range (brightness (ui w0)) = true).
  { apply (steps_in_range respond respond_schema);
      [apply boot_tidy | reflexivity]. }
  assert (R1 : in_range (brightness (ui w1)) = true).
  { apply (run_maintains respond respond_schema
             (fun s => in_range (brightness s) = true));
      [apply load_maintains | exact R0]. }
  assert (S0 : Forall (expected_request (scenes (ui w))) (sent w0)).
  { eapply Forall_impl; [| apply (steps_asks early (boot b))].
    - intros r. apply expected_request_mono. intros sc [].
    - apply boot_tidy.
    - constructor.
    - reflexivity.
    - constructor. }
  assert (S1 : Forall (expected_request (scenes (ui w1))) (sent w1)).
  { rewrite <- E1. apply run_asks; [apply load_asks | exact S0]. }
  rewrite E1.
  apply (steps_asks late w1 W1); [rewrite <- E1; exact L | exact R1 | exact S1].
Qed.

End SentFacts.

(** X4: with a bridge whose listings of lights keep to the schema, every
    request sent in a run is one of the three listings, the switch of a
    light, the dimming of a light to a level within 1..100, or the recall
    of a scene of the list: [active] at [scene/<id>] for a regular scene
    and [activate] at [smart_scene/<id>] for a smart scene. *)
Theorem session_sends_expected_requests :
  forall (libm_log : float -> float) (libm_pow : float -> float -> float)
         (localeCompare : string -> string -> Z)
         (B : Type) (respond : B -> Request -> B * Outcome),
    schema_bridge respond ->
    forall (b : B) (early late : list Event),
      let w := session libm_log libm_pow localeCompare respond b early late in
      Forall (expected_request (scenes (ui w))) (sent w).
Proof.
  intros libm_log libm_pow localeCompare B respond H b early late.
  apply session_asks, H.
Qed.

Lemma session_sends_expected_requests_witness :
  let w := session Libm.log Libm.pow compare_code_units (idle example_hub) tt
             [] [letter "b"; up; letter "b"; enter] in
  sent w
  = [GET "/clip/v2/resource/scene"; GET "/clip/v2/resource/smart_scene";
     GET "/clip/v2/resource/light";
     PUT "/clip/v2/resource/light/a" (DimmingBody 41);
     PUT "/clip/v2/resource/light/b" (DimmingBody 41);
     PUT "/clip/v2/resource/scene/2" (RecallBody "active");
     GET "/clip/v2/resource/light"]
  /\ Forall (expected_request (scenes (ui w))) (sent w).
Proof.
  split; [vm_compute; reflexivity |].
  apply (session_sends_expected_requests Libm.log Libm.pow compare_code_units
           unit (idle example_hub) idle_schema tt []
           [letter "b"; up; letter "b"; enter]).
Defined.

(** ** A brightness that is NaN *)

Section NaNFacts.

Lemma is_nan_eq (x : float) : is_nan x = true -> x = nan.
Proof.
  intros H. apply is_nan_spec in H. apply Prim2SF_inj. rewrite H. reflexivity.
Qed.

(** [Math.max(1, Math.min(100, NaN + 1))] and the same of [NaN - 1]. *)
Lemma clampedLevel_NaN (upwards : bool) :
  Math.max 1 (Math.min 100 (if upwards then nan + 1 else nan - 1)%float) = nan.
Proof. destruct upwards; vm_compute; reflexivity. Qed.

End NaNFacts.

(** X28: the clamp of [doSetBrightness] lets NaN through: when the
    brightness that the handler sees is NaN, an arrow in brightness mode
    stores NaN and sends a request with the level NaN for every light, so
    no number of presses brings the brightness back to a number.  The
    mean of two lights on at [Infinity] and [-Infinity] is such a
    brightness. *)
Theorem NaN_brightness_is_stored_and_sent :
  forall (B : Type) (respond : B -> Request -> B * Outcome)
         (st : State) (w : World B),
    brightnessMode st = true ->
    is_nan (brightness st) = true ->
    forall upwards : bool,
      let w' := run respond (useInput st "" (arrow_key upwards)) w in
      brightness (ui w') = nan
      /\ sent w'
         = (sent w
            ++ map (fun light => PUT (light_path (light_id light)) (DimmingBody nan))
                   (lights st))%list
      /\ forall presses : list bool,
           brightnessMode (ui w) = true ->
           brightness (ui w) = nan ->
           brightness (ui (steps respond w (map arrow presses))) = nan.
Proof.
  intros B respond st w Hb N upwards w'. apply is_nan_eq in N.
  subst w'. rewrite useInput_arrow by exact Hb. rewrite N.
  split; [| split].
  - etransitivity; [apply run_doSetBrightness | apply clampedLevel_NaN].
  - rewrite run_doSetBrightness_sent, clampedLevel_NaN. reflexivity.
  - intros presses. clear Hb N. revert w.
    induction presses as [|p rest IH]; intros w M E; [exact E |].
    cbn [map]. unfold steps. cbn [fold_left].
    fold (steps respond (step respond w (arrow p)) (map arrow rest)).
    destruct (arrow_brightness respond w p M) as [E1 M1].
    apply IH; [exact M1 |]. rewrite E1, E. apply clampedLevel_NaN.
Qed.

Lemma NaN_brightness_is_stored_and_sent_witness :
  let w := example_session glare_hub [letter "b"] in
  averageBrightness (hub_lights glare_hub) = nan
  /\ brightness (ui w) = nan
  /\ brightness (ui (step hub_respond w up)) = nan
  /\ sent (step hub_respond w up)
     = (sent w
        ++ [PUT "/clip/v2/resource/light/a" (DimmingBody nan);
            PUT "/clip/v2/resource/light/b" (DimmingBody nan)])%list.
Proof.
  intros w.
  destruct (NaN_brightness_is_stored_and_sent Hub hub_respond (ui w) w
              eq_refl eq_refl true) as (H1 & H2 & _).
  split; [vm_compute; reflexivity |]. split; [vm_compute; reflexivity |].
  split; [exact H1 |]. refine (eq_trans H2 _). reflexivity.
Defined.

(** ** Examples *)

Example xyBriToHex_white_point :
  xyBriToHex Libm.pow (JSNumber 0.3127) (JSNumber 0.3290) (Some 254%float)
  = Some "#f8ffff".
Proof. vm_compute. reflexivity. Qed.

Example xyBriToHex_default_brightness :
  xyBriToHex Libm.pow (JSNumber 0.3127) (JSNumber 0.3290) None
  = xyBriToHex Libm.pow (JSNumber 0.3127) (JSNumber 0.3290) (Some 254%float).
Proof. reflexivity. Qed.

Example mirekToHex_daylight_and_warm :
  mirekToHex Libm.log Libm.pow (JSNumber 153) = Some "#fffffb"
  /\ mirekToHex Libm.log Libm.pow (JSNumber 500) = Some "#ff890e"
  /\ mirekToHex Libm.log Libm.pow (JSNumber 0) = None
  /\ mirekToHex Libm.log Libm.pow (JSNumber (-5)) = None
  /\ mirekToHex Libm.log Libm.pow (JSString "153") = None.
Proof. repeat split; vm_compute; reflexivity. Qed.

Example extractColors_duplicate :
  let sample (x y : float) :=
    {| color_xy_x := JSNumber x; color_xy_y := JSNumber y;
       dimming_brightness := Some 100%float |} in
  extractColors Libm.log Libm.pow
    {| scene_id := "1"; metadata_name := Some "Duo";
       palette :=
         Some {| color :=
                   Some [sample 0.6%float 0.3%float; sample 0.6%float 0.3%float;
                         sample 0.15%float 0.06%float];
                 color_temperature := None |};
       actions := None |}
  = ["#ff5963"; "#726aff"].
Proof. vm_compute. reflexivity. Qed.

Example extractColors_fallback :
  extractColors Libm.log Libm.pow (named_scene "1" "Evening") = ["#444444"].
Proof. reflexivity. Qed.

Example activateScene_by_kind :
  activateScene "7" "smart_scene"
  = PUT "/clip/v2/resource/smart_scene/7" (RecallBody "activate")
  /\ activateScene "7" "scene"
     = PUT "/clip/v2/resource/scene/7" (RecallBody "active")
  /\ activateScene "7" "other"
     = PUT "/clip/v2/resource/scene/7" (RecallBody "active").
Proof. repeat split. Qed.

Example set_mode_activates_on_move :
  sent (example_session example_hub [letter "s"; down])
  = [GET "/clip/v2/resource/scene"; GET "/clip/v2/resource/smart_scene";
     GET "/clip/v2/resource/light";
     PUT "/clip/v2/resource/scene/1" (RecallBody "active");
     GET "/clip/v2/resource/light"]
  /\ selected (ui (example_session example_hub [letter "s"; down])) = 1%Z.
Proof. split; vm_compute; reflexivity. Qed.
